(** * Trendline swing-trading backtester: a shallow embedding

    Embedding of [exploration/explore_swingtradetitanium.py]: extremum
    detection, trendline fitting, the hysteretic trend tracker, the bar-by-bar
    position simulator and the parameter sweep.

    Numbers.  The program computes on IEEE doubles; here a price, a slope or
    an amount of cash is a rational ([Q]) and the operations are exact.
    [np.nan] is [None] in an [option Q].  Division is [Qdiv]; it agrees with
    the program whenever the divisor is not zero.  The divisors are entry
    prices and closes: on a frame with a zero close the program can produce
    an infinity or a NaN, which this model does not have, and the statements
    about signs of amounts assume strictly positive closes.

    Library routines.  [scipy.signal.find_peaks] is deterministic and is
    transcribed below from its three stages (local maxima, distance selection,
    prominence filter).  [sklearn]'s [RANSACRegressor] draws random subsets
    from the process-wide generator: it is a variable of the section, a
    function of the generator's state that returns the new state and either
    the fitted line or the failure it raises. *)

From Stdlib Require Import QArith Qabs ZArith List Bool Lia Lqa PeanoNat.
From Stdlib Require Import Sorted.
From Stdlib Require String.
Import ListNotations.

Open Scope Q_scope.

(** ** Exceptions and the error monad *)

Inductive exn : Type :=
| ValueError   (* find_peaks with distance < 1, a failed RANSAC fit, < 2 points *)
| KeyError     (* trades_df.set_index("date") on a ledger with no column *)
| IndexError.  (* .iloc[-1] on an empty series *)

Inductive result (A : Type) : Type :=
| Ok (a : A)
| Raise (e : exn).
Arguments Ok {A} a.
Arguments Raise {A} e.

Definition bind {A B : Type} (m : result A) (k : A -> result B) : result B :=
  match m with
  | Ok a => k a
  | Raise e => Raise e
  end.

Notation "'do' x <- m ; k" := (bind m (fun x => k))
  (at level 10, x pattern, m at level 100, k at level 200).

(** ** Comparisons on floats, as booleans *)

Definition Qltb (a b : Q) : bool := negb (Qle_bool b a).
Definition Qgtb (a b : Q) : bool := Qltb b a.

(** ** Extremum detection *)

Module FindPeaks.

(** [x[i]] on a numpy array; every index the routines use is in range. *)
Definition at_ (x : list Q) (i : nat) : Q := nth i x 0.

(** Inner loop of [_local_maxima_1d]:
    [while i_ahead < i_max and x[i_ahead] == x[i]: i_ahead += 1]. *)
Fixpoint plateau_ahead (fuel : nat) (x : list Q) (xi : Q) (i_ahead i_max : nat) : nat :=
  match fuel with
  | O => i_ahead
  | S fuel' =>
      if (i_ahead <? i_max)%nat && Qeq_bool (at_ x i_ahead) xi
      then plateau_ahead fuel' x xi (S i_ahead) i_max
      else i_ahead
  end.

(** Outer loop of [_local_maxima_1d], from pointer [i]; returns the plateau
    midpoints.  Each turn moves [i] forward, so [length x] turns are enough. *)
Fixpoint local_maxima_from (fuel : nat) (x : list Q) (i i_max : nat) : list nat :=
  match fuel with
  | O => []
  | S fuel' =>
      if (i <? i_max)%nat then
        if Qltb (at_ x (i - 1)) (at_ x i) then
          let i_ahead := plateau_ahead (i_max - i) x (at_ x i) (i + 1) i_max in
          if Qltb (at_ x i_ahead) (at_ x i) then
            let left_edge := i in
            let right_edge := (i_ahead - 1)%nat in
            ((left_edge + right_edge) / 2)%nat
              :: local_maxima_from fuel' x (i_ahead + 1) i_max
          else local_maxima_from fuel' x (i + 1) i_max
        else local_maxima_from fuel' x (i + 1) i_max
      else []
  end.

(** [_local_maxima_1d(x)]: the first and the last sample are never maxima. *)
Definition local_maxima_1d (x : list Q) : list nat :=
  local_maxima_from (length x) x 1 (length x - 1).

(** [np.argsort(priority)]: positions in increasing order of priority.
    numpy does not specify the order in which its default sort leaves equal
    priorities; they keep their index order here (insertion sort), and no
    statement below depends on that choice. *)
Fixpoint insert_by (prio : nat -> Q) (j : nat) (l : list nat) : list nat :=
  match l with
  | [] => [j]
  | k :: l' => if Qltb (prio j) (prio k) then j :: l else k :: insert_by prio j l'
  end.

Definition argsort (priority : list Q) : list nat :=
  fold_left (fun acc j => insert_by (at_ priority) j acc)
            (seq 0 (length priority)) [].

Fixpoint set_false (k : nat) (keep : list bool) : list bool :=
  match keep, k with
  | [], _ => []
  | _ :: r, O => false :: r
  | b :: r, S k' => b :: set_false k' r
  end.

Definition peak_at (peaks : list nat) (k : nat) : Z := Z.of_nat (nth k peaks O).

(** [k = j - 1; while 0 <= k and peaks[j] - peaks[k] < distance_: keep[k] = 0; k -= 1];
    the argument [k1] is [k + 1]. *)
Fixpoint flag_earlier (peaks : list nat) (pj distance_ : Z) (k1 : nat)
         (keep : list bool) : list bool :=
  match k1 with
  | O => keep
  | S k =>
      if (pj - peak_at peaks k <? distance_)%Z
      then flag_earlier peaks pj distance_ k (set_false k keep)
      else keep
  end.

(** [k = j + 1; while k < peaks_size and peaks[k] - peaks[j] < distance_: keep[k] = 0; k += 1]. *)
Fixpoint flag_later (fuel : nat) (peaks : list nat) (pj distance_ : Z) (k : nat)
         (keep : list bool) : list bool :=
  match fuel with
  | O => keep
  | S fuel' =>
      if (k <? length peaks)%nat && (peak_at peaks k - pj <? distance_)%Z
      then flag_later fuel' peaks pj distance_ (S k) (set_false k keep)
      else keep
  end.

(** [_select_by_peak_distance(peaks, priority, distance)]: highest priority
    first, a kept peak removes its neighbours closer than [distance]. *)
Definition select_by_peak_distance (peaks : list nat) (priority : list Q)
           (distance : Z) : list bool :=
  fold_left
    (fun keep j =>
       if nth j keep false then
         let pj := peak_at peaks j in
         let keep1 := flag_earlier peaks pj distance j keep in
         flag_later (length peaks) peaks pj distance (S j) keep1
       else keep)
    (rev (argsort priority))
    (repeat true (length peaks)).

(** [peaks[keep]]. *)
Fixpoint mask {A : Type} (l : list A) (keep : list bool) : list A :=
  match l, keep with
  | a :: l', b :: keep' => if b then a :: mask l' keep' else mask l' keep'
  | _, _ => []
  end.

(** Left walk of [_peak_prominences] (no window): from [peak] down to 0 while
    [x[i] <= x[peak]], tracking the minimum; [i1] is [i + 1]. *)
Fixpoint left_min (x : list Q) (xp : Q) (i1 : nat) (cur : Q) : Q :=
  match i1 with
  | O => cur
  | S i =>
      if Qle_bool (at_ x i) xp
      then left_min x xp i (if Qltb (at_ x i) cur then at_ x i else cur)
      else cur
  end.

(** Right walk: from [peak] up to the last index while [x[i] <= x[peak]]. *)
Fixpoint right_min (fuel : nat) (x : list Q) (xp : Q) (i : nat) (cur : Q) : Q :=
  match fuel with
  | O => cur
  | S fuel' =>
      if (i <? length x)%nat && Qle_bool (at_ x i) xp
      then right_min fuel' x xp (S i) (if Qltb (at_ x i) cur then at_ x i else cur)
      else cur
  end.

Definition Qmaxf (a b : Q) : Q := if Qle_bool a b then b else a.

Definition peak_prominence (x : list Q) (peak : nat) : Q :=
  let xp := at_ x peak in
  xp - Qmaxf (left_min x xp (S peak) xp) (right_min (length x - peak) x xp peak xp).

(** [find_peaks(x, distance=distance, prominence=prominence)]. *)
Definition find_peaks (x : list Q) (distance : Z) (prominence : Q) : result (list nat) :=
  if (distance <? 1)%Z then Raise ValueError
  else
    let peaks := local_maxima_1d x in
    let keep := select_by_peak_distance peaks (map (at_ x) peaks) distance in
    let peaks := mask peaks keep in
    let peaks := filter (fun p => Qle_bool prominence (peak_prominence x p)) peaks in
    Ok peaks.

End FindPeaks.

(** [detect_local_extrema(series, order, prominence)]: troughs are the peaks
    of the negated series; returns [(troughs, peaks)]. *)
Definition detect_local_extrema (series : list Q) (order : Z) (prominence : Q)
  : result (list nat * list nat) :=
  do peaks <- FindPeaks.find_peaks series order prominence;
  do troughs <- FindPeaks.find_peaks (map Qopp series) order prominence;
  Ok (troughs, peaks).

(** ** Data model *)

(** A [pd.Timestamp], as far as the program reads it. *)
Record Timestamp : Type := mkTimestamp { toordinal : Z; hour : Z }.

(** One row of the OHLCV frame; the index entry is [date]. *)
Record Bar : Type := mkBar {
  date : Timestamp;
  Open : Q; High : Q; Low : Q; Close : Q; Volume : Q
}.

Definition DataFrame : Type := list Bar.

(** The regression abscissa [dt.toordinal() + dt.hour / 24.0]. *)
Definition time_x (dt : Timestamp) : Q :=
  inject_Z (toordinal dt) + inject_Z (hour dt) / 24.

(** The fitted [RANSACRegressor]: [estimator_.coef_[0]] and
    [estimator_.intercept_]; [predict] evaluates that line. *)
Record RANSACModel : Type := mkModel { coef_ : Q; intercept_ : Q }.

Definition predict (m : RANSACModel) (x : Q) : Q := coef_ m * x + intercept_ m.

(** The trend-info dictionary. *)
Record trend_info : Type := mkInfo {
  model : option RANSACModel;
  slope : Q;
  intercept : option Q;
  used_points : list nat
}.

Definition no_model (used : list nat) : trend_info :=
  {| model := None; slope := 0; intercept := None; used_points := used |}.

Inductive trend : Type := uptrend | downtrend.

Inductive trade_type : Type := buy | sell_short | exit_long | exit_short.

(** A ledger row; entries carry ["size"], exits carry ["pnl"]. *)
Record trade : Type := mkTrade {
  t_date : Timestamp;
  t_type : trade_type;
  t_price : Q;
  t_size : option Q;
  t_pnl : option Q
}.

Record Params : Type := mkParams {
  order : Z;
  prominence : Q;
  rebalance_bars : Z;
  touch_tolerance : Q;
  min_points_for_trend : Z
}.

(** The tracker's variables. *)
Record tracker : Type := mkTracker {
  active_trend : option trend;
  active_trend_info : trend_info;
  last_trend : option trend;
  trend_switches : list (Timestamp * option trend)
}.

(** The simulator's account variables. *)
Record account : Type := mkAccount {
  position : Z;
  entry_price : Q;
  cash : Q;
  position_size : Q;
  equity : list Q;
  trades : list trade
}.

Definition initial_tracker : tracker :=
  {| active_trend := None; active_trend_info := no_model [];
     last_trend := None; trend_switches := [] |}.

Definition initial_account : account :=
  {| position := 0; entry_price := 0; cash := 100000; position_size := 0;
     equity := []; trades := [] |}.

(** ** Signal logic *)

Definition line_value_at (model_info : trend_info) (dt : Timestamp) : option Q :=
  match model model_info with
  | None => None
  | Some m => Some (predict m (time_x dt))
  end.

Definition is_touching_line (price : Q) (line_price : option Q) (tolerance : Q) : bool :=
  match line_price with
  | None => false
  | Some l => Qle_bool (Qabs (price - l)) (tolerance * l)
  end.

Definition trend_eqb (a b : option trend) : bool :=
  match a, b with
  | None, None => true
  | Some uptrend, Some uptrend => true
  | Some downtrend, Some downtrend => true
  | _, _ => false
  end.

Definition is_trend (a : option trend) (t : trend) : bool := trend_eqb a (Some t).

(** ** Trendline fitting and the simulator *)

Section Simulator.

(** State of numpy's global random generator. *)
Variable rng : Type.

(** [RANSACRegressor(LinearRegression(), min_samples=..., residual_threshold=np.std(y) * 1.5).fit(X, y)]:
    the threshold is a function of [y]; the result is the fitted model or the
    [ValueError] raised when no consensus set is found. *)
Variable RANSACRegressor_fit : rng -> nat -> list Q -> list Q -> rng * result RANSACModel.

(** [l.iloc[i]], [l[i]]; the loop only reads indices below [len(df)], so
    the default [d] is never returned there. *)
Definition iloc {A : Type} (d : A) (l : list A) (i : nat) : A := nth i l d.

Definition epoch : Timestamp := mkTimestamp 0 0.

(** [fit_trendline_ransac(x, y)]: slope, intercept and the model;
    [min_samples] is [max(2, int(len(x) * 0.3))]. *)
Definition fit_trendline_ransac (g : rng) (x y : list Q)
  : result (Q * Q * RANSACModel * rng) :=
  if (length x <? 2)%nat then Raise ValueError
  else
    let min_samples := Nat.max 2 (3 * length x / 10) in
    let '(g', r) := RANSACRegressor_fit g min_samples x y in
    do m <- r;
    Ok (coef_ m, intercept_ m, m, g').

(** [trendline_from_extrema(dates, prices, extrema_idx)]. *)
Definition trendline_from_extrema (g : rng) (dates : list Timestamp) (prices : list Q)
           (extrema_idx : list nat) : result (trend_info * rng) :=
  if (length extrema_idx <? 2)%nat then
    Ok ({| slope := 0;
           intercept := match extrema_idx with
                        | [] => None
                        | i0 :: _ => Some (iloc 0 prices i0)
                        end;
           model := None;
           used_points := extrema_idx |}, g)
  else
    let x := map (fun i => time_x (iloc epoch dates i)) extrema_idx in
    let y := map (iloc 0 prices) extrema_idx in
    do (m, b, mdl, g') <- fit_trendline_ransac g x y;
    Ok ({| slope := m; intercept := Some b; model := Some mdl;
           used_points := extrema_idx |}, g').

Definition len_ge (l : list nat) (k : Z) : bool := (k <=? Z.of_nat (length l))%Z.

(** The candidate for one side: fitted only with enough extrema. *)
Definition candidate_info (p : Params) (g : rng) (dates : list Timestamp)
           (prices : list Q) (idx_full : list nat) : result (trend_info * rng) :=
  if len_ge idx_full (min_points_for_trend p)
  then trendline_from_extrema g dates prices idx_full
  else Ok (no_model idx_full, g).

(** [prices.iloc[start_idx : i + 1]]. *)
Definition window_slice (prices : list Q) (start_idx i : nat) : list Q :=
  firstn (i + 1 - start_idx) (skipn start_idx prices).

(** Support and resistance candidates of bar [i]. *)
Definition candidates (p : Params) (df : DataFrame) (i : nat) (g : rng)
  : result (trend_info * trend_info * rng) :=
  let prices := map Close df in
  let dates := map date df in
  let window := (rebalance_bars p * 6)%Z in
  let start_idx := Z.to_nat (Z.max 0 (Z.of_nat i - window)) in
  let sub_prices := window_slice prices start_idx i in
  do (troughs, peaks) <- detect_local_extrema sub_prices (order p) (prominence p);
  let troughs_full := map (Nat.add start_idx) troughs in
  let peaks_full := map (Nat.add start_idx) peaks in
  do (support_info, g1) <- candidate_info p g dates prices troughs_full;
  do (resistance_info, g2) <- candidate_info p g1 dates prices peaks_full;
  Ok (support_info, resistance_info, g2).

(** [uptrend] and [downtrend] of bar [i]. *)
Definition uptrend_qualifies (p : Params) (support_info : trend_info) : bool :=
  Qgtb (slope support_info) 0
  && len_ge (used_points support_info) (min_points_for_trend p).

Definition downtrend_qualifies (p : Params) (resistance_info : trend_info) : bool :=
  Qltb (slope resistance_info) 0
  && len_ge (used_points resistance_info) (min_points_for_trend p).

(** The hysteresis update and the switch log. *)
Definition update_trend (p : Params) (cur_date : Timestamp)
           (support_info resistance_info : trend_info) (t : tracker) : tracker :=
  let up := uptrend_qualifies p support_info in
  let down := downtrend_qualifies p resistance_info in
  let '(active, info) :=
    if up && negb down then (Some uptrend, support_info)
    else if down && negb up then (Some downtrend, resistance_info)
    else
      let active := match last_trend t with Some l => Some l | None => None end in
      (active,
       match active with
       | Some _ => active_trend_info t
       | None => no_model []
       end) in
  {| active_trend := active;
     active_trend_info := info;
     last_trend := active;
     trend_switches :=
       if trend_eqb active (last_trend t) then trend_switches t
       else trend_switches t ++ [(cur_date, active)] |}.

(** The trendline value read at the bar. *)
Definition trendline_price_at (info : trend_info) (cur_date : Timestamp) : option Q :=
  match model info with
  | Some _ => line_value_at info cur_date
  | None => None
  end.

Definition mark_to_market (a : account) (cur_price : Q) : Q :=
  if (position a =? 0)%Z then cash a
  else if (position a =? 1)%Z then position_size a * (cur_price / entry_price a)
  else position_size a * (entry_price a / cur_price).

(** Entry and exit logic of one bar, before the equity is marked. *)
Definition trade_logic (tol : Q) (active : option trend) (trendline_price : option Q)
           (cur_date : Timestamp) (cur_price : Q) (a : account) : account :=
  if (position a =? 0)%Z then
    if is_trend active uptrend && is_touching_line cur_price trendline_price tol then
      {| position := 1; entry_price := cur_price; position_size := cash a; cash := 0;
         equity := equity a;
         trades := trades a ++ [mkTrade cur_date buy cur_price (Some (cash a)) None] |}
    else if is_trend active downtrend && is_touching_line cur_price trendline_price tol then
      {| position := -1; entry_price := cur_price; position_size := cash a; cash := 0;
         equity := equity a;
         trades := trades a ++ [mkTrade cur_date sell_short cur_price (Some (cash a)) None] |}
    else a
  else if (position a =? 1)%Z then
    match trendline_price with
    | Some l =>
        if Qltb cur_price l then
          let pnl := (cur_price - entry_price a) / entry_price a * position_size a in
          {| cash := position_size a + pnl;
             trades := trades a ++ [mkTrade cur_date exit_long cur_price None (Some pnl)];
             position := 0; entry_price := 0; position_size := 0;
             equity := equity a |}
        else a
    | None => a
    end
  else if (position a =? -1)%Z then
    match trendline_price with
    | Some l =>
        if Qgtb cur_price l then
          let pnl := (entry_price a - cur_price) / entry_price a * position_size a in
          {| cash := position_size a + pnl;
             trades := trades a ++ [mkTrade cur_date exit_short cur_price None (Some pnl)];
             position := 0; entry_price := 0; position_size := 0;
             equity := equity a |}
        else a
    | None => a
    end
  else a.

Definition append_equity (a : account) (eq : Q) : account :=
  {| position := position a; entry_price := entry_price a; cash := cash a;
     position_size := position_size a; equity := equity a ++ [eq];
     trades := trades a |}.

(** The account part of one bar: trade, then mark to market. *)
Definition trade_bar (tol : Q) (active : option trend) (trendline_price : option Q)
           (cur_date : Timestamp) (cur_price : Q) (a : account) : account :=
  let a' := trade_logic tol active trendline_price cur_date cur_price a in
  append_equity a' (mark_to_market a' cur_price).

Record sim : Type := mkSim { trk : tracker; acct : account; gen : rng }.

(** One turn of the loop [for i in range(n)]. *)
Definition step (p : Params) (df : DataFrame) (i : nat) (s : sim) : result sim :=
  do (support_info, resistance_info, g') <- candidates p df i (gen s);
  let cur_price := iloc 0 (map Close df) i in
  let cur_date := iloc epoch (map date df) i in
  let t' := update_trend p cur_date support_info resistance_info (trk s) in
  let trendline_price := trendline_price_at (active_trend_info t') cur_date in
  let a' := trade_bar (touch_tolerance p) (active_trend t') trendline_price
                      cur_date cur_price (acct s) in
  Ok {| trk := t'; acct := a'; gen := g' |}.

Definition initial_sim (g : rng) : sim :=
  {| trk := initial_tracker; acct := initial_account; gen := g |}.

(** The loop over bars [0 .. k-1]: the state after bar [k-1]. *)
Fixpoint run_bars (p : Params) (df : DataFrame) (g : rng) (k : nat) : result sim :=
  match k with
  | O => Ok (initial_sim g)
  | S k' => do s <- run_bars p df g k'; step p df k' s
  end.

(** What [backtest_trendline_strategy] returns: the equity column, the
    ledger, the final trend info and the switch log (and the generator). *)
Record backtest_out : Type := mkOut {
  out_equity : list Q;
  out_trades : list trade;
  out_info : trend_info;
  out_switches : list (Timestamp * option trend);
  out_gen : rng
}.

(** [backtest_trendline_strategy]; [pd.DataFrame(trades).set_index("date")]
    raises [KeyError] when the ledger is empty (the frame has no column). *)
Definition backtest_trendline_strategy (g : rng) (df : DataFrame) (p : Params)
  : result backtest_out :=
  do s <- run_bars p df g (length df);
  match trades (acct s) with
  | [] => Raise KeyError
  | _ :: _ =>
      Ok {| out_equity := equity (acct s); out_trades := trades (acct s);
            out_info := active_trend_info (trk s);
            out_switches := trend_switches (trk s); out_gen := gen s |}
  end.

(** ** Parameter sweep *)

(** A metric value: a float or [float("-inf")]. *)
Inductive metric : Type := NegInf | Fin (q : Q).

(** [a > b] on metric values. *)
Definition metric_gtb (a b : metric) : bool :=
  match a, b with
  | NegInf, _ => false
  | Fin _, NegInf => true
  | Fin x, Fin y => Qgtb x y
  end.

Fixpoint insert_sorted (v : Q) (l : list Q) : list Q :=
  match l with
  | [] => [v]
  | w :: l' => if Qle_bool v w then v :: l else w :: insert_sorted v l'
  end.

Definition sort_values (l : list Q) : list Q := fold_right insert_sorted [] l.

(** [Series.median()] of the values that are not NaN (at least one). *)
Definition median (vals : list Q) : Q :=
  let s := sort_values vals in
  let n := length s in
  if Nat.even n then (nth (n / 2 - 1) s 0 + nth (n / 2) s 0) / 2
  else nth (n / 2) s 0.

(** The values of the ["pnl"] column that are not NaN. *)
Definition pnl_values (ts : list trade) : list Q :=
  flat_map (fun t => match t_pnl t with Some v => [v] | None => [] end) ts.

(** ["pnl" in trades.columns]: some row has the key. *)
Definition has_pnl_column (ts : list trade) : bool :=
  existsb (fun t => match t_pnl t with Some _ => true | None => false end) ts.

(** [.iloc[-1]]. *)
Definition iloc_last (l : list Q) : result Q :=
  match rev l with
  | [] => Raise IndexError
  | v :: _ => Ok v
  end.

(** [run_backtest_combo(combo, param_names, df)]; the combination is the
    parameter set itself. *)
Definition run_backtest_combo (g : rng) (combo : Params) (df : DataFrame)
  : result (Params * metric * Q) :=
  do out <- backtest_trendline_strategy g df combo;
  let median_pnl :=
    if has_pnl_column (out_trades out) then Fin (median (pnl_values (out_trades out)))
    else NegInf in
  do final_equity <- iloc_last (out_equity out);
  Ok (combo, median_pnl, final_equity).

(** The variables of the ranking loop. *)
Record leaderboard : Type := mkBoard {
  best_median : option metric;
  best_median_params : option Params;
  best_equity : option Q;
  best_equity_params : option Params;
  best_median_val : metric;
  best_equity_val : metric
}.

Definition initial_board : leaderboard :=
  {| best_median := None; best_median_params := None;
     best_equity := None; best_equity_params := None;
     best_median_val := NegInf; best_equity_val := NegInf |}.

(** One turn of [for combo, median_pnl, final_equity in results]. *)
Definition rank_step (b : leaderboard) (r : Params * metric * Q) : leaderboard :=
  let '(combo, median_pnl, final_equity) := r in
  let b1 :=
    if metric_gtb median_pnl (best_median_val b) then
      {| best_median_val := median_pnl; best_median := Some median_pnl;
         best_median_params := Some combo;
         best_equity := best_equity b; best_equity_params := best_equity_params b;
         best_equity_val := best_equity_val b |}
    else b in
  if metric_gtb (Fin final_equity) (best_equity_val b1) then
    {| best_equity_val := Fin final_equity; best_equity := Some final_equity;
       best_equity_params := Some combo;
       best_median := best_median b1; best_median_params := best_median_params b1;
       best_median_val := best_median_val b1 |}
  else b1.

Definition rank (results : list (Params * metric * Q)) : leaderboard :=
  fold_left rank_step results initial_board.

(** [param_grid]: the values listed for each parameter. *)
Record ParamGrid : Type := mkGrid {
  grid_order : list Z;
  grid_prominence : list Q;
  grid_rebalance_bars : list Z;
  grid_touch_tolerance : list Q;
  grid_min_points_for_trend : list Z
}.

(** The cartesian product of the grid's value lists, as [itertools.product]
    enumerates it: the last parameter varies fastest. *)
Definition param_combos (gr : ParamGrid) : list Params :=
  flat_map (fun o =>
  flat_map (fun pr =>
  flat_map (fun rb =>
  flat_map (fun tt =>
  map (fun mp => mkParams o pr rb tt mp)
      (grid_min_points_for_trend gr))
      (grid_touch_tolerance gr))
      (grid_rebalance_bars gr))
      (grid_prominence gr))
      (grid_order gr).

Fixpoint gather {A B : Type} (f : A -> result B) (l : list A) : result (list B) :=
  match l with
  | [] => Ok []
  | a :: l' => do b <- f a; do bs <- gather f l'; Ok (b :: bs)
  end.

(** The sweep over a list of combinations taken in the order in which the
    workers complete; each worker runs on its own copy of the generator,
    [seed combo].  A worker's exception is re-raised by [f.result()]. *)
Definition grid_search (seed : Params -> rng) (df : DataFrame)
           (completed : list Params) : result leaderboard :=
  do results <- gather (fun combo => run_backtest_combo (seed combo) combo df) completed;
  Ok (rank results).

(** The report printed after the ranking loop.  Its two [print] calls format
    [best_median] and then [best_equity] with [:.2f], and formatting [None]
    that way raises [TypeError]; the parameters are printed as they are. *)
Inductive report : Type :=
| TypeError
| Printed (best_median_line : metric * option Params)
          (best_equity_line : Q * option Params).

Definition print_best (b : leaderboard) : report :=
  match best_median b with
  | None => TypeError
  | Some m =>
      match best_equity b with
      | None => TypeError
      | Some e => Printed (m, best_median_params b) (e, best_equity_params b)
      end
  end.

(** The report of the first run, for comparison: there [median_pnl] is
    [None] when the ledger has no ["pnl"] column, and the [print] call
    writes ["N/A"] instead of formatting it. *)
Inductive median_line : Type := NotAvailable | Formatted (median_pnl : Q).

Definition print_median (ts : list trade) : median_line :=
  if has_pnl_column ts then Formatted (median (pnl_values ts)) else NotAvailable.

(** ** Vocabulary of the statements *)

(** The account after an entry on side [side] at close [c]. *)
Definition opened (side : Z) (kind : trade_type) (d : Timestamp) (c : Q)
           (a : account) : account :=
  {| position := side; entry_price := c; position_size := cash a; cash := 0;
     equity := equity a;
     trades := trades a ++ [mkTrade d kind c (Some (cash a)) None] |}.

(** The account after an exit that realizes [pnl]. *)
Definition closed (kind : trade_type) (pnl : Q) (d : Timestamp) (c : Q)
           (a : account) : account :=
  {| cash := position_size a + pnl;
     trades := trades a ++ [mkTrade d kind c None (Some pnl)];
     position := 0; entry_price := 0; position_size := 0;
     equity := equity a |}.

Definition long_pnl (c : Q) (a : account) : Q :=
  (c - entry_price a) / entry_price a * position_size a.

Definition short_pnl (c : Q) (a : account) : Q :=
  (entry_price a - c) / entry_price a * position_size a.

Definition is_entry (t : trade) : bool :=
  match t_type t with buy | sell_short => true | _ => false end.

Definition is_exit (t : trade) : bool :=
  match t_type t with exit_long | exit_short => true | _ => false end.

(** [prices.iloc[i]] and [dates[i]] of the frame. *)
Definition close_at (df : DataFrame) (i : nat) : Q := iloc 0 (map Close df) i.
Definition date_at (df : DataFrame) (i : nat) : Timestamp := iloc epoch (map date df) i.

Definition positive_closes (df : DataFrame) : Prop :=
  Forall (fun b => 0 < Close b) df.

(** Every short position closed during bars [0 .. k-1] is closed at a price
    [c] with [R c (2 * entry)]. *)
Definition covers_within (R : Q -> Q -> Prop) (p : Params) (df : DataFrame)
           (g : rng) (k : nat) : Prop :=
  forall (j : nat) (s s' : sim),
    (j < k)%nat ->
    run_bars p df g j = Ok s ->
    run_bars p df g (S j) = Ok s' ->
    position (acct s) = (-1)%Z ->
    position (acct s') = 0%Z ->
    R (close_at df j) (2 * entry_price (acct s)).

(** After any bar, and initially: [last_trend] is the active trend, and a
    tracker without a trend holds the empty info. *)
Definition tracker_ok (t : tracker) : Prop :=
  last_trend t = active_trend t
  /\ (active_trend t = None -> active_trend_info t = no_model []).

(** The position is flat, long or short; a flat account holds no notional
    and an open one holds no cash. *)
Definition shape_ok (a : account) : Prop :=
  (position a = 0 \/ position a = 1 \/ position a = -1)%Z
  /\ (position a = 0%Z -> position_size a = 0 /\ entry_price a = 0)
  /\ (position a <> 0%Z -> cash a = 0).

(** The account's funds are strictly positive. *)
Definition funded (a : account) : Prop :=
  0 < cash a + position_size a
  /\ (position a <> 0%Z -> 0 < entry_price a).

(** Cash and notional are not negative. *)
Definition solvent (a : account) : Prop :=
  0 <= cash a /\ 0 <= position_size a
  /\ (position a <> 0%Z -> 0 < entry_price a).

(** The equity leaderboard holds a result whose final equity no result seen
    so far exceeds. *)
Definition equity_board_ok (seen : list (Params * metric * Q)) (b : leaderboard) : Prop :=
  (seen = [] /\ best_equity_params b = None /\ best_equity_val b = NegInf)
  \/ (exists w m e, In (w, m, e) seen
                    /\ best_equity_params b = Some w
                    /\ best_equity b = Some e
                    /\ best_equity_val b = Fin e
                    /\ forall r, In r seen -> snd r <= e).

(** The ledger holds no realized trade. *)
Definition no_realized_trade (ts : list trade) : Prop := pnl_values ts = [].

End Simulator.

Definition qs (l : list Z) : list Q := map inject_Z l.

(** ** A deterministic instance of the fit, for concrete runs

    With exactly two points at distinct abscissas every random subset of
    [min_samples = 2] is the whole sample, both residuals are zero and the
    model is the line through the two points, whatever the generator does.
    The instance is defined there and only there: on any other sample it
    raises, so a run that returns has used two-point fits only. *)

Module TwoPoint.

Definition rng : Type := unit.

Definition RANSACRegressor_fit (g : rng) (min_samples : nat) (x y : list Q)
  : rng * result RANSACModel :=
  match x, y with
  | [x1; x2], [y1; y2] =>
      if Qeq_bool x1 x2 then (g, Raise ValueError)
      else
        let m := Qred ((y2 - y1) / (x2 - x1)) in
        (g, Ok {| coef_ := m; intercept_ := Qred (y1 - m * x1) |})
  | _, _ => (g, Raise ValueError)
  end.

(** 4-hour bars from midnight of day [d]; only the close matters. *)
Definition bar (d : Z) (k : nat) (close : Q) : Bar :=
  {| date := mkTimestamp (d + Z.of_nat k / 6) (4 * (Z.of_nat k mod 6));
     Open := close; High := close; Low := close; Close := close; Volume := 0 |}.

Fixpoint bars_from (d : Z) (k : nat) (closes : list Q) : DataFrame :=
  match closes with
  | [] => []
  | c :: rest => bar d k c :: bars_from d (S k) rest
  end.

Definition frame (closes : list Q) : DataFrame := bars_from 738000 0 closes.

Definition run (p : Params) (df : DataFrame) (k : nat) : result (sim rng) :=
  run_bars rng RANSACRegressor_fit p df tt k.

End TwoPoint.

(** ** The scenarios evaluated below *)

Module Scenario.

Import TwoPoint.

(** A falling resistance through the peaks of bars 1 and 3, touched at bar 5,
    then a spike at bar 6 and a fall back onto the line at bar 7. *)
Definition spike_closes : list Q := [12; 20; 11; 15; 10; 201 # 20; 50; 5].
Definition spike_frame : DataFrame := frame spike_closes.
Definition spike_params : Params :=
  {| order := 1; prominence := 0; rebalance_bars := 1;
     touch_tolerance := 1 # 100; min_points_for_trend := 2 |}.

(** A rising support through the troughs of bars 1 and 3; the close of bar 4
    is far above the line, the close of bar 5 just below it. *)
Definition support_closes : list Q := [10; 8; 12; 9; 13; 199 # 20].
Definition support_frame : DataFrame := frame support_closes.
Definition tight_params : Params :=
  {| order := 1; prominence := 0; rebalance_bars := 24;
     touch_tolerance := 1 # 100; min_points_for_trend := 2 |}.
Definition loose_params : Params :=
  {| order := 1; prominence := 0; rebalance_bars := 24;
     touch_tolerance := 1 # 2; min_points_for_trend := 2 |}.

(** The first six bars of [spike_closes], then a close above the line but
    below twice the entry price, and a touch of the resistance refitted
    through the peaks of bars 3 and 6. *)
Definition cover_closes : list Q := [12; 20; 11; 15; 10; 201 # 20; 12; 11].
Definition cover_frame : DataFrame := frame cover_closes.

(** Grids for the sweep over [support_frame]. *)
Definition two_grid : ParamGrid :=
  {| grid_order := [1%Z]; grid_prominence := [0]; grid_rebalance_bars := [24%Z];
     grid_touch_tolerance := [1 # 100; 1 # 2]; grid_min_points_for_trend := [2%Z] |}.
Definition tight_grid : ParamGrid :=
  {| grid_order := [1%Z]; grid_prominence := [0]; grid_rebalance_bars := [24%Z];
     grid_touch_tolerance := [1 # 100]; grid_min_points_for_trend := [2%Z] |}.

(** The value a computation returned ([d] if it raised). *)
Definition returned {A : Type} (d : A) (r : result A) : A :=
  match r with Ok a => a | Raise _ => d end.

(** The simulator state after [k] bars. *)
Definition state_after (p : Params) (df : DataFrame) (k : nat) : sim rng :=
  returned (initial_sim rng tt) (run p df k).

Definition backtest (df : DataFrame) (p : Params) : result (backtest_out rng) :=
  backtest_trendline_strategy rng RANSACRegressor_fit tt df p.


Definition no_out : backtest_out rng :=
  {| out_equity := []; out_trades := []; out_info := no_model [];
     out_switches := []; out_gen := tt |}.

Definition out_of (df : DataFrame) (p : Params) : backtest_out rng :=
  returned no_out (backtest df p).

End Scenario.

(** * The weekly Sharpe-ratio bot: from optimizer weights to target weights

    [SharpePortfolioOptWeeklyBot.makeOneIteration] of
    [sharpeportfoliooptweekly.py].  The market-data fetch, the conversion to
    the wide frame and the optimizer are collaborators: what the method does
    with their results is modelled, from whether the two frames are empty and
    from the dictionary [ef.clean_weights()] returns, given as its items in
    order.  The method always returns 0; the outcome below says whether
    [rebalancePortfolio] is called and with which weights.  The weights are
    rationals: the sum, the test [total_weight == 0] and the division are
    exact here, so with weights of both signs the program, which adds
    doubles, can find a total that is not zero where this model finds zero.
    The statements about the method are for non-negative weights, as the
    bounds the bot passes to the optimizer give, where the two agree on the
    test. *)

Module SharpeBot.

Definition weights : Type := list (String.string * Q).

(** [sorted(items, key=lambda item: item[1], reverse=True)]: descending, and
    items of equal weight keep their order. *)
Fixpoint insert_desc (x : String.string * Q) (l : weights) : weights :=
  match l with
  | [] => [x]
  | y :: r => if Qltb (snd x) (snd y) then y :: insert_desc x r else x :: l
  end.

Definition sorted_desc (w : weights) : weights := fold_right insert_desc [] w.

(** [sum(cleaned_weights.values())]. *)
Definition sum_values (w : weights) : Q := fold_left Qplus (map snd w) 0.

Inductive outcome : Type :=
| Skipped
| Rebalanced (normalized_weights : weights).

Definition makeOneIteration (data_long_empty df_empty : bool) (clean_weights : weights)
  : outcome :=
  if data_long_empty then Skipped
  else if df_empty then Skipped
  else
    let cleaned_weights := sorted_desc clean_weights in
    let cleaned_weights :=
      filter (fun kv => negb (Qeq_bool (snd kv) 0)) cleaned_weights in
    match cleaned_weights with
    | [] => Skipped
    | _ :: _ =>
        let total_weight := sum_values cleaned_weights in
        if Qeq_bool total_weight 0 then Skipped
        else Rebalanced (map (fun kv => (fst kv, snd kv / total_weight))
                             cleaned_weights)
    end.

(** The second item is not heavier than the first. *)
Definition heavier (a b : String.string * Q) : Prop := snd b <= snd a.

(** What the method keeps of the optimizer's weights: sorted, zeros dropped. *)
Definition kept (clean_weights : weights) : weights :=
  filter (fun kv => negb (Qeq_bool (snd kv) 0)) (sorted_desc clean_weights).

End SharpeBot.

(** * Portfolio worth

    [calculate_portfolio_worth] of [utils/portfolio_worth_calculator.py].
    The portfolio is the bot's dictionary from symbol to quantity, given as
    its items; the data service is a collaborator, taken as the two lookups
    the function makes. *)

Module PortfolioWorth.

Import String.StringSyntax.
Local Delimit Scope string_scope with string.

Definition portfolio : Type := list (String.string * Q).

(** [portfolio.get(key, default)]. *)
Fixpoint get (p : portfolio) (key : String.string) (default : Q) : Q :=
  match p with
  | [] => default
  | (k, v) :: r => if String.eqb k key then v else get r key default
  end.

(** [{symbol: quantity for symbol, quantity in portfolio.items()
      if symbol != "USD" and quantity > 0}]. *)
Definition holdings (p : portfolio) : portfolio :=
  filter (fun kv => negb (String.eqb (fst kv) "USD"%string) && Qgtb (snd kv) 0) p.

Section Service.

(** The date a worth is asked for. *)
Variable date : Type.

(** The close of the last row [data_service.get_data_from_db] returns for a
    symbol up to a date; [None] when the frame is empty. *)
Variable historic_close : String.string -> date -> option Q.

(** The dictionary [data_service.get_latest_prices_batch(symbols)] returns. *)
Variable get_latest_prices_batch : list String.string -> String.string -> option Q.

(** [total_value += quantity * price] over the holdings that have a price. *)
Definition add_holdings (price_of : String.string -> option Q) (hs : portfolio)
           (cash : Q) : Q :=
  fold_left (fun total_value kv =>
               match price_of (fst kv) with
               | Some price => total_value + snd kv * price
               | None => total_value
               end) hs cash.

Definition calculate_portfolio_worth (p : portfolio) (d : option date) : Q :=
  let cash := get p "USD"%string 0 in
  let hs := holdings p in
  match hs with
  | [] => cash
  | _ :: _ =>
      match d with
      | Some dt => add_holdings (fun symbol => historic_close symbol dt) hs cash
      | None =>
          let symbols := map fst hs in
          let prices := get_latest_prices_batch symbols in
          add_holdings prices hs cash
      end
  end.

End Service.

End PortfolioWorth.

(** * Inputs of the further scenarios *)

Module Inputs.

Import String.StringSyntax.
Local Delimit Scope string_scope with string.

(** Two bars only; six bars that only rise. *)
Definition short_frame : DataFrame := TwoPoint.frame [10; 11].
Definition rising_frame : DataFrame := TwoPoint.frame (qs [1; 2; 3; 4; 5; 6]%Z).

Definition order_zero_params : Params :=
  {| order := 0; prominence := 0; rebalance_bars := 24;
     touch_tolerance := 1 # 100; min_points_for_trend := 2 |}.

(** A zigzag with peaks of heights 5, 6, 4 and 9 two samples apart. *)
Definition zigzag : list Q := qs [0; 5; 1; 6; 1; 4; 0; 9; 0]%Z.

(** Three worker results: the second is the first with the best equity, the
    third the first with the best median. *)
Definition some_results : list (Params * metric * Q) :=
  [(Scenario.tight_params, NegInf, 90000);
   (Scenario.loose_params, Fin (-5), 120000);
   (Scenario.spike_params, Fin 7, 120000)].

(** Optimizer weights: two assets at the upper bound, one small, one zero. *)
Definition some_weights : SharpeBot.weights :=
  [("GLD"%string, 1 # 10); ("AAPL"%string, 1 # 5);
   ("TSLA"%string, 0); ("MSFT"%string, 1 # 5)].

(** A portfolio with cash, two long holdings and a short one, and a data
    service that knows the price of two of the symbols. *)
Definition some_portfolio : PortfolioWorth.portfolio :=
  [("USD"%string, 1000); ("AAPL"%string, 2); ("TSLA"%string, -3);
   ("GLD"%string, 5)].

Definition some_prices (symbol : String.string) : option Q :=
  if String.eqb symbol "AAPL"%string then Some 150
  else if String.eqb symbol "TSLA"%string then Some 200
  else None.

Definition historic (symbol : String.string) (d : unit) : option Q := some_prices symbol.
Definition latest (symbols : list String.string) (symbol : String.string) : option Q :=
  some_prices symbol.

(** What the worker returns for the loose combination over
    [Scenario.support_frame]. *)
Definition loose_result : Params * metric * Q :=
  Scenario.returned (Scenario.loose_params, NegInf, 0)
    (run_backtest_combo TwoPoint.rng TwoPoint.RANSACRegressor_fit tt
                        Scenario.loose_params Scenario.support_frame).

(** The targets the bot computes from [some_weights]. *)
Definition some_targets : SharpeBot.weights :=
  match SharpeBot.makeOneIteration false false some_weights with
  | SharpeBot.Rebalanced w => w
  | SharpeBot.Skipped => []
  end.

End Inputs.

(** * Further vocabulary *)

(** ** Ledgers *)

(** The position after a ledger row, replayed from the position before it;
    [None] when the row cannot follow that position. *)
Definition replay_row (pos : option Z) (t : trade) : option Z :=
  match pos with
  | None => None
  | Some z =>
      match t_type t with
      | buy => if (z =? 0)%Z then Some 1%Z else None
      | sell_short => if (z =? 0)%Z then Some (-1)%Z else None
      | exit_long => if (z =? 1)%Z then Some 0%Z else None
      | exit_short => if (z =? -1)%Z then Some 0%Z else None
      end
  end.

(** The position a ledger leads to from a flat start. *)
Definition replay (ts : list trade) : option Z := fold_left replay_row ts (Some 0%Z).

(** An entry row carries its size and no PnL, an exit row its PnL and no size. *)
Definition row_shape_ok (t : trade) : Prop :=
  if is_entry t then t_size t <> None /\ t_pnl t = None
  else t_size t = None /\ t_pnl t <> None.

Definition Qsum (l : list Q) : Q := fold_right Qplus 0 l.

(** The account nothing has touched, after [k] bars. *)
Definition untouched_account (k : nat) : account :=
  {| position := 0; entry_price := 0; cash := 100000; position_size := 0;
     equity := repeat 100000 k; trades := [] |}.

(** ** The switch log *)

(** No logged state is "no trend" and each differs from the one before it
    ([prev] before the first). *)
Fixpoint alternates (prev : option trend) (l : list (option trend)) : bool :=
  match l with
  | [] => true
  | x :: r => negb (trend_eqb x None) && negb (trend_eqb x prev) && alternates x r
  end.

(** ** Extrema *)

(** Sample [m] lies on a flat stretch [left .. right] of [x] that is
    strictly above the sample before it and the sample after it, neither of
    which is missing. *)
Definition plateau_peak (x : list Q) (m : nat) : Prop :=
  exists left right : nat,
    (1 <= left <= m)%nat /\ (m <= right)%nat /\ (right + 1 < length x)%nat
    /\ FindPeaks.at_ x (left - 1) < FindPeaks.at_ x left
    /\ FindPeaks.at_ x (right + 1) < FindPeaks.at_ x left
    /\ forall j, (left <= j <= right)%nat -> FindPeaks.at_ x j == FindPeaks.at_ x left.

(** The indices are at least [lo] and strictly increasing. *)
Fixpoint increasing_from (lo : nat) (l : list nat) : Prop :=
  match l with
  | [] => True
  | m :: r => (lo <= m)%nat /\ increasing_from (S m) r
  end.

(** One turn of the distance selection, for the peak at position [j]. *)
Definition select_turn (peaks : list nat) (distance : Z) (keep : list bool) (j : nat)
  : list bool :=
  if nth j keep false then
    let pj := FindPeaks.peak_at peaks j in
    let keep1 := FindPeaks.flag_earlier peaks pj distance j keep in
    FindPeaks.flag_later (length peaks) peaks pj distance (S j) keep1
  else keep.

(** Every peak of [done] that is still kept has no kept peak closer than the
    distance. *)
Definition separated (peaks : list nat) (distance : Z) (done : list nat)
           (keep : list bool) : Prop :=
  forall a b, In a done -> nth a keep false = true -> nth b keep false = true ->
              b <> a -> (b < length peaks)%nat ->
              (distance <= Z.abs (FindPeaks.peak_at peaks b - FindPeaks.peak_at peaks a))%Z.

(** ** Trend infos *)

(** The info is a fitted line: it holds a model, repeats the model's slope
    and intercept, and rests on at least two basis points. *)
Definition fitted (info : trend_info) : Prop :=
  exists m : RANSACModel,
    model info = Some m /\ slope info = coef_ m
    /\ intercept info = Some (intercept_ m)
    /\ (2 <= length (used_points info))%nat.

(** The info fits the trend it is held for. *)
Definition info_matches (p : Params) (active : option trend) (info : trend_info) : Prop :=
  match active with
  | None => info = no_model []
  | Some t =>
      fitted info
      /\ (min_points_for_trend p <= Z.of_nat (length (used_points info)))%Z
      /\ match t with
         | uptrend => 0 < slope info
         | downtrend => slope info < 0
         end
  end.

(** ** Windows *)

(** The window of closes the tracker looks at on bar [i]. *)
Definition window_at (p : Params) (df : DataFrame) (i : nat) : list Q :=
  window_slice (map Close df)
               (Z.to_nat (Z.max 0 (Z.of_nat i - rebalance_bars p * 6))) i.

(** No window of the frame has a trough or a peak. *)
Definition no_extrema (p : Params) (df : DataFrame) : Prop :=
  forall i, (i < length df)%nat ->
            detect_local_extrema (window_at p df i) (order p) (prominence p)
            = Ok ([], []).

(** The closes of the frame never fall, respectively never rise, from one
    bar to a later one (constant closes do both). *)
Definition never_falls (df : DataFrame) : Prop :=
  forall i j, (i <= j < length df)%nat -> close_at df i <= close_at df j.

Definition never_rises (df : DataFrame) : Prop :=
  forall i j, (i <= j < length df)%nat -> close_at df j <= close_at df i.

(** ** Leaderboards *)

(** [a < b] and [a <= b] on metric values. *)
Definition metric_lt (a b : metric) : Prop :=
  match a, b with
  | NegInf, NegInf => False
  | NegInf, Fin _ => True
  | Fin _, NegInf => False
  | Fin x, Fin y => x < y
  end.

Definition metric_le (a b : metric) : Prop :=
  match a, b with
  | NegInf, _ => True
  | Fin _, NegInf => False
  | Fin x, Fin y => x <= y
  end.

Definition median_of (r : Params * metric * Q) : metric := snd (fst r).
Definition equity_of (r : Params * metric * Q) : Q := snd r.
Definition combo_of (r : Params * metric * Q) : Params := fst (fst r).

(** * Properties *)

(** ** Comparisons *)

Lemma Qltb_lt (a b : Q) : Qltb a b = true <-> a < b.
Proof.
  unfold Qltb. rewrite negb_true_iff. split; intro H.
  - apply Qnot_le_lt. intro L. apply Qle_bool_iff in L. congruence.
  - destruct (Qle_bool b a) eqn:E; [|reflexivity].
    apply Qle_bool_iff in E. exfalso. exact (Qlt_not_le _ _ H E).
Qed.

Lemma Qltb_false (a b : Q) : Qltb a b = false <-> b <= a.
Proof.
  unfold Qltb. rewrite negb_false_iff. apply Qle_bool_iff.
Qed.

(** ** Extremum detection on concrete windows *)

Example extrema_zigzag :
  detect_local_extrema (qs [10; 8; 12; 9; 13; 7; 7; 11; 3; 3; 3; 9; 1])%Z 1 0
  = Ok ([1; 3; 5; 9]%nat, [2; 4; 7; 11]%nat).
Proof. vm_compute. reflexivity. Qed.

Example extrema_distance :
  detect_local_extrema (qs [0; 5; 1; 6; 1; 4; 0; 9; 0])%Z 3 0
  = Ok ([2; 6]%nat, [3; 7]%nat).
Proof. vm_compute. reflexivity. Qed.

Example extrema_prominence :
  detect_local_extrema (qs [0; 5; 4; 6; 1; 4; 0; 9; 0])%Z 1 3
  = Ok ([4; 6]%nat, [3; 5; 7]%nat).
Proof. vm_compute. reflexivity. Qed.


(** ** Extremum detection: the plateau scan *)

Lemma plateau_ahead_le (fuel : nat) (x : list Q) (xi : Q) (i_ahead i_max : nat) :
  (i_ahead <= i_max)%nat ->
  (FindPeaks.plateau_ahead fuel x xi i_ahead i_max <= i_max)%nat.
Proof.
  revert i_ahead. induction fuel as [|fuel IH]; intros i_ahead H; simpl; [assumption|].
  destruct (i_ahead <? i_max)%nat eqn:E; simpl; [|assumption].
  destruct (Qeq_bool (FindPeaks.at_ x i_ahead) xi); [|assumption].
  apply IH. apply Nat.ltb_lt in E. lia.
Qed.

Lemma plateau_ahead_ge (fuel : nat) (x : list Q) (xi : Q) (i_ahead i_max : nat) :
  (i_ahead <= FindPeaks.plateau_ahead fuel x xi i_ahead i_max)%nat.
Proof.
  revert i_ahead. induction fuel as [|fuel IH]; intros i_ahead; simpl; [lia|].
  destruct ((i_ahead <? i_max)%nat && Qeq_bool (FindPeaks.at_ x i_ahead) xi); [|lia].
  specialize (IH (S i_ahead)). lia.
Qed.

(** ** The loops of the peak finder are given enough turns

    Each loop below is run with a bound on its number of turns; the bound is
    never the reason a loop stops: more turns give the same result. *)

Lemma plateau_ahead_turns (fuel extra : nat) (x : list Q) (xi : Q) (i_ahead i_max : nat) :
  (i_max <= i_ahead + fuel)%nat ->
  FindPeaks.plateau_ahead (fuel + extra) x xi i_ahead i_max
  = FindPeaks.plateau_ahead fuel x xi i_ahead i_max.
Proof.
  revert i_ahead. induction fuel as [|fuel IH]; intros i_ahead H.
  - destruct extra as [|extra]; simpl; [reflexivity|].
    destruct (i_ahead <? i_max)%nat eqn:E; [|reflexivity].
    apply Nat.ltb_lt in E. lia.
  - simpl. destruct ((i_ahead <? i_max)%nat && Qeq_bool (FindPeaks.at_ x i_ahead) xi);
      [|reflexivity].
    apply IH. lia.
Qed.

Lemma local_maxima_turns (fuel extra : nat) (x : list Q) (i i_max : nat) :
  (i_max <= i + fuel)%nat ->
  FindPeaks.local_maxima_from (fuel + extra) x i i_max
  = FindPeaks.local_maxima_from fuel x i i_max.
Proof.
  revert i. induction fuel as [|fuel IH]; intros i H.
  - destruct extra as [|extra]; cbn [FindPeaks.local_maxima_from Nat.add]; [reflexivity|].
    destruct (i <? i_max)%nat eqn:E; [|reflexivity].
    apply Nat.ltb_lt in E. lia.
  - cbn [FindPeaks.local_maxima_from Nat.add].
    destruct (i <? i_max)%nat eqn:E; [|reflexivity].
    destruct (Qltb (FindPeaks.at_ x (i - 1)) (FindPeaks.at_ x i)); [|apply IH; lia].
    match goal with |- context [Qltb (FindPeaks.at_ x ?ia) _] => set (i_ahead := ia) end.
    assert (i + 1 <= i_ahead)%nat by apply plateau_ahead_ge.
    destruct (Qltb (FindPeaks.at_ x i_ahead) (FindPeaks.at_ x i)); [|apply IH; lia].
    f_equal. apply IH. lia.
Qed.

Lemma local_maxima_1d_turns (extra : nat) (x : list Q) :
  FindPeaks.local_maxima_from (length x + extra) x 1 (length x - 1)
  = FindPeaks.local_maxima_1d x.
Proof. apply local_maxima_turns. lia. Qed.

Lemma flag_later_turns (fuel extra : nat) (peaks : list nat) (pj d : Z) (k : nat)
      (keep : list bool) :
  (length peaks <= k + fuel)%nat ->
  FindPeaks.flag_later (fuel + extra) peaks pj d k keep
  = FindPeaks.flag_later fuel peaks pj d k keep.
Proof.
  revert k keep. induction fuel as [|fuel IH]; intros k keep H.
  - destruct extra as [|extra]; simpl; [reflexivity|].
    destruct (k <? length peaks)%nat eqn:E; [|reflexivity].
    apply Nat.ltb_lt in E. lia.
  - simpl. destruct ((k <? length peaks)%nat && (FindPeaks.peak_at peaks k - pj <? d)%Z);
      [|reflexivity].
    apply IH. lia.
Qed.

Lemma right_min_turns (fuel extra : nat) (x : list Q) (xp : Q) (i : nat) (cur : Q) :
  (length x <= i + fuel)%nat ->
  FindPeaks.right_min (fuel + extra) x xp i cur = FindPeaks.right_min fuel x xp i cur.
Proof.
  revert i cur. induction fuel as [|fuel IH]; intros i cur H.
  - destruct extra as [|extra]; simpl; [reflexivity|].
    destruct (i <? length x)%nat eqn:E; [|reflexivity].
    apply Nat.ltb_lt in E. lia.
  - simpl. destruct ((i <? length x)%nat && Qle_bool (FindPeaks.at_ x i) xp);
      [|reflexivity].
    apply IH. lia.
Qed.

(** ** Extremum detection: short windows *)

Lemma local_maxima_short (x : list Q) :
  (length x < 3)%nat -> FindPeaks.local_maxima_1d x = [].
Proof.
  intro H. destruct x as [|a [|b [|c x]]]; simpl in H; try lia; reflexivity.
Qed.

Lemma find_peaks_short (x : list Q) (distance : Z) (prom : Q) :
  (length x < 3)%nat -> (1 <= distance)%Z ->
  FindPeaks.find_peaks x distance prom = Ok [].
Proof.
  intros Hlen Hd. unfold FindPeaks.find_peaks.
  destruct (distance <? 1)%Z eqn:E; [apply Z.ltb_lt in E; lia|].
  rewrite (local_maxima_short x Hlen). reflexivity.
Qed.

(** C5, as stated, fails: a window of three closes with order 5 is shorter
    than [2 * order + 1 = 11], and its middle close is returned as a peak. *)
Lemma short_window_has_peak :
  ~ (forall (series : list Q) (order : Z) (prominence : Q),
        (Z.of_nat (length series) < 2 * order + 1)%Z ->
        detect_local_extrema series order prominence = Ok ([], [])).
Proof.
  intro H. specialize (H (qs [1; 3; 1]%Z) 5%Z 0).
  assert (L : (Z.of_nat (length (qs [1; 3; 1]%Z)) < 2 * 5 + 1)%Z) by (simpl; lia).
  specialize (H L). vm_compute in H. discriminate H.
Qed.

(** C5, amended: for a window of fewer than three closes, any order of at
    least 1 (the least distance the peak finder accepts) and any prominence,
    [detect_local_extrema] returns no trough and no peak. *)
Theorem detect_local_extrema_short_window
        (series : list Q) (order : Z) (prominence : Q) :
  (length series < 3)%nat -> (1 <= order)%Z ->
  detect_local_extrema series order prominence = Ok ([], []).
Proof.
  intros Hlen Hord. unfold detect_local_extrema.
  rewrite find_peaks_short by assumption. simpl.
  rewrite find_peaks_short; [reflexivity | now rewrite length_map | assumption].
Qed.

(** A window of two closes. *)
Lemma detect_local_extrema_short_window_witness :
  detect_local_extrema (qs [7; 9]%Z) 5 (1 # 2) = Ok ([], []).
Proof.
  apply (detect_local_extrema_short_window (qs [7; 9]%Z) 5 (1 # 2)).
  - simpl. lia.
  - lia.
Defined.

(** With an order below 1 the peak finder refuses the distance. *)
Lemma detect_local_extrema_order_zero (series : list Q) (prominence : Q) :
  detect_local_extrema series 0 prominence = Raise ValueError.
Proof. reflexivity. Qed.

(** ** The touch predicate and the account logic of one bar *)

Lemma is_touching_line_iff (price : Q) (line_price : option Q) (tolerance : Q) :
  is_touching_line price line_price tolerance = true
  <-> exists l, line_price = Some l /\ Qabs (price - l) <= tolerance * l.
Proof.
  unfold is_touching_line. destruct line_price as [l|]; split.
  - intro H. exists l. split; [reflexivity|]. now apply Qle_bool_iff.
  - intros [l' [E H]]. inversion E; subst. now apply Qle_bool_iff.
  - discriminate.
  - intros [l' [E _]]. discriminate.
Qed.

Lemma trendline_price_no_model (info : trend_info) (d : Timestamp) :
  model info = None -> trendline_price_at info d = None.
Proof. unfold trendline_price_at. now intros ->. Qed.

(** The five ways a bar can change the account. *)
Lemma trade_logic_cases (tol : Q) (active : option trend) (tp : option Q)
      (d : Timestamp) (c : Q) (a : account) :
  let a' := trade_logic tol active tp d c a in
  a' = a
  \/ (position a = 0%Z /\ is_trend active uptrend = true
      /\ is_touching_line c tp tol = true /\ a' = opened 1 buy d c a)
  \/ (position a = 0%Z /\ is_trend active downtrend = true
      /\ is_touching_line c tp tol = true /\ a' = opened (-1) sell_short d c a)
  \/ (position a = 1%Z /\ (exists l, tp = Some l /\ c < l)
      /\ a' = closed exit_long (long_pnl c a) d c a)
  \/ (position a = (-1)%Z /\ (exists l, tp = Some l /\ l < c)
      /\ a' = closed exit_short (short_pnl c a) d c a).
Proof.
  unfold trade_logic.
  destruct (position a =? 0)%Z eqn:E0.
  { apply Z.eqb_eq in E0.
    destruct (is_trend active uptrend) eqn:Eu; simpl.
    - destruct (is_touching_line c tp tol) eqn:Et; simpl.
      + right; left. auto.
      + destruct (is_trend active downtrend); simpl; auto.
    - destruct (is_trend active downtrend) eqn:Ed; simpl; auto.
      destruct (is_touching_line c tp tol) eqn:Et; simpl; auto.
      right; right; left. auto. }
  destruct (position a =? 1)%Z eqn:E1.
  { apply Z.eqb_eq in E1. destruct tp as [l|]; auto.
    destruct (Qltb c l) eqn:El; auto.
    apply Qltb_lt in El. right; right; right; left.
    split; [assumption|]. split; [exists l; auto | reflexivity]. }
  destruct (position a =? -1)%Z eqn:E2; auto.
  apply Z.eqb_eq in E2. destruct tp as [l|]; auto.
  destruct (Qgtb c l) eqn:El; auto.
  apply Qltb_lt in El. right; right; right; right.
  split; [assumption|]. split; [exists l; auto | reflexivity].
Qed.

Lemma trade_logic_no_line (tol : Q) (active : option trend) (d : Timestamp)
      (c : Q) (a : account) :
  trade_logic tol active None d c a = a.
Proof.
  unfold trade_logic. simpl. rewrite !andb_false_r.
  destruct (position a =? 0)%Z, (position a =? 1)%Z, (position a =? -1)%Z; reflexivity.
Qed.

(** ** One bar of the simulator *)

Section SimulatorFacts.

Variable rng : Type.
Variable fit : rng -> nat -> list Q -> list Q -> rng * result RANSACModel.

Abbreviation step := (step rng fit).
Abbreviation run_bars := (run_bars rng fit).
Abbreviation candidates := (candidates rng fit).

(** A bar that appended exactly one ledger row. *)
Ltac one_row :=
  eexists [_]; split; [reflexivity|]; simpl; split; [lia|];
  split; [|split]; intros t [<-|[]]; simpl; auto;
  try discriminate; intros _; split; (assumption || lia || discriminate).

Lemma bind_ok {A B : Type} (m : result A) (k : A -> result B) (b : B) :
  bind m k = Ok b -> exists a, m = Ok a /\ k a = Ok b.
Proof. destruct m as [a|e]; simpl; [eauto | discriminate]. Qed.

(** What a successful turn of the loop computed. *)
Lemma step_inv (p : Params) (df : DataFrame) (i : nat) (s s' : sim rng) :
  step p df i s = Ok s' ->
  exists sup res g',
    candidates p df i (gen rng s) = Ok (sup, res, g')
    /\ trk rng s' = update_trend p (date_at df i) sup res (trk rng s)
    /\ gen rng s' = g'
    /\ acct rng s' =
       trade_bar (touch_tolerance p) (active_trend (trk rng s'))
                 (trendline_price_at (active_trend_info (trk rng s')) (date_at df i))
                 (date_at df i) (close_at df i) (acct rng s).
Proof.
  unfold step. intro H.
  apply bind_ok in H. destruct H as [[[sup res] g'] [Hc H]].
  inversion H; subst; clear H. exists sup, res, g'. simpl. auto.
Qed.

Lemma step_of_candidates (p : Params) (df : DataFrame) (i : nat) (s : sim rng)
      (sup res : trend_info) (g' : rng) :
  candidates p df i (gen rng s) = Ok (sup, res, g') ->
  exists s', step p df i s = Ok s'
             /\ trk rng s' = update_trend p (date_at df i) sup res (trk rng s).
Proof.
  intro H. unfold step. rewrite H. simpl. eexists. split; reflexivity.
Qed.

Lemma run_bars_succ (p : Params) (df : DataFrame) (g : rng) (k : nat) (s' : sim rng) :
  run_bars p df g (S k) = Ok s' ->
  exists s, run_bars p df g k = Ok s /\ step p df k s = Ok s'.
Proof. simpl. apply bind_ok. Qed.

(** C8: [is_touching_line(p, L, t)] is true exactly when the line price [L]
    is defined and [|p - L| <= t * L]; and at a bar whose active trend info
    has no model the predicate is false and the bar makes no entry (position
    and ledger are left as they were). *)
Theorem touch_predicate_correct :
  (forall (price : Q) (line_price : option Q) (tolerance : Q),
      is_touching_line price line_price tolerance = true
      <-> exists l, line_price = Some l /\ Qabs (price - l) <= tolerance * l)
  /\ (forall (p : Params) (df : DataFrame) (i : nat) (s s' : sim rng),
         step p df i s = Ok s' ->
         model (active_trend_info (trk rng s')) = None ->
         is_touching_line (close_at df i)
           (trendline_price_at (active_trend_info (trk rng s')) (date_at df i))
           (touch_tolerance p) = false
         /\ position (acct rng s') = position (acct rng s)
         /\ trades (acct rng s') = trades (acct rng s)).
Proof.
  split; [exact is_touching_line_iff|].
  intros p df i s s' Hstep Hmodel.
  destruct (step_inv _ _ _ _ _ Hstep) as [sup [res [g' [_ [_ [_ Ha]]]]]].
  rewrite (trendline_price_no_model _ _ Hmodel) in *.
  split; [reflexivity|].
  rewrite Ha. unfold trade_bar. rewrite trade_logic_no_line. simpl. auto.
Qed.

(** C10: a bar appends at most one row to the trade ledger; a row that opens
    a position is appended only from a flat position and leaves the position
    open after the bar, and a row that closes a position is appended only
    from an open position and leaves the position flat after the bar. *)
Theorem one_trade_action_per_bar
        (p : Params) (df : DataFrame) (i : nat) (s s' : sim rng) :
  step p df i s = Ok s' ->
  exists new : list trade,
    trades (acct rng s') = trades (acct rng s) ++ new
    /\ (length new <= 1)%nat
    /\ (forall t, In t new -> is_entry t = true \/ is_exit t = true)
    /\ (forall t, In t new -> is_entry t = true ->
                  position (acct rng s) = 0%Z /\ position (acct rng s') <> 0%Z)
    /\ (forall t, In t new -> is_exit t = true ->
                  position (acct rng s) <> 0%Z /\ position (acct rng s') = 0%Z).
Proof.
  intro Hstep.
  destruct (step_inv _ _ _ _ _ Hstep) as [sup [res [g' [_ [_ [_ Ha]]]]]].
  rewrite Ha. unfold trade_bar. simpl.
  set (a := acct rng s).
  destruct (trade_logic_cases (touch_tolerance p) (active_trend (trk rng s'))
              (trendline_price_at (active_trend_info (trk rng s')) (date_at df i))
              (date_at df i) (close_at df i) a)
    as [E | [[H0 [_ [_ E]]] | [[H0 [_ [_ E]]] | [[H0 [_ E]] | [H0 [_ E]]]]]];
    rewrite E; simpl.
  - exists []. rewrite app_nil_r. simpl.
    split; [reflexivity|]. split; [lia|]. split; [|split]; intros t [].
  - one_row.
  - one_row.
  - one_row.
  - one_row.
Qed.

(** ** The trend tracker *)

Lemma initial_tracker_ok : tracker_ok initial_tracker.
Proof. split; reflexivity. Qed.

Lemma update_trend_ok (p : Params) (d : Timestamp) (sup res : trend_info) (t : tracker) :
  tracker_ok (update_trend p d sup res t).
Proof.
  unfold update_trend, tracker_ok.
  destruct (uptrend_qualifies p sup), (downtrend_qualifies p res); simpl;
    try (split; [reflexivity | discriminate]);
    destruct (last_trend t); simpl; split; try reflexivity; try discriminate.
Qed.

Lemma run_bars_tracker_ok (p : Params) (df : DataFrame) (g : rng) (k : nat) (s : sim rng) :
  run_bars p df g k = Ok s -> tracker_ok (trk rng s).
Proof.
  destruct k as [|k]; intro H.
  - inversion H; subst. exact initial_tracker_ok.
  - apply run_bars_succ in H. destruct H as [s0 [_ Hs]].
    destruct (step_inv _ _ _ _ _ Hs) as [sup [res [g' [_ [Ht _]]]]].
    rewrite Ht. apply update_trend_ok.
Qed.

Lemma update_trend_retains (p : Params) (d : Timestamp) (sup res : trend_info) (t : tracker) :
  tracker_ok t ->
  uptrend_qualifies p sup = downtrend_qualifies p res ->
  active_trend (update_trend p d sup res t) = active_trend t
  /\ active_trend_info (update_trend p d sup res t) = active_trend_info t.
Proof.
  intros [Hlast Hinfo] Heq. unfold update_trend. rewrite Heq.
  destruct (downtrend_qualifies p res); simpl; rewrite Hlast;
    destruct (active_trend t) eqn:E; simpl; split; try reflexivity;
    symmetry; apply Hinfo; reflexivity.
Qed.

Lemma update_trend_keeps_some (p : Params) (d : Timestamp) (sup res : trend_info) (t : tracker) :
  last_trend t <> None -> active_trend (update_trend p d sup res t) <> None.
Proof.
  intro H. unfold update_trend.
  destruct (uptrend_qualifies p sup), (downtrend_qualifies p res); simpl;
    try discriminate; destruct (last_trend t); simpl; congruence.
Qed.

(** C3: at every bar of the loop, if neither candidate qualifies or both
    do, the bar completes with the active trend and the active trend info it
    started with, that is, those left by the previous bar (the initial ones
    at bar 0). *)
Theorem hysteresis_retention
        (p : Params) (df : DataFrame) (g : rng) (k : nat) (s : sim rng)
        (sup res : trend_info) (g' : rng) :
  run_bars p df g k = Ok s ->
  candidates p df k (gen rng s) = Ok (sup, res, g') ->
  uptrend_qualifies p sup = downtrend_qualifies p res ->
  exists s', run_bars p df g (S k) = Ok s'
             /\ active_trend (trk rng s') = active_trend (trk rng s)
             /\ active_trend_info (trk rng s') = active_trend_info (trk rng s).
Proof.
  intros Hrun Hcand Heq.
  destruct (step_of_candidates _ _ _ _ _ _ _ Hcand) as [s' [Hstep Ht]].
  exists s'. split.
  - simpl. rewrite Hrun. exact Hstep.
  - rewrite Ht. apply update_trend_retains; [|assumption].
    exact (run_bars_tracker_ok _ _ _ _ _ Hrun).
Qed.

Lemma trend_persists (p : Params) (df : DataFrame) (g : rng) (k m : nat) (s s' : sim rng) :
  run_bars p df g k = Ok s ->
  active_trend (trk rng s) <> None ->
  run_bars p df g (k + m) = Ok s' ->
  active_trend (trk rng s') <> None.
Proof.
  intros Hk Hact. revert s'. induction m as [|m IH]; intros s' Hm.
  - rewrite Nat.add_0_r in Hm. congruence.
  - rewrite Nat.add_succ_r in Hm. apply run_bars_succ in Hm.
    destruct Hm as [s1 [H1 Hstep]].
    specialize (IH s1 H1).
    destruct (step_inv _ _ _ _ _ Hstep) as [sup [res [g' [_ [Ht _]]]]].
    rewrite Ht. apply update_trend_keeps_some.
    destruct (run_bars_tracker_ok _ _ _ _ _ H1) as [Hl _]. congruence.
Qed.

(** C4: for bars [i < j], if the active trend after bar [i] is an uptrend
    or a downtrend, so is the active trend after bar [j]: the tracker never
    goes back to no trend. *)
Theorem trend_never_returns_to_flat
        (p : Params) (df : DataFrame) (g : rng) (i j : nat) (si sj : sim rng) :
  (i < j)%nat ->
  run_bars p df g (S i) = Ok si ->
  run_bars p df g (S j) = Ok sj ->
  active_trend (trk rng si) = Some uptrend \/ active_trend (trk rng si) = Some downtrend ->
  active_trend (trk rng sj) = Some uptrend \/ active_trend (trk rng sj) = Some downtrend.
Proof.
  intros Hij Hi Hj Hact.
  assert (Hne : active_trend (trk rng si) <> None) by (destruct Hact; congruence).
  replace (S j) with (S i + (j - i))%nat in Hj by lia.
  pose proof (trend_persists _ _ _ _ _ _ _ Hi Hne Hj) as H.
  destruct (active_trend (trk rng sj)) as [[|]|]; auto. congruence.
Qed.

(** ** The account: what a close returns *)

Lemma long_close_value (c e n : Q) :
  0 < e -> n + (c - e) / e * n == n * (c / e).
Proof. intro He. field. intro H. rewrite H in He. exact (Qlt_irrefl 0 He). Qed.

Lemma short_close_value (c e n : Q) :
  0 < e -> n + (e - c) / e * n == n * ((2 * e - c) / e).
Proof. intro He. field. intro H. rewrite H in He. exact (Qlt_irrefl 0 He). Qed.

Lemma Qdiv_pos (a b : Q) : 0 < a -> 0 < b -> 0 < a / b.
Proof. intros Ha Hb. apply Qlt_shift_div_l; [assumption|]. lra. Qed.

Lemma Qdiv_nonneg (a b : Q) : 0 <= a -> 0 < b -> 0 <= a / b.
Proof. intros Ha Hb. apply Qle_shift_div_l; [assumption|]. lra. Qed.

Lemma Qmult_pos (a b : Q) : 0 < a -> 0 < b -> 0 < a * b.
Proof. intros Ha Hb. apply Qmult_lt_0_compat; assumption. Qed.

Lemma Qmult_nonneg (a b : Q) : 0 <= a -> 0 <= b -> 0 <= a * b.
Proof. intros Ha Hb. apply Qmult_le_0_compat; assumption. Qed.

Lemma initial_account_shape : shape_ok initial_account.
Proof.
  unfold shape_ok; simpl. split; [auto|]. split; [auto | intro H; now elim H].
Qed.

Lemma trade_logic_shape (tol : Q) (active : option trend) (tp : option Q)
      (d : Timestamp) (c : Q) (a : account) :
  shape_ok a -> shape_ok (trade_logic tol active tp d c a).
Proof.
  intro Ha.
  destruct (trade_logic_cases tol active tp d c a)
    as [E | [[_ [_ [_ E]]] | [[_ [_ [_ E]]] | [[_ [_ E]] | [_ [_ E]]]]]];
    rewrite E; try assumption; unfold shape_ok; simpl;
    (split; [auto|]); (split; [try discriminate; auto | auto]);
    intro H; now elim H.
Qed.

Lemma append_equity_shape (a : account) (e : Q) :
  shape_ok a -> shape_ok (append_equity a e).
Proof. exact (fun H => H). Qed.

Lemma trade_logic_funded (tol : Q) (active : option trend) (tp : option Q)
      (d : Timestamp) (c : Q) (a : account) :
  shape_ok a -> funded a -> 0 < c ->
  (position a = (-1)%Z -> position (trade_logic tol active tp d c a) = 0%Z ->
   c < 2 * entry_price a) ->
  funded (trade_logic tol active tp d c a).
Proof.
  intros [_ [Hflat Hopen]] [Hfund Hentry] Hc Hcov.
  remember (trade_logic tol active tp d c a) as a' eqn:Ea'.
  destruct (trade_logic_cases tol active tp d c a)
    as [E | [[H0 [_ [_ E]]] | [[H0 [_ [_ E]]] | [[H1 [_ E]] | [H1 [_ E]]]]]];
    rewrite <- Ea' in E; subst a'; rewrite E in *; clear E.
  - split; assumption.
  - destruct (Hflat H0) as [Hs _]. rewrite Hs in Hfund.
    unfold funded; simpl. split; [lra | intros _; assumption].
  - destruct (Hflat H0) as [Hs _]. rewrite Hs in Hfund.
    unfold funded; simpl. split; [lra | intros _; assumption].
  - assert (Hp : position a <> 0%Z) by lia.
    specialize (Hentry Hp). rewrite (Hopen Hp) in Hfund.
    unfold funded, long_pnl; simpl. split; [|intro H; now elim H].
    rewrite Qplus_0_r. rewrite long_close_value by assumption.
    apply Qmult_pos; [lra | now apply Qdiv_pos].
  - assert (Hp : position a <> 0%Z) by lia.
    specialize (Hentry Hp). rewrite (Hopen Hp) in Hfund.
    specialize (Hcov H1 eq_refl).
    unfold funded, short_pnl; simpl. split; [|intro H; now elim H].
    rewrite Qplus_0_r. rewrite short_close_value by assumption.
    apply Qmult_pos; [lra | apply Qdiv_pos; [lra | assumption]].
Qed.

Lemma trade_logic_solvent (tol : Q) (active : option trend) (tp : option Q)
      (d : Timestamp) (c : Q) (a : account) :
  solvent a -> 0 < c ->
  (position a = (-1)%Z -> position (trade_logic tol active tp d c a) = 0%Z ->
   c <= 2 * entry_price a) ->
  solvent (trade_logic tol active tp d c a).
Proof.
  intros [Hcash [Hsize Hentry]] Hc Hcov.
  remember (trade_logic tol active tp d c a) as a' eqn:Ea'.
  destruct (trade_logic_cases tol active tp d c a)
    as [E | [[H0 [_ [_ E]]] | [[H0 [_ [_ E]]] | [[H1 [_ E]] | [H1 [_ E]]]]]];
    rewrite <- Ea' in E; subst a'; rewrite E in *; clear E.
  - repeat split; assumption.
  - unfold solvent; simpl. split; [lra|]. split; [assumption | intros _; assumption].
  - unfold solvent; simpl. split; [lra|]. split; [assumption | intros _; assumption].
  - assert (Hp : position a <> 0%Z) by lia. specialize (Hentry Hp).
    unfold solvent, long_pnl; simpl. split; [|split; [lra | intro H; now elim H]].
    rewrite long_close_value by assumption.
    apply Qmult_nonneg; [assumption | apply Qdiv_nonneg; [lra | assumption]].
  - assert (Hp : position a <> 0%Z) by lia. specialize (Hentry Hp).
    specialize (Hcov H1 eq_refl).
    unfold solvent, short_pnl; simpl. split; [|split; [lra | intro H; now elim H]].
    rewrite short_close_value by assumption.
    apply Qmult_nonneg; [assumption | apply Qdiv_nonneg; [lra | assumption]].
Qed.

Lemma mark_to_market_nonneg (a : account) (c : Q) :
  solvent a -> 0 < c -> 0 <= mark_to_market a c.
Proof.
  intros [Hcash [Hsize Hentry]] Hc. unfold mark_to_market.
  destruct (position a =? 0)%Z eqn:E0; [assumption|].
  apply Z.eqb_neq in E0. specialize (Hentry E0).
  destruct (position a =? 1)%Z;
    (apply Qmult_nonneg; [assumption | apply Qdiv_nonneg; [lra | assumption]]).
Qed.

(** ** The account along a run *)

Lemma close_at_pos (df : DataFrame) (k : nat) :
  positive_closes df -> (k < length df)%nat -> 0 < close_at df k.
Proof.
  intros Hpos Hk. unfold close_at, iloc.
  rewrite (nth_indep _ 0 (Close (mkBar epoch 0 0 0 0 0))) by (now rewrite length_map).
  rewrite map_nth. unfold positive_closes in Hpos. rewrite Forall_forall in Hpos.
  apply Hpos. now apply nth_In.
Qed.

Lemma covers_within_pred (R : Q -> Q -> Prop) (p : Params) (df : DataFrame)
      (g : rng) (k : nat) :
  covers_within rng fit R p df g (S k) -> covers_within rng fit R p df g k.
Proof.
  intros H j s s' Hj. apply H. lia.
Qed.

Lemma run_bars_shape (p : Params) (df : DataFrame) (g : rng) (k : nat) (s : sim rng) :
  run_bars p df g k = Ok s -> shape_ok (acct rng s).
Proof.
  revert s. induction k as [|k IH]; intros s H.
  - inversion H; subst. exact initial_account_shape.
  - apply run_bars_succ in H. destruct H as [s0 [H0 Hs]].
    destruct (step_inv _ _ _ _ _ Hs) as [sup [res [g' [_ [_ [_ Ha]]]]]].
    rewrite Ha. unfold trade_bar. apply append_equity_shape, trade_logic_shape.
    exact (IH _ H0).
Qed.

Lemma run_bars_funded (p : Params) (df : DataFrame) (g : rng) (k : nat) (s : sim rng) :
  (k <= length df)%nat -> positive_closes df ->
  covers_within rng fit Qlt p df g k ->
  run_bars p df g k = Ok s -> funded (acct rng s).
Proof.
  intros Hk Hpos. revert s Hk. induction k as [|k IH]; intros s Hk Hcov H.
  - inversion H; subst. unfold funded; simpl. split; [lra | intro E; now elim E].
  - pose proof H as Hrun.
    apply run_bars_succ in H. destruct H as [s0 [H0 Hs]].
    destruct (step_inv _ _ _ _ _ Hs) as [sup [res [g' [_ [_ [_ Ha]]]]]].
    assert (F0 : funded (acct rng s0)).
    { apply IH; [lia | now apply covers_within_pred | assumption]. }
    assert (Hc : position (acct rng s0) = (-1)%Z -> position (acct rng s) = 0%Z ->
                 close_at df k < 2 * entry_price (acct rng s0)).
    { intros P0 P1. exact (Hcov k s0 s (Nat.lt_succ_diag_r k) H0 Hrun P0 P1). }
    rewrite Ha in Hc |- *. unfold trade_bar in *.
    apply (trade_logic_funded _ _ _ _ _ _ (run_bars_shape _ _ _ _ _ H0) F0).
    + apply close_at_pos; [assumption | lia].
    + exact Hc.
Qed.

Lemma run_bars_solvent (p : Params) (df : DataFrame) (g : rng) (k : nat) (s : sim rng) :
  (k <= length df)%nat -> positive_closes df ->
  covers_within rng fit Qle p df g k ->
  run_bars p df g k = Ok s ->
  solvent (acct rng s) /\ Forall (fun e => 0 <= e) (equity (acct rng s)).
Proof.
  intros Hk Hpos. revert s Hk. induction k as [|k IH]; intros s Hk Hcov H.
  - inversion H; subst. unfold solvent; simpl.
    split; [|constructor]. split; [lra|]. split; [lra | intro E; now elim E].
  - pose proof H as Hrun.
    apply run_bars_succ in H. destruct H as [s0 [H0 Hs]].
    destruct (step_inv _ _ _ _ _ Hs) as [sup [res [g' [_ [_ [_ Ha]]]]]].
    destruct (IH s0) as [S0 E0]; [lia | now apply covers_within_pred | assumption |].
    assert (Hc : position (acct rng s0) = (-1)%Z -> position (acct rng s) = 0%Z ->
                 close_at df k <= 2 * entry_price (acct rng s0)).
    { intros P0 P1. exact (Hcov k s0 s (Nat.lt_succ_diag_r k) H0 Hrun P0 P1). }
    assert (Hprice : 0 < close_at df k) by (apply close_at_pos; [assumption | lia]).
    rewrite Ha in Hc |- *. unfold trade_bar in *.
    pose proof (trade_logic_solvent _ _ _ _ _ _ S0 Hprice Hc) as S1.
    split; [exact S1|]. simpl. apply Forall_app. split.
    + destruct (trade_logic_cases (touch_tolerance p) (active_trend (trk rng s))
                  (trendline_price_at (active_trend_info (trk rng s)) (date_at df k))
                  (date_at df k) (close_at df k) (acct rng s0))
        as [E | [[_ [_ [_ E]]] | [[_ [_ [_ E]]] | [[_ [_ E]] | [_ [_ E]]]]]];
        rewrite E; exact E0.
    + constructor; [|constructor]. now apply mark_to_market_nonneg.
Qed.

(** C7, amended: throughout every run the position is flat, long or short;
    while it is flat the notional is zero, so the notional is strictly
    positive only while a position is open; a bar that starts with an open
    position either closes it or leaves it as it is, so an entry executes only
    at a bar where the position is flat; and, with strictly positive closes
    and every short closed strictly below twice its entry price, the notional
    is strictly positive whenever the position is long or short. *)
Theorem at_most_one_position
        (p : Params) (df : DataFrame) (g : rng) (k : nat) (s : sim rng) :
  run_bars p df g k = Ok s ->
  (position (acct rng s) = 0 \/ position (acct rng s) = 1
   \/ position (acct rng s) = -1)%Z
  /\ (position (acct rng s) = 0%Z -> position_size (acct rng s) = 0)
  /\ (forall s', step p df k s = Ok s' -> position (acct rng s) <> 0%Z ->
                 (position (acct rng s') = 0%Z
                  /\ Forall (fun t => is_exit t = true)
                            (skipn (length (trades (acct rng s))) (trades (acct rng s'))))
                 \/ (position (acct rng s') = position (acct rng s)
                     /\ entry_price (acct rng s') = entry_price (acct rng s)
                     /\ position_size (acct rng s') = position_size (acct rng s)
                     /\ trades (acct rng s') = trades (acct rng s)))
  /\ ((k <= length df)%nat -> positive_closes df ->
      covers_within rng fit Qlt p df g k ->
      position (acct rng s) <> 0%Z -> 0 < position_size (acct rng s)).
Proof.
  intro Hrun. pose proof (run_bars_shape _ _ _ _ _ Hrun) as [Hpos [Hflat Hopen]].
  split; [exact Hpos|]. split; [intro H; exact (proj1 (Hflat H))|]. split.
  - intros s' Hstep Hne.
    destruct (step_inv _ _ _ _ _ Hstep) as [sup [res [g' [_ [_ [_ Ha]]]]]].
    rewrite Ha. unfold trade_bar. simpl.
    destruct (trade_logic_cases (touch_tolerance p) (active_trend (trk rng s'))
                (trendline_price_at (active_trend_info (trk rng s')) (date_at df k))
                (date_at df k) (close_at df k) (acct rng s))
      as [E | [[H0 _] | [[H0 _] | [[_ [_ E]] | [_ [_ E]]]]]];
      try (now elim Hne); rewrite E; simpl.
    + right. auto.
    + left. split; [reflexivity|].
      rewrite skipn_app, skipn_all, Nat.sub_diag. simpl. constructor; auto.
    + left. split; [reflexivity|].
      rewrite skipn_app, skipn_all, Nat.sub_diag. simpl. constructor; auto.
  - intros Hk Hcl Hcov Hne.
    destruct (run_bars_funded _ _ _ _ _ Hk Hcl Hcov Hrun) as [Hfund _].
    rewrite (Hopen Hne) in Hfund. lra.
Qed.

(** C1, amended: with strictly positive closes and all-in sizing, every
    value of the equity series returned by [backtest_trendline_strategy] is
    non-negative, provided every short position is closed at a price that is
    at most twice its entry price. *)
Theorem equity_non_negative
        (p : Params) (df : DataFrame) (g : rng) (out : backtest_out rng) :
  positive_closes df ->
  covers_within rng fit Qle p df g (length df) ->
  backtest_trendline_strategy rng fit g df p = Ok out ->
  Forall (fun e => 0 <= e) (out_equity rng out).
Proof.
  intros Hpos Hcov H. unfold backtest_trendline_strategy in H.
  apply bind_ok in H. destruct H as [s [Hrun H]].
  destruct (run_bars_solvent _ _ _ _ _ (Nat.le_refl _) Hpos Hcov Hrun) as [_ Heq].
  destruct (trades (acct rng s)); [discriminate|].
  inversion H; subst; simpl. exact Heq.
Qed.

(** ** Causality *)

Lemma local_maxima_from_bound (fuel : nat) (x : list Q) (i i_max : nat) :
  Forall (fun m => (m < i_max)%nat) (FindPeaks.local_maxima_from fuel x i i_max).
Proof.
  revert i. induction fuel as [|fuel IH]; intro i;
    cbn [FindPeaks.local_maxima_from]; [constructor|].
  destruct (i <? i_max)%nat eqn:E; [|constructor]. apply Nat.ltb_lt in E.
  destruct (Qltb (FindPeaks.at_ x (i - 1)) (FindPeaks.at_ x i)); [|apply IH].
  match goal with |- context [Qltb (FindPeaks.at_ x ?ia) _] => set (i_ahead := ia) end.
  destruct (Qltb (FindPeaks.at_ x i_ahead) (FindPeaks.at_ x i)); [|apply IH].
  constructor; [|apply IH].
  assert (i_ahead <= i_max)%nat by (apply plateau_ahead_le; lia).
  assert (i + 1 <= i_ahead)%nat by apply plateau_ahead_ge.
  apply Nat.Div0.div_lt_upper_bound. lia.
Qed.

Lemma mask_Forall {A : Type} (P : A -> Prop) (l : list A) (keep : list bool) :
  Forall P l -> Forall P (FindPeaks.mask l keep).
Proof.
  intro H. revert keep. induction H as [|a l Ha Hl IH]; intros [|b keep]; simpl;
    try constructor.
  destruct b; [constructor; [assumption | apply IH] | apply IH].
Qed.

Lemma filter_Forall {A : Type} (P : A -> Prop) (f : A -> bool) (l : list A) :
  Forall P l -> Forall P (filter f l).
Proof.
  intro H. induction H as [|a l Ha Hl IH]; simpl; [constructor|].
  destruct (f a); [constructor; assumption | assumption].
Qed.

(** Every index the peak finder returns lies inside the window. *)
Lemma find_peaks_bound (x : list Q) (distance : Z) (prom : Q) (l : list nat) :
  FindPeaks.find_peaks x distance prom = Ok l ->
  Forall (fun m => (m < length x)%nat) l.
Proof.
  unfold FindPeaks.find_peaks. destruct (distance <? 1)%Z; [discriminate|].
  intro H. inversion H; subst; clear H.
  apply filter_Forall, mask_Forall.
  eapply Forall_impl; [|apply local_maxima_from_bound]. simpl. intros; lia.
Qed.

Lemma detect_local_extrema_bound (series : list Q) (order : Z) (prom : Q)
      (troughs peaks : list nat) :
  detect_local_extrema series order prom = Ok (troughs, peaks) ->
  Forall (fun m => (m < length series)%nat) troughs
  /\ Forall (fun m => (m < length series)%nat) peaks.
Proof.
  unfold detect_local_extrema. intro H.
  apply bind_ok in H. destruct H as [pk [Hp H]].
  apply bind_ok in H. destruct H as [tr [Ht H]].
  inversion H; subst; clear H.
  apply find_peaks_bound in Hp. apply find_peaks_bound in Ht.
  rewrite length_map in Ht. auto.
Qed.

Lemma firstn_nth_agree {A : Type} (k : nat) (l1 l2 : list A) (d : A) (j : nat) :
  firstn (S k) l1 = firstn (S k) l2 -> (j <= k)%nat -> nth j l1 d = nth j l2 d.
Proof.
  intros H Hj.
  assert (E1 : nth j (firstn (S k) l1) d = nth j l1 d).
  { rewrite nth_firstn. destruct (j <? S k)%nat eqn:E; [reflexivity|].
    apply Nat.ltb_ge in E. lia. }
  assert (E2 : nth j (firstn (S k) l2) d = nth j l2 d).
  { rewrite nth_firstn. destruct (j <? S k)%nat eqn:E; [reflexivity|].
    apply Nat.ltb_ge in E. lia. }
  rewrite <- E1, <- E2, H. reflexivity.
Qed.

Lemma window_slice_prefix (l1 l2 : list Q) (start k : nat) :
  firstn (S k) l1 = firstn (S k) l2 ->
  window_slice l1 start k = window_slice l2 start k.
Proof.
  intro H. unfold window_slice.
  destruct (Nat.le_gt_cases start (k + 1)) as [Hle|Hgt].
  - rewrite !firstn_skipn_comm.
    replace (start + (k + 1 - start))%nat with (S k) by lia.
    now rewrite H.
  - replace (k + 1 - start)%nat with 0%nat by lia. reflexivity.
Qed.

Lemma window_slice_length (l : list Q) (start k : nat) :
  (length (window_slice l start k) <= k + 1 - start)%nat.
Proof. unfold window_slice. rewrite length_firstn. lia. Qed.

Lemma candidate_info_prefix (p : Params) (g : rng) (k : nat)
      (dates1 dates2 : list Timestamp) (prices1 prices2 : list Q) (idx : list nat) :
  firstn (S k) dates1 = firstn (S k) dates2 ->
  firstn (S k) prices1 = firstn (S k) prices2 ->
  Forall (fun j => (j <= k)%nat) idx ->
  candidate_info rng fit p g dates1 prices1 idx
  = candidate_info rng fit p g dates2 prices2 idx.
Proof.
  intros Hd Hp Hidx. unfold candidate_info, trendline_from_extrema.
  destruct (len_ge idx (min_points_for_trend p)); [|reflexivity].
  assert (Ex : map (fun i => time_x (iloc epoch dates1 i)) idx
               = map (fun i => time_x (iloc epoch dates2 i)) idx).
  { apply map_ext_in. intros j Hj. rewrite Forall_forall in Hidx.
    unfold iloc. now rewrite (firstn_nth_agree k dates1 dates2 epoch j Hd (Hidx j Hj)). }
  assert (Ey : map (iloc 0 prices1) idx = map (iloc 0 prices2) idx).
  { apply map_ext_in. intros j Hj. rewrite Forall_forall in Hidx.
    unfold iloc. exact (firstn_nth_agree k prices1 prices2 0 j Hp (Hidx j Hj)). }
  rewrite Ex, Ey.
  destruct idx as [|i0 idx']; [reflexivity|].
  unfold iloc at 1 3.
  rewrite (firstn_nth_agree k prices1 prices2 0 i0 Hp (Forall_inv Hidx)).
  reflexivity.
Qed.

Lemma candidates_prefix (p : Params) (df1 df2 : DataFrame) (k : nat) (g : rng) :
  firstn (S k) df1 = firstn (S k) df2 ->
  candidates p df1 k g = candidates p df2 k g.
Proof.
  intro H. unfold candidates.
  assert (Hp : firstn (S k) (map Close df1) = firstn (S k) (map Close df2))
    by (now rewrite !firstn_map, H).
  assert (Hd : firstn (S k) (map date df1) = firstn (S k) (map date df2))
    by (now rewrite !firstn_map, H).
  set (start_idx := Z.to_nat (Z.max 0 (Z.of_nat k - rebalance_bars p * 6))).
  rewrite (window_slice_prefix _ _ start_idx k Hp).
  destruct (detect_local_extrema (window_slice (map Close df2) start_idx k)
              (order p) (prominence p)) as [[troughs peaks]|e] eqn:E; [|reflexivity].
  simpl. apply detect_local_extrema_bound in E. destruct E as [Ht Hk].
  pose proof (window_slice_length (map Close df2) start_idx k) as Hlen.
  assert (Hin : forall l, Forall (fun m => (m < length (window_slice (map Close df2) start_idx k))%nat) l ->
                          Forall (fun j => (j <= k)%nat) (map (Nat.add start_idx) l)).
  { intros l Hl. rewrite Forall_map. eapply Forall_impl; [|exact Hl].
    simpl. intros; lia. }
  rewrite (candidate_info_prefix p g k _ _ _ _ _ Hd Hp (Hin _ Ht)).
  destruct (candidate_info rng fit p g (map date df2) (map Close df2)
              (map (Nat.add start_idx) troughs)) as [[sup g1]|e]; [|reflexivity].
  simpl.
  rewrite (candidate_info_prefix p g1 k _ _ _ _ _ Hd Hp (Hin _ Hk)).
  reflexivity.
Qed.

Lemma step_prefix (p : Params) (df1 df2 : DataFrame) (k : nat) (s : sim rng) :
  firstn (S k) df1 = firstn (S k) df2 ->
  step p df1 k s = step p df2 k s.
Proof.
  intro H. unfold step.
  rewrite (candidates_prefix p df1 df2 k (gen rng s) H).
  assert (Hc : iloc 0 (map Close df1) k = iloc 0 (map Close df2) k).
  { unfold iloc. apply (firstn_nth_agree k); [now rewrite !firstn_map, H | lia]. }
  assert (Hd : iloc epoch (map date df1) k = iloc epoch (map date df2) k).
  { unfold iloc. apply (firstn_nth_agree k); [now rewrite !firstn_map, H | lia]. }
  rewrite Hc, Hd. reflexivity.
Qed.

Lemma firstn_shorter {A : Type} (j k : nat) (l1 l2 : list A) :
  (j <= k)%nat -> firstn k l1 = firstn k l2 -> firstn j l1 = firstn j l2.
Proof.
  intros Hjk H.
  rewrite <- (Nat.min_l j k Hjk), <- !firstn_firstn, H. reflexivity.
Qed.

Lemma run_bars_prefix (p : Params) (df1 df2 : DataFrame) (g : rng) (n k : nat) :
  firstn n df1 = firstn n df2 -> (k <= n)%nat ->
  run_bars p df1 g k = run_bars p df2 g k.
Proof.
  intros H. induction k as [|k IH]; intro Hk; simpl; [reflexivity|].
  rewrite IH by lia.
  destruct (run_bars p df2 g k) as [s|e]; simpl; [|reflexivity].
  apply step_prefix. apply (firstn_shorter (S k) n); [lia | assumption].
Qed.

(** C9: two bar sequences that agree on bars [0 .. i] give the same result
    up to and including bar [i], from the same state of the random generator:
    the same simulator state (position, entry price, cash, notional, active
    trend and its info, both ledgers, the equity values of bars [0 .. i]) or
    the same exception; later bars have no influence, and this holds for
    every earlier bar [k <= i] as well. *)
Theorem strict_causality
        (p : Params) (df1 df2 : DataFrame) (g : rng) (i : nat) :
  firstn (S i) df1 = firstn (S i) df2 ->
  forall k, (k <= i)%nat -> run_bars p df1 g (S k) = run_bars p df2 g (S k).
Proof.
  intros H k Hk. apply (run_bars_prefix p df1 df2 g (S i)); [assumption | lia].
Qed.

(** ** The sweep *)

Lemma run_bars_equity_length (p : Params) (df : DataFrame) (g : rng) (k : nat) (s : sim rng) :
  run_bars p df g k = Ok s ->
  length (equity (acct rng s)) = k /\ (k = 0%nat -> trades (acct rng s) = []).
Proof.
  revert s. induction k as [|k IH]; intros s H.
  - inversion H; subst. simpl. auto.
  - apply run_bars_succ in H. destruct H as [s0 [H0 Hs]].
    destruct (step_inv _ _ _ _ _ Hs) as [sup [res [g' [_ [_ [_ Ha]]]]]].
    destruct (IH _ H0) as [Hlen _]. split; [|discriminate].
    rewrite Ha. unfold trade_bar. simpl. rewrite length_app. simpl.
    destruct (trade_logic_cases (touch_tolerance p) (active_trend (trk rng s))
                (trendline_price_at (active_trend_info (trk rng s)) (date_at df k))
                (date_at df k) (close_at df k) (acct rng s0))
      as [E | [[_ [_ [_ E]]] | [[_ [_ [_ E]]] | [[_ [_ E]] | [_ [_ E]]]]]];
      rewrite E; simpl; lia.
Qed.

(** A backtest that returns has one equity value per bar, at least one. *)
Lemma backtest_equity_length (g : rng) (df : DataFrame) (p : Params) (out : backtest_out rng) :
  backtest_trendline_strategy rng fit g df p = Ok out ->
  length (out_equity rng out) = length df /\ out_equity rng out <> [].
Proof.
  unfold backtest_trendline_strategy. intro H.
  apply bind_ok in H. destruct H as [s [Hrun H]].
  destruct (run_bars_equity_length _ _ _ _ _ Hrun) as [Hlen Hnil].
  destruct (trades (acct rng s)) eqn:Et; [discriminate|].
  inversion H; subst; simpl. split; [assumption|].
  intro E. rewrite E in Hlen. simpl in Hlen. symmetry in Hlen.
  specialize (Hnil Hlen). discriminate.
Qed.

Lemma iloc_last_ok (l : list Q) : l <> [] -> exists v, iloc_last l = Ok v.
Proof.
  intro H. unfold iloc_last. destruct (rev l) as [|v r] eqn:E.
  - exfalso. apply H. rewrite <- (rev_involutive l), E. reflexivity.
  - eauto.
Qed.

Lemma no_realized_trade_no_column (ts : list trade) :
  no_realized_trade ts -> has_pnl_column ts = false.
Proof.
  unfold no_realized_trade. induction ts as [|t ts IH]; simpl; [reflexivity|].
  destruct (t_pnl t); simpl; [discriminate | exact IH].
Qed.

(** A worker returns whenever its backtest does, with the combination it was
    given and the sentinel exactly when the ledger has no ["pnl"] column. *)
Lemma run_backtest_combo_of_backtest (g : rng) (c : Params) (df : DataFrame)
      (out : backtest_out rng) :
  backtest_trendline_strategy rng fit g df c = Ok out ->
  exists e,
    run_backtest_combo rng fit g c df
    = Ok (c,
          if has_pnl_column (out_trades rng out)
          then Fin (median (pnl_values (out_trades rng out))) else NegInf,
          e).
Proof.
  intro H. destruct (backtest_equity_length _ _ _ _ H) as [_ Hne].
  destruct (iloc_last_ok _ Hne) as [v Hv].
  exists v. unfold run_backtest_combo. rewrite H. simpl. rewrite Hv. reflexivity.
Qed.




Lemma rank_step_equity (b : leaderboard) (c : Params) (m : metric) (e : Q) :
  let b' := rank_step b (c, m, e) in
  if metric_gtb (Fin e) (best_equity_val b)
  then best_equity_params b' = Some c /\ best_equity b' = Some e
       /\ best_equity_val b' = Fin e
  else best_equity_params b' = best_equity_params b /\ best_equity b' = best_equity b
       /\ best_equity_val b' = best_equity_val b.
Proof.
  unfold rank_step.
  destruct (metric_gtb m (best_median_val b)); cbn [best_equity_val];
    destruct (metric_gtb (Fin e) (best_equity_val b)); simpl; auto.
Qed.



Lemma no_column_no_realized_trade (ts : list trade) :
  has_pnl_column ts = false -> no_realized_trade ts.
Proof.
  unfold no_realized_trade. induction ts as [|t ts IH]; simpl; [reflexivity|].
  destruct (t_pnl t); simpl; [discriminate | exact IH].
Qed.

Lemma rank_step_equity_ok (seen : list (Params * metric * Q)) (b : leaderboard)
      (r : Params * metric * Q) :
  equity_board_ok seen b -> equity_board_ok (seen ++ [r]) (rank_step b r).
Proof.
  destruct r as [[c0 m0] e0]. intro H.
  pose proof (rank_step_equity b c0 m0 e0) as S. cbv zeta in S.
  right. destruct H as [[Hnil [_ Hval]] | [w [m [e [Hin [Hp [He [Hval Hmax]]]]]]]].
  - rewrite Hval in S. cbn [metric_gtb] in S. destruct S as [Sp [Se Sv]].
    exists c0, m0, e0. subst seen. simpl.
    split; [auto|]. do 3 (split; [assumption|]).
    intros r [<-|[]]. simpl. apply Qle_refl.
  - rewrite Hval in S. cbn [metric_gtb] in S.
    destruct (Qgtb e0 e) eqn:G; destruct S as [Sp [Se Sv]].
    + apply Qltb_lt in G. exists c0, m0, e0.
      split; [apply in_or_app; right; left; reflexivity|].
      do 3 (split; [assumption|]). intros r Hr. apply in_app_or in Hr.
      destruct Hr as [Hr | [<-|[]]]; [|simpl; apply Qle_refl].
      specialize (Hmax r Hr). lra.
    + apply Qltb_false in G. exists w, m, e.
      split; [apply in_or_app; left; exact Hin|].
      do 3 (split; [congruence|]). intros r Hr. apply in_app_or in Hr.
      destruct Hr as [Hr | [<-|[]]]; [exact (Hmax r Hr) | exact G].
Qed.

Lemma rank_equity_ok (results seen : list (Params * metric * Q)) (b : leaderboard) :
  equity_board_ok seen b ->
  equity_board_ok (seen ++ results) (fold_left rank_step results b).
Proof.
  revert seen b. induction results as [|r results IH]; intros seen b H;
    cbn [fold_left].
  - now rewrite app_nil_r.
  - replace (seen ++ r :: results) with ((seen ++ [r]) ++ results)
      by (now rewrite <- app_assoc).
    apply IH, rank_step_equity_ok, H.
Qed.



(** C6, where the code falls short: when the grid holds exactly one
    ParameterSet, its backtest returns and its ledger holds no realized
    trade, the sweep completes but the ranking loop leaves [best_median] and
    [best_median_params] at [None], the ParameterSet is not returned as the
    best-by-median-PnL winner, and the report that follows raises
    [TypeError]; the report of the first run prints the same missing median
    as not available. *)
Theorem single_combination_report_raises
        (seed : Params -> rng) (df : DataFrame) (gr : ParamGrid) (c : Params)
        (out : backtest_out rng) :
  param_combos gr = [c] ->
  backtest_trendline_strategy rng fit (seed c) df c = Ok out ->
  no_realized_trade (out_trades rng out) ->
  exists board,
    grid_search rng fit seed df (param_combos gr) = Ok board
    /\ best_median board = None
    /\ best_median_params board = None
    /\ best_median_params board <> Some c
    /\ print_best board = TypeError
    /\ print_median (out_trades rng out) = NotAvailable.
Proof.
  intros Hgr Hout Hnone. rewrite Hgr.
  destruct (run_backtest_combo_of_backtest _ _ _ _ Hout) as [e He].
  pose proof (no_realized_trade_no_column _ Hnone) as Hcol.
  rewrite Hcol in He.
  unfold grid_search. cbn [gather]. rewrite He. cbn [bind].
  eexists. split; [reflexivity|].
  unfold rank, print_best, print_median. rewrite Hcol. cbn.
  repeat split. discriminate.
Qed.

End SimulatorFacts.

(** * The scenarios *)

Import Scenario.

Lemma spike_closes_positive : positive_closes spike_frame.
Proof. vm_compute. repeat (constructor; [reflexivity|]). constructor. Qed.

Lemma cover_closes_positive : positive_closes cover_frame.
Proof. vm_compute. repeat (constructor; [reflexivity|]). constructor. Defined.

(** The run over [spike_frame]: short at bar 5, covered at bar 6 at almost
    five times the entry price, short again at bar 7. *)
Example spike_run :
  map (fun k => let a := acct _ (state_after spike_params spike_frame k) in
                (position a, Qred (cash a), Qred (position_size a)))
      [5; 6; 7; 8]%nat
  = [(0%Z, 100000, 0); ((-1)%Z, 0, 100000);
     (0%Z, -59800000 # 201, 0); ((-1)%Z, 0, -59800000 # 201)].
Proof. vm_compute. reflexivity. Qed.

(** C1, as stated, fails: all closes of [spike_frame] are strictly positive
    and the equity of bar 6, after the short is covered, is negative. *)
Lemma equity_negative_after_cover :
  ~ (forall (rng : Type)
            (fit : rng -> nat -> list Q -> list Q -> rng * result RANSACModel)
            (g : rng) (df : DataFrame) (p : Params) (out : backtest_out rng),
        positive_closes df ->
        backtest_trendline_strategy rng fit g df p = Ok out ->
        Forall (fun e => 0 <= e) (out_equity rng out)).
Proof.
  intro H.
  assert (E : backtest_trendline_strategy TwoPoint.rng TwoPoint.RANSACRegressor_fit
                tt spike_frame spike_params = Ok (out_of spike_frame spike_params))
    by (vm_compute; reflexivity).
  specialize (H _ _ _ _ _ _ spike_closes_positive E).
  rewrite Forall_forall in H.
  assert (Hin : In (nth 6 (out_equity _ (out_of spike_frame spike_params)) 0)
                   (out_equity _ (out_of spike_frame spike_params))).
  { apply nth_In. vm_compute. lia. }
  specialize (H _ Hin). vm_compute in H. apply H. reflexivity.
Qed.

(** Checks [covers_within] on a concrete run of [n] bars, bar by bar. *)
Tactic Notation "check_covers" integer(n) :=
  let j := fresh "j" in
  let Hs := fresh "Hs" in
  let Hs' := fresh "Hs'" in
  let Hp := fresh "Hp" in
  let Hp' := fresh "Hp'" in
  let Hj := fresh "Hj" in
  intros j ? ? Hj Hs Hs' Hp Hp'; vm_compute in Hj;
  do n (destruct j as [|j];
        [ vm_compute in Hs, Hs'; inversion Hs; inversion Hs'; subst;
          vm_compute in Hp, Hp'; try discriminate;
          vm_compute; try reflexivity; try discriminate |]);
  lia.

(** The run over [cover_frame]: the short of bar 5 is covered at bar 6 below
    twice its entry price, and a new short opens at bar 7. *)
Example cover_run :
  map (fun k => let a := acct _ (state_after spike_params cover_frame k) in
                (position a, Qred (cash a), Qred (position_size a)))
      [6; 7; 8]%nat
  = [((-1)%Z, 0, 100000); (0%Z, 5400000 # 67, 0); ((-1)%Z, 0, 5400000 # 67)].
Proof. vm_compute. reflexivity. Qed.

Lemma cover_frame_covers_le :
  covers_within TwoPoint.rng TwoPoint.RANSACRegressor_fit Qle
                spike_params cover_frame tt (length cover_frame).
Proof. check_covers 8. Defined.

Lemma cover_frame_covers_lt :
  covers_within TwoPoint.rng TwoPoint.RANSACRegressor_fit Qlt
                spike_params cover_frame tt 8.
Proof. check_covers 8. Defined.

(** The equity of the run over [cover_frame], where the short is covered
    below twice its entry price. *)
Lemma equity_non_negative_witness :
  Forall (fun e => 0 <= e) (out_equity _ (out_of cover_frame spike_params)).
Proof.
  apply (equity_non_negative TwoPoint.rng TwoPoint.RANSACRegressor_fit
           spike_params cover_frame tt (out_of cover_frame spike_params)).
  - exact cover_closes_positive.
  - exact cover_frame_covers_le.
  - vm_compute. reflexivity.
Defined.

(** C7, as stated, fails: after bar 7 of the run over [spike_frame] the
    position is short and its notional is the negative cash left by the cover
    of bar 6. *)
Lemma short_with_negative_notional :
  ~ (forall (rng : Type)
            (fit : rng -> nat -> list Q -> list Q -> rng * result RANSACModel)
            (p : Params) (df : DataFrame) (g : rng) (k : nat) (s : sim rng),
        run_bars rng fit p df g k = Ok s ->
        position (acct rng s) <> 0%Z -> 0 < position_size (acct rng s)).
Proof.
  intro H.
  assert (E : run_bars TwoPoint.rng TwoPoint.RANSACRegressor_fit spike_params
                spike_frame tt 8 = Ok (state_after spike_params spike_frame 8))
    by (vm_compute; reflexivity).
  specialize (H _ _ _ _ _ _ _ E).
  assert (P : position (acct _ (state_after spike_params spike_frame 8)) <> 0%Z)
    by (vm_compute; discriminate).
  specialize (H P). vm_compute in H. discriminate H.
Qed.

(** The short opened at bar 7 of the run over [cover_frame], after the
    cover of bar 6, has a strictly positive notional. *)
Lemma at_most_one_position_witness :
  0 < position_size (acct _ (state_after spike_params cover_frame 8)).
Proof.
  refine (proj2 (proj2 (proj2
            (at_most_one_position TwoPoint.rng TwoPoint.RANSACRegressor_fit
               spike_params cover_frame tt 8
               (state_after spike_params cover_frame 8) _))) _ _ _ _).
  - vm_compute. reflexivity.
  - vm_compute. lia.
  - exact cover_closes_positive.
  - exact cover_frame_covers_lt.
  - vm_compute. discriminate.
Defined.

(** The two runs over [support_frame]: the tight tolerance buys at bar 5 and
    holds; the loose tolerance buys at bar 4 and sells at a loss at bar 5. *)
Example support_runs :
  run_backtest_combo _ TwoPoint.RANSACRegressor_fit tt tight_params support_frame
  = Ok (tight_params, NegInf, 398000000 # 3980)
  /\ run_backtest_combo _ TwoPoint.RANSACRegressor_fit tt loose_params support_frame
     = Ok (loose_params, Fin (-6100000 # 260), 19900000 # 260).
Proof. split; vm_compute; reflexivity. Qed.

Example two_grid_combos : param_combos two_grid = [tight_params; loose_params].
Proof. reflexivity. Qed.

(** A run that never trades does not return: the empty ledger has no
    ["date"] column to index by. *)
Example flat_run_raises :
  backtest (TwoPoint.frame (qs [10; 10; 10; 10; 10; 10; 10; 10; 10; 10]%Z)) tight_params
  = Raise KeyError.
Proof. vm_compute. reflexivity. Qed.



(** The sweep of the one-combination [tight_grid] over [support_frame]: the
    long opened at bar 5 is never closed. *)
Lemma single_combination_report_raises_witness :
  exists board,
    grid_search _ TwoPoint.RANSACRegressor_fit (fun _ => tt) support_frame
                (param_combos tight_grid) = Ok board
    /\ best_median board = None
    /\ best_median_params board = None
    /\ best_median_params board <> Some tight_params
    /\ print_best board = TypeError
    /\ print_median (out_trades _ (out_of support_frame tight_params)) = NotAvailable.
Proof.
  apply (single_combination_report_raises TwoPoint.rng TwoPoint.RANSACRegressor_fit
           (fun _ => tt) support_frame tight_grid tight_params
           (out_of support_frame tight_params)).
  - reflexivity.
  - vm_compute. reflexivity.
  - vm_compute. reflexivity.
Defined.

(** Bar 7 of the run over [spike_frame]: the resistance through the peaks
    of bars 3 and 6 rises and the support through the troughs of bars 2 and 4
    falls, so neither candidate qualifies. *)
Lemma hysteresis_retention_witness :
  exists s',
    TwoPoint.run spike_params spike_frame 8 = Ok s'
    /\ active_trend (trk _ s') = active_trend (trk _ (state_after spike_params spike_frame 7))
    /\ active_trend_info (trk _ s')
       = active_trend_info (trk _ (state_after spike_params spike_frame 7)).
Proof.
  eapply (hysteresis_retention TwoPoint.rng TwoPoint.RANSACRegressor_fit
            spike_params spike_frame tt 7 (state_after spike_params spike_frame 7)).
  - vm_compute. reflexivity.
  - vm_compute. reflexivity.
  - vm_compute. reflexivity.
Defined.

(** In that bar the trend retained is the downtrend fitted at bar 4. *)
Example retained_trend :
  active_trend (trk _ (state_after spike_params spike_frame 8)) = Some downtrend
  /\ used_points (active_trend_info (trk _ (state_after spike_params spike_frame 8)))
     = [1; 3]%nat.
Proof. split; vm_compute; reflexivity. Qed.

(** Bars 4 and 7 of the run over [spike_frame]. *)
Lemma trend_never_returns_to_flat_witness :
  active_trend (trk _ (state_after spike_params spike_frame 8)) = Some uptrend
  \/ active_trend (trk _ (state_after spike_params spike_frame 8)) = Some downtrend.
Proof.
  apply (trend_never_returns_to_flat TwoPoint.rng TwoPoint.RANSACRegressor_fit
           spike_params spike_frame tt 4 7
           (state_after spike_params spike_frame 5)
           (state_after spike_params spike_frame 8)).
  - lia.
  - vm_compute. reflexivity.
  - vm_compute. reflexivity.
  - right. vm_compute. reflexivity.
Defined.

(** Bar 3 of the tight run over [support_frame]: one trough and one peak,
    no model yet. *)
Lemma touch_predicate_correct_witness :
  is_touching_line (close_at support_frame 3)
    (trendline_price_at
       (active_trend_info (trk _ (state_after tight_params support_frame 4)))
       (date_at support_frame 3))
    (touch_tolerance tight_params) = false
  /\ position (acct _ (state_after tight_params support_frame 4))
     = position (acct _ (state_after tight_params support_frame 3))
  /\ trades (acct _ (state_after tight_params support_frame 4))
     = trades (acct _ (state_after tight_params support_frame 3)).
Proof.
  apply (proj2 (touch_predicate_correct TwoPoint.rng TwoPoint.RANSACRegressor_fit)
           tight_params support_frame 3%nat
           (state_after tight_params support_frame 3)
           (state_after tight_params support_frame 4)).
  - vm_compute. reflexivity.
  - vm_compute. reflexivity.
Defined.

(** [spike_frame] and [cover_frame] share their first six bars. *)
Lemma strict_causality_witness :
  TwoPoint.run spike_params spike_frame 6 = TwoPoint.run spike_params cover_frame 6.
Proof.
  apply (strict_causality TwoPoint.rng TwoPoint.RANSACRegressor_fit
           spike_params spike_frame cover_frame tt 5).
  - vm_compute. reflexivity.
  - lia.
Defined.

(** Bar 6 of the run over [spike_frame], where the short is covered. *)
Lemma one_trade_action_per_bar_witness :
  exists new : list trade,
    trades (acct _ (state_after spike_params spike_frame 7))
    = trades (acct _ (state_after spike_params spike_frame 6)) ++ new
    /\ (length new <= 1)%nat
    /\ (forall t, In t new -> is_entry t = true \/ is_exit t = true)
    /\ (forall t, In t new -> is_entry t = true ->
                  position (acct _ (state_after spike_params spike_frame 6)) = 0%Z
                  /\ position (acct _ (state_after spike_params spike_frame 7)) <> 0%Z)
    /\ (forall t, In t new -> is_exit t = true ->
                  position (acct _ (state_after spike_params spike_frame 6)) <> 0%Z
                  /\ position (acct _ (state_after spike_params spike_frame 7)) = 0%Z).
Proof.
  apply (one_trade_action_per_bar TwoPoint.rng TwoPoint.RANSACRegressor_fit
           spike_params spike_frame 6
           (state_after spike_params spike_frame 6)
           (state_after spike_params spike_frame 7)).
  vm_compute. reflexivity.
Defined.

(** * Further properties of the simulator *)

Section MoreSimulatorFacts.

Variable rng : Type.
Variable fit : rng -> nat -> list Q -> list Q -> rng * result RANSACModel.

Abbreviation step := (step rng fit).
Abbreviation run_bars := (run_bars rng fit).
Abbreviation candidates := (candidates rng fit).

(** ** Before the first trend *)

Lemma trade_bar_no_trend (tol : Q) (tp : option Q) (d : Timestamp) (c : Q) (k : nat) :
  trade_bar tol None tp d c (untouched_account k) = untouched_account (S k).
Proof.
  unfold trade_bar, trade_logic, untouched_account, append_equity, mark_to_market.
  simpl. f_equal. symmetry. apply repeat_cons.
Qed.

Lemma no_trend_before (p : Params) (df : DataFrame) (i : nat) (s s' : sim rng) :
  tracker_ok (trk rng s) ->
  step p df i s = Ok s' ->
  active_trend (trk rng s') = None ->
  active_trend (trk rng s) = None.
Proof.
  intros [Hl _] Hstep Hnone.
  destruct (step_inv _ _ _ _ _ _ _ Hstep) as [sup [res [g' [_ [Ht _]]]]].
  destruct (active_trend (trk rng s)) as [t|] eqn:E; [|reflexivity].
  exfalso. rewrite Ht in Hnone.
  apply (update_trend_keeps_some p (date_at df i) sup res (trk rng s)); [|exact Hnone].
  rewrite Hl. discriminate.
Qed.

(** X1: as long as no trend has been established the simulator has done
    nothing: if the tracker holds no trend after [k] bars then the position is
    flat, the ledger and the switch log are empty, the cash is the initial
    100000 and each of the [k] equity values is 100000. *)
Theorem untouched_until_first_trend
        (p : Params) (df : DataFrame) (g : rng) (k : nat) (s : sim rng) :
  run_bars p df g k = Ok s ->
  active_trend (trk rng s) = None ->
  acct rng s = untouched_account k
  /\ trend_switches (trk rng s) = []
  /\ active_trend_info (trk rng s) = no_model [].
Proof.
  revert s. induction k as [|k IH]; intros s Hrun Hnone.
  - inversion Hrun; subst. simpl. auto.
  - pose proof (run_bars_tracker_ok _ _ _ _ _ _ _ Hrun) as [_ Hinfo].
    apply run_bars_succ in Hrun. destruct Hrun as [s0 [H0 Hstep]].
    pose proof (run_bars_tracker_ok _ _ _ _ _ _ _ H0) as Hok0.
    pose proof (no_trend_before _ _ _ _ _ Hok0 Hstep Hnone) as Hnone0.
    destruct (IH _ H0 Hnone0) as [Ha [Hsw _]].
    destruct (step_inv _ _ _ _ _ _ _ Hstep) as [sup [res [g' [_ [Ht [_ Hacct]]]]]].
    split; [|split; [|exact (Hinfo Hnone)]].
    + rewrite Hacct, Hnone, Ha. apply trade_bar_no_trend.
    + destruct Hok0 as [Hl0 _].
      assert (E : trend_switches (trk rng s)
                  = if trend_eqb (active_trend (trk rng s)) (last_trend (trk rng s0))
                    then trend_switches (trk rng s0)
                    else trend_switches (trk rng s0)
                                        ++ [(date_at df k, active_trend (trk rng s))]).
      { rewrite Ht. unfold update_trend.
        destruct (uptrend_qualifies p sup && negb (downtrend_qualifies p res));
          [reflexivity|].
        destruct (downtrend_qualifies p res && negb (uptrend_qualifies p sup));
          reflexivity. }
      rewrite E, Hnone, Hl0, Hnone0. simpl. exact Hsw.
Qed.

(** ** The ledger *)

Lemma replay_snoc (ts : list trade) (t : trade) :
  replay (ts ++ [t]) = replay_row (replay ts) t.
Proof. unfold replay. rewrite fold_left_app. reflexivity. Qed.

Lemma Qsum_snoc (l : list Q) (v : Q) : Qsum (l ++ [v]) == Qsum l + v.
Proof.
  induction l as [|a l IH]; simpl; [ring|]. rewrite IH. ring.
Qed.

Lemma pnl_values_snoc (ts : list trade) (t : trade) :
  pnl_values (ts ++ [t])
  = pnl_values ts ++ match t_pnl t with Some v => [v] | None => [] end.
Proof. unfold pnl_values. rewrite flat_map_app. simpl. now rewrite app_nil_r. Qed.

(** X2: the ledger of a run is a well-formed history of its position.
    Replayed from a flat start (a buy or a short sale only from flat, an exit
    only from the matching open side) the rows lead to the position the
    simulator is in; entry rows carry a size and no PnL, exit rows a PnL and
    no size. *)
Theorem ledger_replays_to_position
        (p : Params) (df : DataFrame) (g : rng) (k : nat) (s : sim rng) :
  run_bars p df g k = Ok s ->
  replay (trades (acct rng s)) = Some (position (acct rng s))
  /\ Forall row_shape_ok (trades (acct rng s)).
Proof.
  revert s. induction k as [|k IH]; intros s Hrun.
  - inversion Hrun; subst. simpl. split; [reflexivity | constructor].
  - apply run_bars_succ in Hrun. destruct Hrun as [s0 [H0 Hstep]].
    destruct (IH _ H0) as [Hrep Hrows].
    destruct (step_inv _ _ _ _ _ _ _ Hstep) as [sup [res [g' [_ [_ [_ Ha]]]]]].
    rewrite Ha. unfold trade_bar. simpl.
    destruct (trade_logic_cases (touch_tolerance p) (active_trend (trk rng s))
                (trendline_price_at (active_trend_info (trk rng s)) (date_at df k))
                (date_at df k) (close_at df k) (acct rng s0))
      as [E | [[P [_ [_ E]]] | [[P [_ [_ E]]] | [[P [_ E]] | [P [_ E]]]]]];
      rewrite E; simpl; try (split; assumption);
      (split;
       [ rewrite replay_snoc, Hrep, P; reflexivity
       | apply Forall_app; split; [exact Hrows|];
         constructor; [|constructor]; unfold row_shape_ok; simpl;
         split; (reflexivity || discriminate) ]).
Qed.

(** X3: the funds of the account are the initial cash plus the realized
    PnL: after any number of bars, cash plus notional equals 100000 plus the
    sum of the PnL column of the ledger. *)
Theorem funds_are_initial_cash_plus_realized_pnl
        (p : Params) (df : DataFrame) (g : rng) (k : nat) (s : sim rng) :
  run_bars p df g k = Ok s ->
  cash (acct rng s) + position_size (acct rng s)
  == 100000 + Qsum (pnl_values (trades (acct rng s))).
Proof.
  revert s. induction k as [|k IH]; intros s Hrun.
  - inversion Hrun; subst. simpl. ring.
  - apply run_bars_succ in Hrun. destruct Hrun as [s0 [H0 Hstep]].
    pose proof (IH _ H0) as Hfunds.
    destruct (run_bars_shape _ _ _ _ _ _ _ H0) as [_ [Hflat Hopen]].
    destruct (step_inv _ _ _ _ _ _ _ Hstep) as [sup [res [g' [_ [_ [_ Ha]]]]]].
    rewrite Ha. unfold trade_bar. simpl.
    destruct (trade_logic_cases (touch_tolerance p) (active_trend (trk rng s))
                (trendline_price_at (active_trend_info (trk rng s)) (date_at df k))
                (date_at df k) (close_at df k) (acct rng s0))
      as [E | [[P [_ [_ E]]] | [[P [_ [_ E]]] | [[P [_ E]] | [P [_ E]]]]]];
      rewrite E; simpl; try exact Hfunds.
    + rewrite pnl_values_snoc. simpl. rewrite app_nil_r.
      destruct (Hflat P) as [Hs _]. rewrite Hs in Hfunds. rewrite <- Hfunds. ring.
    + rewrite pnl_values_snoc. simpl. rewrite app_nil_r.
      destruct (Hflat P) as [Hs _]. rewrite Hs in Hfunds. rewrite <- Hfunds. ring.
    + rewrite pnl_values_snoc. simpl. rewrite Qsum_snoc.
      assert (Hc : cash (acct rng s0) = 0) by (apply Hopen; lia).
      rewrite Hc in Hfunds. rewrite Qplus_assoc, <- Hfunds. ring.
    + rewrite pnl_values_snoc. simpl. rewrite Qsum_snoc.
      assert (Hc : cash (acct rng s0) = 0) by (apply Hopen; lia).
      rewrite Hc in Hfunds. rewrite Qplus_assoc, <- Hfunds. ring.
Qed.

(** ** The switch log *)

Lemma trend_eqb_eq (a b : option trend) : trend_eqb a b = true <-> a = b.
Proof.
  destruct a as [[|]|], b as [[|]|]; simpl; split; intro H;
    try reflexivity; try discriminate.
Qed.

Lemma last_cons {A : Type} (a : A) (l : list A) (d : A) : last (a :: l) d = last l a.
Proof.
  revert a d. induction l as [|b l IH]; intros a d; [reflexivity|].
  change (last (a :: b :: l) d) with (last (b :: l) d).
  now rewrite (IH b d), (IH b a).
Qed.

Lemma alternates_snoc (prev x : option trend) (l : list (option trend)) :
  alternates prev (l ++ [x])
  = alternates prev l && negb (trend_eqb x None) && negb (trend_eqb x (last l prev)).
Proof.
  revert prev. induction l as [|a l IH]; intro prev.
  - simpl. now rewrite andb_true_r.
  - cbn [app alternates]. rewrite IH, last_cons.
    now rewrite !andb_assoc.
Qed.

Lemma update_trend_switches (p : Params) (d : Timestamp) (sup res : trend_info) (t : tracker) :
  trend_switches (update_trend p d sup res t)
  = if trend_eqb (active_trend (update_trend p d sup res t)) (last_trend t)
    then trend_switches t
    else trend_switches t ++ [(d, active_trend (update_trend p d sup res t))].
Proof.
  unfold update_trend.
  destruct (uptrend_qualifies p sup && negb (downtrend_qualifies p res)); [reflexivity|].
  destruct (downtrend_qualifies p res && negb (uptrend_qualifies p sup)); reflexivity.
Qed.

(** X4: the trend-switch log records exactly the changes of the active
    trend: no logged state is "no trend", each logged state differs from the
    one logged before it, the last logged state is the active trend (the log
    is empty while there is none), every logged date is the date of one of
    the bars run, and there are at most as many switches as bars. *)
Theorem switch_log_tracks_active_trend
        (p : Params) (df : DataFrame) (g : rng) (k : nat) (s : sim rng) :
  run_bars p df g k = Ok s ->
  alternates None (map snd (trend_switches (trk rng s))) = true
  /\ last (map snd (trend_switches (trk rng s))) None = active_trend (trk rng s)
  /\ Forall (fun e => exists i, (i < k)%nat /\ fst e = date_at df i)
            (trend_switches (trk rng s))
  /\ (length (trend_switches (trk rng s)) <= k)%nat.
Proof.
  revert s. induction k as [|k IH]; intros s Hrun.
  - inversion Hrun; subst. simpl. repeat split; auto.
  - apply run_bars_succ in Hrun. destruct Hrun as [s0 [H0 Hstep]].
    destruct (IH _ H0) as [Halt [Hlast [Hdates Hlen]]].
    destruct (run_bars_tracker_ok _ _ _ _ _ _ _ H0) as [Hl0 _].
    destruct (step_inv _ _ _ _ _ _ _ Hstep) as [sup [res [g' [_ [Ht _]]]]].
    assert (Hdates' : Forall (fun e => exists i, (i < S k)%nat /\ fst e = date_at df i)
                             (trend_switches (trk rng s0))).
    { eapply Forall_impl; [|exact Hdates]. intros e [i [Hi He]]. exists i. split; [lia|auto]. }
    pose proof (update_trend_keeps_some p (date_at df k) sup res (trk rng s0)) as Hkeep.
    rewrite Ht, update_trend_switches.
    set (t' := update_trend p (date_at df k) sup res (trk rng s0)) in *.
    destruct (trend_eqb (active_trend t') (last_trend (trk rng s0))) eqn:E.
    + apply trend_eqb_eq in E. rewrite E, Hl0.
      split; [exact Halt|]. split; [exact Hlast|]. split; [exact Hdates' | lia].
    + rewrite map_app. cbn [map snd].
      rewrite alternates_snoc, last_last, length_app. simpl.
      rewrite Halt, Hlast, <- Hl0, E. simpl.
      split; [|split; [reflexivity|split; [|lia]]].
      * destruct (active_trend t') eqn:Ea; [destruct t; reflexivity|].
        exfalso. apply Hkeep; [|reflexivity].
        intro Hn. rewrite Hn in E. discriminate.
      * apply Forall_app. split; [exact Hdates'|].
        constructor; [|constructor]. exists k. split; [lia | reflexivity].
Qed.

(** ** Frames without extrema *)

Lemma candidates_no_extrema (p : Params) (df : DataFrame) (i : nat) (g : rng) :
  detect_local_extrema (window_at p df i) (order p) (prominence p) = Ok ([], []) ->
  candidates p df i g = Ok (no_model [], no_model [], g).
Proof.
  intro H. unfold candidates. unfold window_at in H. rewrite H. simpl.
  unfold candidate_info, trendline_from_extrema. simpl.
  destruct (len_ge [] (min_points_for_trend p)); reflexivity.
Qed.

Lemma step_no_extrema (p : Params) (df : DataFrame) (i : nat) (g : rng) :
  detect_local_extrema (window_at p df i) (order p) (prominence p) = Ok ([], []) ->
  step p df i {| trk := initial_tracker; acct := untouched_account i; gen := g |}
  = Ok {| trk := initial_tracker; acct := untouched_account (S i); gen := g |}.
Proof.
  intro H. unfold step. cbn [gen]. rewrite (candidates_no_extrema p df i g H).
  cbn [bind trk acct]. f_equal.
  assert (Hu : update_trend p (iloc epoch (map date df) i) (no_model []) (no_model [])
                            initial_tracker = initial_tracker).
  { unfold update_trend, uptrend_qualifies, downtrend_qualifies. simpl.
    reflexivity. }
  rewrite Hu. cbn [active_trend initial_tracker].
  rewrite trade_bar_no_trend. reflexivity.
Qed.

Lemma run_without_extrema (p : Params) (df : DataFrame) (g : rng) (k : nat) :
  no_extrema p df -> (k <= length df)%nat ->
  run_bars p df g k
  = Ok {| trk := initial_tracker; acct := untouched_account k; gen := g |}.
Proof.
  intros Hno. induction k as [|k IH]; intro Hk; [reflexivity|].
  change (run_bars p df g (S k)) with (bind (run_bars p df g k) (step p df k)).
  rewrite IH by lia. cbn [bind]. apply step_no_extrema, Hno. lia.
Qed.

Lemma backtest_without_extrema (p : Params) (df : DataFrame) (g : rng) :
  no_extrema p df ->
  backtest_trendline_strategy rng fit g df p = Raise KeyError.
Proof.
  intro Hno. unfold backtest_trendline_strategy.
  rewrite (run_without_extrema p df g (length df) Hno (Nat.le_refl _)).
  reflexivity.
Qed.

Lemma window_at_length (p : Params) (df : DataFrame) (i : nat) :
  (length (window_at p df i) <= length df)%nat.
Proof.
  unfold window_at, window_slice.
  rewrite length_firstn, length_skipn, length_map. lia.
Qed.

Lemma short_frame_no_extrema (p : Params) (df : DataFrame) :
  (length df < 3)%nat -> (1 <= order p)%Z -> no_extrema p df.
Proof.
  intros Hlen Hord i _.
  pose proof (window_at_length p df i) as Hw.
  unfold detect_local_extrema.
  rewrite find_peaks_short by (assumption || lia). cbn [bind].
  rewrite find_peaks_short; [reflexivity | rewrite length_map; lia | assumption].
Qed.

(** X5: a frame of fewer than three bars never lets the backtest return:
    with an order of at least 1 no window has an extremum, the run trades
    nothing, and indexing the empty ledger by date raises [KeyError]. *)
Theorem short_frame_raises
        (p : Params) (df : DataFrame) (g : rng) :
  (length df < 3)%nat -> (1 <= order p)%Z ->
  run_bars p df g (length df)
  = Ok {| trk := initial_tracker; acct := untouched_account (length df); gen := g |}
  /\ backtest_trendline_strategy rng fit g df p = Raise KeyError.
Proof.
  intros Hlen Hord.
  pose proof (short_frame_no_extrema p df Hlen Hord) as Hno. split.
  - apply run_without_extrema; [exact Hno | lia].
  - apply backtest_without_extrema, Hno.
Qed.

(** X6: with an order below 1 the backtest raises on every frame: the
    peak finder refuses the distance at the first bar ([ValueError]), and on
    the empty frame the empty ledger cannot be indexed ([KeyError]). *)
Theorem order_below_one_raises
        (p : Params) (df : DataFrame) (g : rng) :
  (order p < 1)%Z ->
  backtest_trendline_strategy rng fit g df p
  = Raise (match df with [] => KeyError | _ :: _ => ValueError end).
Proof.
  intro Hord.
  assert (Hstep : forall i s, step p df i s = Raise ValueError).
  { intros i s. unfold step, candidates, detect_local_extrema, FindPeaks.find_peaks.
    destruct (order p <? 1)%Z eqn:E; [reflexivity|].
    apply Z.ltb_ge in E. lia. }
  assert (Hrun : forall k, run_bars p df g (S k) = Raise ValueError).
  { induction k as [|k IH].
    - change (run_bars p df g 1) with (step p df 0%nat (initial_sim rng g)).
      apply Hstep.
    - change (run_bars p df g (S (S k)))
        with (bind (run_bars p df g (S k)) (step p df (S k))).
      rewrite IH. reflexivity. }
  unfold backtest_trendline_strategy. destruct df as [|b df]; [reflexivity|].
  cbn [length]. rewrite Hrun. reflexivity.
Qed.

(** ** Monotone closes *)

(** A sequence that never rises from a sample to the next has no maximum. *)
Lemma local_maxima_from_no_rise (fuel : nat) (x : list Q) (i i_max : nat) :
  (forall j, (1 <= j < length x)%nat -> FindPeaks.at_ x j <= FindPeaks.at_ x (j - 1)) ->
  (i_max < length x)%nat -> (1 <= i)%nat ->
  FindPeaks.local_maxima_from fuel x i i_max = [].
Proof.
  intros Hno Hmax. revert i. induction fuel as [|fuel IH]; intros i Hi;
    cbn [FindPeaks.local_maxima_from]; [reflexivity|].
  destruct (i <? i_max)%nat eqn:E; [|reflexivity]. apply Nat.ltb_lt in E.
  assert (Hflat : Qltb (FindPeaks.at_ x (i - 1)) (FindPeaks.at_ x i) = false).
  { apply Qltb_false. apply Hno. lia. }
  rewrite Hflat. apply IH. lia.
Qed.

(** A sequence that never falls has no maximum either: after a rise the
    next different sample is not smaller. *)
Lemma local_maxima_from_no_fall (fuel : nat) (x : list Q) (i i_max : nat) :
  (forall a b, (a <= b < length x)%nat -> FindPeaks.at_ x a <= FindPeaks.at_ x b) ->
  (i_max < length x)%nat ->
  FindPeaks.local_maxima_from fuel x i i_max = [].
Proof.
  intros Hmono Hmax. revert i. induction fuel as [|fuel IH]; intro i;
    cbn [FindPeaks.local_maxima_from]; [reflexivity|].
  destruct (i <? i_max)%nat eqn:E; [|reflexivity]. apply Nat.ltb_lt in E.
  destruct (Qltb (FindPeaks.at_ x (i - 1)) (FindPeaks.at_ x i)); [|apply IH].
  match goal with |- context [Qltb (FindPeaks.at_ x ?ia) _] => set (i_ahead := ia) end.
  assert (i_ahead <= i_max)%nat by (apply plateau_ahead_le; lia).
  assert (i + 1 <= i_ahead)%nat by apply plateau_ahead_ge.
  assert (Hge : Qltb (FindPeaks.at_ x i_ahead) (FindPeaks.at_ x i) = false).
  { apply Qltb_false. apply Hmono. lia. }
  rewrite Hge. apply IH.
Qed.

Lemma find_peaks_of_no_maxima (x : list Q) (distance : Z) (prom : Q) :
  FindPeaks.local_maxima_1d x = [] -> (1 <= distance)%Z ->
  FindPeaks.find_peaks x distance prom = Ok [].
Proof.
  intros Hm Hd. unfold FindPeaks.find_peaks.
  destruct (distance <? 1)%Z eqn:E; [apply Z.ltb_lt in E; lia|].
  rewrite Hm. reflexivity.
Qed.

Lemma local_maxima_1d_no_rise (x : list Q) :
  (forall j, (1 <= j < length x)%nat -> FindPeaks.at_ x j <= FindPeaks.at_ x (j - 1)) ->
  FindPeaks.local_maxima_1d x = [].
Proof.
  intro H. unfold FindPeaks.local_maxima_1d. destruct x as [|a x]; [reflexivity|].
  apply local_maxima_from_no_rise; [exact H | simpl; lia | lia].
Qed.

Lemma local_maxima_1d_no_fall (x : list Q) :
  (forall a b, (a <= b < length x)%nat -> FindPeaks.at_ x a <= FindPeaks.at_ x b) ->
  FindPeaks.local_maxima_1d x = [].
Proof.
  intro H. unfold FindPeaks.local_maxima_1d. destruct x as [|a x]; [reflexivity|].
  apply local_maxima_from_no_fall; [exact H | simpl; lia].
Qed.

Lemma at_opp (x : list Q) (i : nat) :
  FindPeaks.at_ (map Qopp x) i = - FindPeaks.at_ x i.
Proof.
  unfold FindPeaks.at_. change 0 with (- 0) at 1. apply map_nth.
Qed.

(** Sample [j] of the window of bar [i] is the close of bar [start + j]. *)
Lemma window_at_sample (p : Params) (df : DataFrame) (i j : nat) :
  (j < length (window_at p df i))%nat ->
  exists start,
    FindPeaks.at_ (window_at p df i) j = close_at df (start + j)
    /\ (start + j < length df)%nat.
Proof.
  unfold window_at, window_slice, FindPeaks.at_, close_at, iloc.
  set (start := Z.to_nat (Z.max 0 (Z.of_nat i - rebalance_bars p * 6))).
  rewrite length_firstn, length_skipn, length_map. intro Hj.
  exists start. rewrite nth_firstn.
  destruct (j <? i + 1 - start)%nat eqn:E; [|apply Nat.ltb_ge in E; lia].
  rewrite nth_skipn. split; [reflexivity | lia].
Qed.

Lemma window_at_pair (p : Params) (df : DataFrame) (i a b : nat) :
  (a <= b < length (window_at p df i))%nat ->
  exists start,
    FindPeaks.at_ (window_at p df i) a = close_at df (start + a)
    /\ FindPeaks.at_ (window_at p df i) b = close_at df (start + b)
    /\ (start + b < length df)%nat.
Proof.
  unfold window_at, window_slice, FindPeaks.at_, close_at, iloc.
  set (start := Z.to_nat (Z.max 0 (Z.of_nat i - rebalance_bars p * 6))).
  rewrite length_firstn, length_skipn, length_map. intro Hab.
  exists start. rewrite !nth_firstn.
  destruct (a <? i + 1 - start)%nat eqn:Ea; [|apply Nat.ltb_ge in Ea; lia].
  destruct (b <? i + 1 - start)%nat eqn:Eb; [|apply Nat.ltb_ge in Eb; lia].
  rewrite !nth_skipn. split; [reflexivity|]. split; [reflexivity | lia].
Qed.

Lemma never_falls_no_extrema (p : Params) (df : DataFrame) :
  never_falls df -> (1 <= order p)%Z -> no_extrema p df.
Proof.
  intros Hmono Hord i _. unfold detect_local_extrema.
  rewrite find_peaks_of_no_maxima; [cbn [bind] | | assumption].
  - rewrite find_peaks_of_no_maxima; [reflexivity | | assumption].
    apply local_maxima_1d_no_rise. rewrite length_map. intros j Hj.
    rewrite !at_opp.
    destruct (window_at_pair p df i (j - 1) j) as [st [Ea [Eb Hlt]]]; [lia|].
    rewrite Ea, Eb. apply Qopp_le_compat. apply Hmono. lia.
  - apply local_maxima_1d_no_fall. intros a b Hab.
    destruct (window_at_pair p df i a b Hab) as [st [Ea [Eb Hlt]]].
    rewrite Ea, Eb. apply Hmono. lia.
Qed.

Lemma never_rises_no_extrema (p : Params) (df : DataFrame) :
  never_rises df -> (1 <= order p)%Z -> no_extrema p df.
Proof.
  intros Hmono Hord i _. unfold detect_local_extrema.
  rewrite find_peaks_of_no_maxima; [cbn [bind] | | assumption].
  - rewrite find_peaks_of_no_maxima; [reflexivity | | assumption].
    apply local_maxima_1d_no_fall. rewrite length_map. intros a b Hab.
    rewrite !at_opp.
    destruct (window_at_pair p df i a b Hab) as [st [Ea [Eb Hlt]]].
    rewrite Ea, Eb. apply Qopp_le_compat. apply Hmono. lia.
  - apply local_maxima_1d_no_rise. intros j Hj.
    destruct (window_at_pair p df i (j - 1) j) as [st [Ea [Eb Hlt]]]; [lia|].
    rewrite Ea, Eb. apply Hmono. lia.
Qed.

(** X7: on a frame whose closes never fall, or never rise, from a bar to
    a later one (constant closes included), of any length and for any order
    of at least 1, no trend is ever established and nothing is traded: after
    the last bar the tracker and the generator are as they started, every
    equity value is the initial 100000, and the backtest raises [KeyError] on
    the empty ledger instead of returning. *)
Theorem monotone_closes_never_trade
        (p : Params) (df : DataFrame) (g : rng) :
  never_falls df \/ never_rises df -> (1 <= order p)%Z ->
  run_bars p df g (length df)
  = Ok {| trk := initial_tracker; acct := untouched_account (length df); gen := g |}
  /\ backtest_trendline_strategy rng fit g df p = Raise KeyError.
Proof.
  intros Hmono Hord.
  assert (Hno : no_extrema p df).
  { destruct Hmono as [H|H];
      [apply never_falls_no_extrema | apply never_rises_no_extrema]; assumption. }
  split.
  - apply run_without_extrema; [exact Hno | lia].
  - apply backtest_without_extrema, Hno.
Qed.

End MoreSimulatorFacts.

(** * Further properties of the account logic *)

(** X8: opening a position costs nothing.  On a bar that starts flat, with
    a close that is not zero, the equity recorded is the cash held before the
    bar, whether or not a position is opened: a new position is marked at
    its notional times close over close. *)
Theorem entry_is_costless
        (tol : Q) (active : option trend) (tp : option Q) (d : Timestamp)
        (c : Q) (a : account) :
  position a = 0%Z -> ~ c == 0 ->
  mark_to_market (trade_logic tol active tp d c a) c == cash a.
Proof.
  intros P Hc.
  destruct (trade_logic_cases tol active tp d c a)
    as [E | [[_ [_ [_ E]]] | [[_ [_ [_ E]]] | [[P1 _] | [P1 _]]]]];
    try lia; rewrite E; unfold mark_to_market; simpl.
  - rewrite P. simpl. apply Qeq_refl.
  - field. exact Hc.
  - field. exact Hc.
Qed.

(** X9: an exit returns more or less than the notional according to the
    side of the entry price the close is on.  On a bar that closes a position
    with a non-negative notional, entered at a positive price: a long closed
    at or above its entry price, or a short closed at or below it, returns at
    least the notional as cash; a long closed at or below its entry price, or
    a short closed at or above it, returns at most the notional. *)
Theorem exit_cash_against_notional
        (tol : Q) (active : option trend) (tp : option Q) (d : Timestamp)
        (c : Q) (a : account) :
  position a <> 0%Z -> 0 < entry_price a -> 0 <= position_size a ->
  position (trade_logic tol active tp d c a) = 0%Z ->
  (position a = 1%Z
   /\ (entry_price a <= c -> position_size a <= cash (trade_logic tol active tp d c a))
   /\ (c <= entry_price a -> cash (trade_logic tol active tp d c a) <= position_size a))
  \/ (position a = (-1)%Z
      /\ (c <= entry_price a -> position_size a <= cash (trade_logic tol active tp d c a))
      /\ (entry_price a <= c -> cash (trade_logic tol active tp d c a) <= position_size a)).
Proof.
  intros P He Hn Hflat.
  assert (Hge : forall x, 0 <= x -> 0 <= x / entry_price a * position_size a).
  { intros x Hx. apply Qmult_nonneg; [|assumption]. now apply Qdiv_nonneg. }
  assert (Hle : forall x, x <= 0 -> x / entry_price a * position_size a <= 0).
  { intros x Hx.
    setoid_replace (x / entry_price a * position_size a)
      with (- ((- x) / entry_price a * position_size a)) by (field; lra).
    assert (0 <= (- x) / entry_price a * position_size a) by (apply Hge; lra). lra. }
  destruct (trade_logic_cases tol active tp d c a)
    as [E | [[P0 _] | [[P0 _] | [[P1 [_ E]] | [P1 [_ E]]]]]]; try lia.
  - rewrite E in Hflat. lia.
  - left. split; [exact P1|]. rewrite E. unfold long_pnl. simpl. split; intro H.
    + assert (0 <= (c - entry_price a) / entry_price a * position_size a)
        by (apply Hge; lra). lra.
    + assert ((c - entry_price a) / entry_price a * position_size a <= 0)
        by (apply Hle; lra). lra.
  - right. split; [exact P1|]. rewrite E. unfold short_pnl. simpl. split; intro H.
    + assert (0 <= (entry_price a - c) / entry_price a * position_size a)
        by (apply Hge; lra). lra.
    + assert ((entry_price a - c) / entry_price a * position_size a <= 0)
        by (apply Hle; lra). lra.
Qed.

(** * Further properties of the touch predicate *)

(** X10: with a non-negative tolerance a close that is exactly on a line
    price that is not negative touches the line; with a positive tolerance a
    line price below zero is never touched, whatever the close, because the
    allowed distance [tolerance * line_price] is then negative. *)
Theorem negative_line_never_touched (price l tolerance : Q) :
  (0 <= tolerance -> 0 <= l -> is_touching_line l (Some l) tolerance = true)
  /\ (0 < tolerance -> l < 0 -> is_touching_line price (Some l) tolerance = false).
Proof.
  split.
  - intros Ht Hl. unfold is_touching_line. apply Qle_bool_iff.
    setoid_replace (l - l) with 0 by ring. simpl.
    now apply Qmult_le_0_compat.
  - intros Ht Hl. apply not_true_is_false. intro E.
    unfold is_touching_line in E. apply Qle_bool_iff in E.
    pose proof (Qabs_nonneg (price - l)) as Habs.
    assert (Hneg : tolerance * l < 0).
    { setoid_replace (tolerance * l) with (- (tolerance * (- l))) by ring.
      assert (0 < tolerance * (- l)) by (apply Qmult_pos; lra). lra. }
    lra.
Qed.

(** * Further properties of the leaderboards *)

Lemma metric_gtb_lt (a b : metric) : metric_gtb a b = true <-> metric_lt b a.
Proof.
  destruct a as [|x], b as [|y]; simpl; try (split; [discriminate | contradiction]);
    try (split; auto; fail).
  apply Qltb_lt.
Qed.

Lemma metric_gtb_le (a b : metric) : metric_gtb a b = false <-> metric_le a b.
Proof.
  destruct a as [|x], b as [|y]; simpl; try (split; auto; fail);
    try (split; [discriminate | contradiction]).
  apply Qltb_false.
Qed.

Lemma metric_lt_le_trans (a b c : metric) : metric_lt a b -> metric_le b c -> metric_lt a c.
Proof.
  destruct a, b, c; simpl; try contradiction; auto. intros; lra.
Qed.

Lemma metric_le_trans (a b c : metric) : metric_le a b -> metric_le b c -> metric_le a c.
Proof.
  destruct a, b, c; simpl; try contradiction; auto. intros; lra.
Qed.

Lemma rank_step_median_fields (b : leaderboard) (c : Params) (m : metric) (e : Q) :
  let b' := rank_step b (c, m, e) in
  if metric_gtb m (best_median_val b)
  then best_median_params b' = Some c /\ best_median b' = Some m
       /\ best_median_val b' = m
  else best_median_params b' = best_median_params b /\ best_median b' = best_median b
       /\ best_median_val b' = best_median_val b.
Proof.
  unfold rank_step.
  destruct (metric_gtb m (best_median_val b)); cbn [best_equity_val];
    destruct (metric_gtb (Fin e) (best_equity_val b)); simpl; auto.
Qed.

(** Results that do not reach the best value so far leave a board as it is. *)
Lemma rank_equity_unbeaten (l : list (Params * metric * Q)) (b : leaderboard) (e : Q) :
  best_equity_val b = Fin e ->
  Forall (fun r => equity_of r <= e) l ->
  best_equity_params (fold_left rank_step l b) = best_equity_params b
  /\ best_equity (fold_left rank_step l b) = best_equity b
  /\ best_equity_val (fold_left rank_step l b) = Fin e.
Proof.
  intros Hval H. revert b Hval.
  induction H as [|[[c0 m0] e0] l Hle Hl IH]; intros b Hval; cbn [fold_left]; [auto|].
  pose proof (rank_step_equity b c0 m0 e0) as S. cbv zeta in S.
  rewrite Hval in S. cbn [metric_gtb] in S.
  assert (G : Qgtb e0 e = false) by (apply Qltb_false; exact Hle).
  rewrite G in S. destruct S as [Sp [Se Sv]].
  destruct (IH _ Sv) as [Ip [Ie Iv]].
  rewrite Ip, Ie, Iv. auto.
Qed.

Lemma rank_equity_below (l : list (Params * metric * Q)) (b : leaderboard) (e : Q) :
  metric_lt (best_equity_val b) (Fin e) ->
  Forall (fun r => equity_of r < e) l ->
  metric_lt (best_equity_val (fold_left rank_step l b)) (Fin e).
Proof.
  intros Hval H. revert b Hval.
  induction H as [|[[c0 m0] e0] l Hlt Hl IH]; intros b Hval; cbn [fold_left]; [auto|].
  apply IH.
  pose proof (rank_step_equity b c0 m0 e0) as S. cbv zeta in S.
  destruct (metric_gtb (Fin e0) (best_equity_val b)); destruct S as [_ [_ Sv]];
    rewrite Sv; [exact Hlt | exact Hval].
Qed.

Lemma rank_median_unbeaten (l : list (Params * metric * Q)) (b : leaderboard) :
  Forall (fun r => metric_le (median_of r) (best_median_val b)) l ->
  best_median_params (fold_left rank_step l b) = best_median_params b
  /\ best_median (fold_left rank_step l b) = best_median b
  /\ best_median_val (fold_left rank_step l b) = best_median_val b.
Proof.
  revert b. induction l as [|[[c0 m0] e0] l IH]; intros b H; cbn [fold_left]; [auto|].
  pose proof (rank_step_median_fields b c0 m0 e0) as S. cbv zeta in S.
  assert (G : metric_gtb m0 (best_median_val b) = false)
    by (apply metric_gtb_le; exact (Forall_inv H)).
  rewrite G in S. destruct S as [Sp [Se Sv]].
  destruct (IH (rank_step b (c0, m0, e0))) as [Ip [Ie Iv]].
  { rewrite Sv. exact (Forall_inv_tail H). }
  rewrite Ip, Ie, Iv. auto.
Qed.

Lemma rank_median_below (l : list (Params * metric * Q)) (b : leaderboard) (m : metric) :
  metric_lt (best_median_val b) m ->
  Forall (fun r => metric_lt (median_of r) m) l ->
  metric_lt (best_median_val (fold_left rank_step l b)) m.
Proof.
  intros Hval H. revert b Hval.
  induction H as [|[[c0 m0] e0] l Hlt Hl IH]; intros b Hval; cbn [fold_left]; [auto|].
  apply IH.
  pose proof (rank_step_median_fields b c0 m0 e0) as S. cbv zeta in S.
  destruct (metric_gtb m0 (best_median_val b)); destruct S as [_ [_ Sv]];
    rewrite Sv; [exact Hlt | exact Hval].
Qed.

(** X11: each leaderboard returns the first of the best results.  If a
    result's final equity is strictly above that of every result before it
    and at least that of every result after it, it is the best-by-final-equity
    winner with that equity; if its median is finite, strictly above the
    median of every result before it and at least that of every result after,
    it is the best-by-median-PnL winner with that median. *)
Theorem first_best_result_wins
        (pre post : list (Params * metric * Q)) (w : Params) (m : metric) (e : Q) :
  (Forall (fun r => equity_of r < e) pre ->
   Forall (fun r => equity_of r <= e) post ->
   best_equity_params (rank (pre ++ (w, m, e) :: post)) = Some w
   /\ best_equity (rank (pre ++ (w, m, e) :: post)) = Some e)
  /\ (m <> NegInf ->
      Forall (fun r => metric_lt (median_of r) m) pre ->
      Forall (fun r => metric_le (median_of r) m) post ->
      best_median_params (rank (pre ++ (w, m, e) :: post)) = Some w
      /\ best_median (rank (pre ++ (w, m, e) :: post)) = Some m).
Proof.
  unfold rank. rewrite fold_left_app. cbn [fold_left]. split.
  - intros Hpre Hpost.
    set (b := fold_left rank_step pre initial_board).
    assert (Hb : metric_lt (best_equity_val b) (Fin e))
      by (apply rank_equity_below; [exact I | exact Hpre]).
    pose proof (rank_step_equity b w m e) as S. cbv zeta in S.
    apply metric_gtb_lt in Hb. rewrite Hb in S. destruct S as [Sp [Se Sv]].
    destruct (rank_equity_unbeaten post _ e Sv Hpost) as [Ip [Ie _]].
    rewrite Ip, Ie. auto.
  - intros Hfin Hpre Hpost.
    set (b := fold_left rank_step pre initial_board).
    assert (Hb : metric_lt (best_median_val b) m).
    { apply rank_median_below; [|exact Hpre].
      destruct m; [congruence | exact I]. }
    pose proof (rank_step_median_fields b w m e) as S. cbv zeta in S.
    apply metric_gtb_lt in Hb. rewrite Hb in S. destruct S as [Sp [Se Sv]].
    destruct (rank_median_unbeaten post (rank_step b (w, m, e))) as [Ip [Ie _]].
    { rewrite Sv. exact Hpost. }
    rewrite Ip, Ie. auto.
Qed.

Lemma rank_median_none (l : list (Params * metric * Q)) (b : leaderboard) :
  best_median_params (fold_left rank_step l b) = None ->
  best_median_params b = None
  /\ (best_median_val b = NegInf -> Forall (fun r => median_of r = NegInf) l).
Proof.
  revert b. induction l as [|[[c0 m0] e0] l IH]; intros b H; cbn [fold_left] in H.
  - split; [exact H | constructor].
  - destruct (IH _ H) as [Hp Hall].
    pose proof (rank_step_median_fields b c0 m0 e0) as S. cbv zeta in S.
    destruct (metric_gtb m0 (best_median_val b)) eqn:G; destruct S as [Sp [_ Sv]].
    + congruence.
    + split; [congruence|]. intro Hval. rewrite Hval in G, Sv.
      constructor; [|exact (Hall Sv)].
      unfold median_of. simpl. destruct m0; [reflexivity | discriminate].
Qed.

(** X12: when a leaderboard has no winner.  After the ranking loop the
    best-by-final-equity leaderboard is empty exactly when there is no result
    at all, and the best-by-median-PnL leaderboard is empty exactly when every
    result carries the "minus infinity" median. *)
Theorem leaderboard_without_winner (results : list (Params * metric * Q)) :
  (best_equity_params (rank results) = None <-> results = [])
  /\ (best_median_params (rank results) = None
      <-> Forall (fun r => median_of r = NegInf) results).
Proof.
  split; split.
  - intro H.
    assert (Hok : equity_board_ok ([] ++ results) (rank results)).
    { apply rank_equity_ok. left. auto. }
    destruct Hok as [[Hnil _] | [w [m [e [_ [Hp _]]]]]]; [exact Hnil | congruence].
  - intros ->. reflexivity.
  - intro H. destruct (rank_median_none results initial_board H) as [_ Hall].
    apply Hall. reflexivity.
  - intro H.
    destruct (rank_median_unbeaten results initial_board) as [Hp _]; [|exact Hp].
    eapply Forall_impl; [|exact H]. intros r Hr. rewrite Hr. exact I.
Qed.

(** * Further properties of the grid *)

(** X13: the grid is the cartesian product of its value lists: a
    parameter set is enumerated exactly when each of its five fields is one
    of the values listed for it, and the number of combinations is the
    product of the five list lengths. *)
Theorem param_combos_is_product (gr : ParamGrid) :
  (forall c : Params,
      In c (param_combos gr)
      <-> In (order c) (grid_order gr)
          /\ In (prominence c) (grid_prominence gr)
          /\ In (rebalance_bars c) (grid_rebalance_bars gr)
          /\ In (touch_tolerance c) (grid_touch_tolerance gr)
          /\ In (min_points_for_trend c) (grid_min_points_for_trend gr))
  /\ length (param_combos gr)
     = (length (grid_order gr) * (length (grid_prominence gr)
        * (length (grid_rebalance_bars gr) * (length (grid_touch_tolerance gr)
           * length (grid_min_points_for_trend gr)))))%nat.
Proof.
  split.
  - intro c. unfold param_combos. split.
    + intro H.
      apply in_flat_map in H. destruct H as [o [Ho H]].
      apply in_flat_map in H. destruct H as [pr [Hpr H]].
      apply in_flat_map in H. destruct H as [rb [Hrb H]].
      apply in_flat_map in H. destruct H as [tt [Htt H]].
      apply in_map_iff in H. destruct H as [mp [<- Hmp]]. simpl. auto.
    + intros [Ho [Hpr [Hrb [Htt Hmp]]]]. destruct c as [o pr rb tt mp]. simpl in *.
      apply in_flat_map. exists o. split; [exact Ho|].
      apply in_flat_map. exists pr. split; [exact Hpr|].
      apply in_flat_map. exists rb. split; [exact Hrb|].
      apply in_flat_map. exists tt. split; [exact Htt|].
      apply in_map_iff. exists mp. auto.
  - unfold param_combos.
    apply flat_map_constant_length. intros o _.
    apply flat_map_constant_length. intros pr _.
    apply flat_map_constant_length. intros rb _.
    apply flat_map_constant_length. intros tt _.
    apply length_map.
Qed.

(** * Further properties of the median *)

Lemma insert_sorted_In (v x : Q) (l : list Q) :
  In x (insert_sorted v l) <-> v = x \/ In x l.
Proof.
  induction l as [|w l IH]; simpl; [tauto|].
  destruct (Qle_bool v w); simpl; [tauto|]. rewrite IH. tauto.
Qed.

Lemma insert_sorted_length (v : Q) (l : list Q) :
  length (insert_sorted v l) = S (length l).
Proof.
  induction l as [|w l IH]; simpl; [reflexivity|].
  destruct (Qle_bool v w); simpl; [reflexivity | now rewrite IH].
Qed.

Lemma sort_values_In (x : Q) (l : list Q) : In x (sort_values l) <-> In x l.
Proof.
  induction l as [|a l IH]; simpl; [tauto|].
  rewrite insert_sorted_In, IH. tauto.
Qed.

Lemma sort_values_length (l : list Q) : length (sort_values l) = length l.
Proof.
  induction l as [|a l IH]; simpl; [reflexivity|].
  now rewrite insert_sorted_length, IH.
Qed.

Lemma median_between (vals : list Q) (lo hi : Q) :
  vals <> [] ->
  (forall v, In v vals -> lo <= v <= hi) ->
  lo <= median vals <= hi.
Proof.
  intros Hne Hb. unfold median.
  assert (Hlen : (0 < length (sort_values vals))%nat).
  { rewrite sort_values_length. destruct vals; [congruence | simpl; lia]. }
  assert (Hnth : forall i, (i < length (sort_values vals))%nat ->
                           lo <= nth i (sort_values vals) 0 <= hi).
  { intros i Hi. apply Hb. apply sort_values_In. now apply nth_In. }
  set (n := length (sort_values vals)) in *.
  assert (H2 : (n / 2 < n)%nat) by (apply Nat.div_lt; lia).
  destruct (Nat.even n).
  - pose proof (Hnth (n / 2 - 1)%nat ltac:(lia)) as A.
    pose proof (Hnth (n / 2)%nat H2) as B.
    set (a := nth (n / 2 - 1) (sort_values vals) 0) in *.
    set (b := nth (n / 2) (sort_values vals) 0) in *.
    setoid_replace ((a + b) / 2) with ((1 # 2) * a + (1 # 2) * b) by field.
    lra.
  - apply Hnth. exact H2.
Qed.

Section WorkerFacts.

Variable rng : Type.
Variable fit : rng -> nat -> list Q -> list Q -> rng * result RANSACModel.

Lemma iloc_last_is_last (l : list Q) (v : Q) : iloc_last l = Ok v -> last l 0 = v.
Proof.
  unfold iloc_last. destruct (rev l) as [|w r] eqn:E; [discriminate|].
  intro H. inversion H; subst.
  rewrite <- (rev_involutive l), E. simpl. apply last_last.
Qed.

(** X14: what a sweep worker returns.  When [run_backtest_combo] returns,
    the backtest of its combination returned; the triple holds that same
    combination, the last value of the equity series, and a median that is
    "minus infinity" exactly when the ledger has no realized trade and
    otherwise lies between the smallest and the largest realized PnL. *)
Theorem worker_result
        (g : rng) (combo c' : Params) (df : DataFrame) (m : metric) (e : Q) :
  run_backtest_combo rng fit g combo df = Ok (c', m, e) ->
  exists out,
    backtest_trendline_strategy rng fit g df combo = Ok out
    /\ c' = combo
    /\ last (out_equity rng out) 0 = e
    /\ (m = NegInf <-> no_realized_trade (out_trades rng out))
    /\ (forall v lo hi,
           m = Fin v ->
           (forall x, In x (pnl_values (out_trades rng out)) -> lo <= x <= hi) ->
           lo <= v <= hi).
Proof.
  unfold run_backtest_combo. intro H.
  apply bind_ok in H. destruct H as [out [Hout H]].
  apply bind_ok in H. destruct H as [v [Hv H]].
  inversion H; subst; clear H.
  exists out. split; [exact Hout|]. split; [reflexivity|].
  split; [exact (iloc_last_is_last _ _ Hv)|].
  destruct (has_pnl_column (out_trades rng out)) eqn:Ecol.
  - assert (Hne : pnl_values (out_trades rng out) <> []).
    { intro Hn. apply no_realized_trade_no_column in Hn. congruence. }
    split.
    + split; [discriminate | intro Hn; contradiction].
    + intros v0 lo hi Hm Hb. inversion Hm; subst.
      apply median_between; assumption.
  - split.
    + split; [intros _; now apply no_column_no_realized_trade | reflexivity].
    + intros v0 lo hi Hm. discriminate.
Qed.

End WorkerFacts.

(** * Further properties of the extremum detection *)

Lemma plateau_ahead_flat (fuel : nat) (x : list Q) (xi : Q) (i_ahead i_max : nat) :
  forall j, (i_ahead <= j < FindPeaks.plateau_ahead fuel x xi i_ahead i_max)%nat ->
            FindPeaks.at_ x j == xi.
Proof.
  revert i_ahead. induction fuel as [|fuel IH]; intros i_ahead j Hj; simpl in Hj; [lia|].
  destruct (i_ahead <? i_max)%nat; simpl in Hj; [|lia].
  destruct (Qeq_bool (FindPeaks.at_ x i_ahead) xi) eqn:E; [|lia].
  destruct (Nat.eq_dec j i_ahead) as [->|Hne].
  - now apply Qeq_bool_iff.
  - apply (IH (S i_ahead)). lia.
Qed.

Lemma increasing_from_weaken (lo lo' : nat) (l : list nat) :
  (lo' <= lo)%nat -> increasing_from lo l -> increasing_from lo' l.
Proof. destruct l as [|m r]; simpl; [auto|]. intros H [H1 H2]. split; [lia | exact H2]. Qed.

Lemma mask_increasing (lo : nat) (l : list nat) (keep : list bool) :
  increasing_from lo l -> increasing_from lo (FindPeaks.mask l keep).
Proof.
  revert lo keep. induction l as [|m r IH]; intros lo [|b keep] H; simpl; auto.
  destruct H as [H1 H2]. destruct b; simpl.
  - split; [exact H1 | apply IH; exact H2].
  - apply IH. apply (increasing_from_weaken (S m)); [lia | exact H2].
Qed.

Lemma filter_increasing (lo : nat) (f : nat -> bool) (l : list nat) :
  increasing_from lo l -> increasing_from lo (filter f l).
Proof.
  revert lo. induction l as [|m r IH]; intros lo H; simpl; auto.
  destruct H as [H1 H2]. destruct (f m); simpl.
  - split; [exact H1 | apply IH; exact H2].
  - apply IH. apply (increasing_from_weaken (S m)); [lia | exact H2].
Qed.

Lemma increasing_from_sorted (lo : nat) (l : list nat) :
  increasing_from lo l -> StronglySorted lt l /\ Forall (fun m => (lo <= m)%nat) l.
Proof.
  revert lo. induction l as [|m r IH]; intros lo H; simpl in H.
  - split; constructor.
  - destruct H as [H1 H2]. destruct (IH _ H2) as [Hs Hf]. split.
    + constructor; [exact Hs|]. eapply Forall_impl; [|exact Hf]. simpl. intros; lia.
    + constructor; [exact H1|]. eapply Forall_impl; [|exact Hf]. simpl. intros; lia.
Qed.

(** The maxima found from pointer [i] on: increasing, at least [i], each on
    a plateau that stands above both its neighbours. *)
Lemma local_maxima_from_spec (fuel : nat) (x : list Q) (i i_max : nat) :
  (i_max < length x)%nat -> (1 <= i)%nat ->
  increasing_from i (FindPeaks.local_maxima_from fuel x i i_max)
  /\ Forall (plateau_peak x) (FindPeaks.local_maxima_from fuel x i i_max).
Proof.
  intro Hmax. revert i. induction fuel as [|fuel IH]; intros i Hi;
    cbn [FindPeaks.local_maxima_from]; [split; [exact I | constructor]|].
  assert (Hnext : increasing_from i (FindPeaks.local_maxima_from fuel x (i + 1) i_max)
                  /\ Forall (plateau_peak x)
                            (FindPeaks.local_maxima_from fuel x (i + 1) i_max)).
  { destruct (IH (i + 1)%nat ltac:(lia)) as [H1 H2]. split; [|exact H2].
    apply (increasing_from_weaken (i + 1)); [lia | exact H1]. }
  destruct (i <? i_max)%nat eqn:E; [|split; [exact I | constructor]].
  apply Nat.ltb_lt in E.
  destruct (Qltb (FindPeaks.at_ x (i - 1)) (FindPeaks.at_ x i)) eqn:Eleft;
    [|exact Hnext].
  pose proof (plateau_ahead_flat (i_max - i) x (FindPeaks.at_ x i) (i + 1) i_max) as Hflat.
  pose proof (plateau_ahead_le (i_max - i) x (FindPeaks.at_ x i) (i + 1) i_max
                               ltac:(lia)) as Hle.
  pose proof (plateau_ahead_ge (i_max - i) x (FindPeaks.at_ x i) (i + 1) i_max) as Hge.
  set (i_ahead := FindPeaks.plateau_ahead (i_max - i) x (FindPeaks.at_ x i) (i + 1) i_max)
    in *.
  destruct (Qltb (FindPeaks.at_ x i_ahead) (FindPeaks.at_ x i)) eqn:Eright;
    [|exact Hnext].
  apply Qltb_lt in Eleft. apply Qltb_lt in Eright.
  assert (Hlo : (i <= (i + (i_ahead - 1)) / 2)%nat)
    by (apply Nat.div_le_lower_bound; lia).
  assert (Hhi : ((i + (i_ahead - 1)) / 2 <= i_ahead - 1)%nat)
    by (apply Nat.Div0.div_le_upper_bound; lia).
  destruct (IH (i_ahead + 1)%nat ltac:(lia)) as [Hinc Hall].
  split.
  - split; [exact Hlo|].
    apply (increasing_from_weaken (i_ahead + 1)); [lia | exact Hinc].
  - constructor; [|exact Hall].
    exists i, (i_ahead - 1)%nat.
    replace (i_ahead - 1 + 1)%nat with i_ahead by lia.
    repeat split; try lia; try assumption.
    intros j Hj. destruct (Nat.eq_dec j i) as [->|Hne]; [apply Qeq_refl|].
    apply Hflat. lia.
Qed.

Lemma find_peaks_spec (x : list Q) (distance : Z) (prom : Q) (l : list nat) :
  FindPeaks.find_peaks x distance prom = Ok l ->
  increasing_from 1 l
  /\ Forall (fun m => plateau_peak x m /\ prom <= FindPeaks.peak_prominence x m) l.
Proof.
  unfold FindPeaks.find_peaks. destruct (distance <? 1)%Z; [discriminate|].
  intro H. inversion H; subst; clear H.
  assert (Hm : increasing_from 1 (FindPeaks.local_maxima_1d x)
               /\ Forall (plateau_peak x) (FindPeaks.local_maxima_1d x)).
  { unfold FindPeaks.local_maxima_1d. destruct x as [|a x].
    - split; [exact I | constructor].
    - apply local_maxima_from_spec; [simpl; lia | lia]. }
  destruct Hm as [Hinc Hpk]. split.
  - apply filter_increasing, mask_increasing, Hinc.
  - apply Forall_forall. intros m Hm. apply filter_In in Hm. destruct Hm as [Hin Hp].
    split; [|now apply Qle_bool_iff].
    assert (Hmask : Forall (plateau_peak x)
                           (FindPeaks.mask (FindPeaks.local_maxima_1d x)
                              (FindPeaks.select_by_peak_distance
                                 (FindPeaks.local_maxima_1d x)
                                 (map (FindPeaks.at_ x) (FindPeaks.local_maxima_1d x))
                                 distance)))
      by (apply mask_Forall, Hpk).
    rewrite Forall_forall in Hmask. exact (Hmask m Hin).
Qed.

Lemma plateau_peak_interior (x : list Q) (m : nat) :
  plateau_peak x m ->
  (1 <= m)%nat /\ (m + 1 < length x)%nat
  /\ FindPeaks.at_ x (m - 1) <= FindPeaks.at_ x m
  /\ FindPeaks.at_ x (m + 1) <= FindPeaks.at_ x m.
Proof.
  intros [left [right [Hl [Hr [Hlen [Hbefore [Hafter Hflat]]]]]]].
  pose proof (Hflat m ltac:(lia)) as Hm.
  split; [lia|]. split; [lia|]. split.
  - destruct (Nat.eq_dec m left) as [->|Hne].
    + apply Qlt_le_weak. exact Hbefore.
    + rewrite (Hflat (m - 1)%nat) by lia. rewrite Hm. apply Qle_refl.
  - destruct (Nat.eq_dec m right) as [->|Hne].
    + rewrite Hm. apply Qlt_le_weak. exact Hafter.
    + rewrite (Hflat (m + 1)%nat) by lia. rewrite Hm. apply Qle_refl.
Qed.

(** A sample cannot stand on a plateau above its neighbours and on one
    below them. *)
Lemma plateau_peak_not_trough (x : list Q) (m : nat) :
  plateau_peak x m -> plateau_peak (map Qopp x) m -> False.
Proof.
  intros [l [r [Hl [Hr [Hlen [Hb [Ha Hf]]]]]]]
         [l' [r' [Hl' [Hr' [Hlen' [Hb' [Ha' Hf']]]]]]].
  rewrite !at_opp in Hb'.
  assert (Hf'' : forall j, (l' <= j <= r')%nat ->
                           FindPeaks.at_ x j == FindPeaks.at_ x l').
  { intros j Hj. specialize (Hf' j Hj). rewrite !at_opp in Hf'. lra. }
  destruct (Nat.lt_trichotomy l l') as [Hlt | [Heq | Hgt]].
  - pose proof (Hf (l' - 1)%nat ltac:(lia)) as E1.
    pose proof (Hf l' ltac:(lia)) as E2. lra.
  - subst l'. lra.
  - pose proof (Hf'' (l - 1)%nat ltac:(lia)) as E1.
    pose proof (Hf'' l ltac:(lia)) as E2. lra.
Qed.

Lemma detect_local_extrema_spec (series : list Q) (order : Z) (prom : Q)
      (troughs peaks : list nat) :
  detect_local_extrema series order prom = Ok (troughs, peaks) ->
  (increasing_from 1 peaks
   /\ Forall (fun m => plateau_peak series m
                       /\ prom <= FindPeaks.peak_prominence series m) peaks)
  /\ (increasing_from 1 troughs
      /\ Forall (fun m => plateau_peak (map Qopp series) m
                          /\ prom <= FindPeaks.peak_prominence (map Qopp series) m)
                troughs).
Proof.
  unfold detect_local_extrema. intro H.
  apply bind_ok in H. destruct H as [pk [Hp H]].
  apply bind_ok in H. destruct H as [tr [Ht H]].
  inversion H; subst; clear H.
  split; apply find_peaks_spec with (distance := order); assumption.
Qed.

(** X15: the trough and the peak indices returned for a window are each
    strictly increasing, never include the first or the last sample of the
    window, and have no index in common. *)
Theorem extrema_sorted_interior_disjoint
        (series : list Q) (order : Z) (prominence : Q) (troughs peaks : list nat) :
  detect_local_extrema series order prominence = Ok (troughs, peaks) ->
  StronglySorted lt troughs /\ StronglySorted lt peaks
  /\ Forall (fun m => (1 <= m)%nat /\ (m + 1 < length series)%nat) troughs
  /\ Forall (fun m => (1 <= m)%nat /\ (m + 1 < length series)%nat) peaks
  /\ (forall m, In m troughs -> In m peaks -> False).
Proof.
  intro H. destruct (detect_local_extrema_spec _ _ _ _ _ H)
    as [[Hpi Hpp] [Hti Htp]].
  rewrite Forall_forall in Hpp, Htp.
  split; [exact (proj1 (increasing_from_sorted _ _ Hti))|].
  split; [exact (proj1 (increasing_from_sorted _ _ Hpi))|].
  split; [|split].
  - apply Forall_forall. intros m Hm.
    destruct (plateau_peak_interior _ _ (proj1 (Htp m Hm))) as [H1 [H2 _]].
    rewrite length_map in H2. auto.
  - apply Forall_forall. intros m Hm.
    destruct (plateau_peak_interior _ _ (proj1 (Hpp m Hm))) as [H1 [H2 _]]. auto.
  - intros m Ht Hp.
    exact (plateau_peak_not_trough series m (proj1 (Hpp m Hp)) (proj1 (Htp m Ht))).
Qed.

(** X16: every peak returned is a local maximum of the window, its close
    is at least the close before it and the close after it, and every trough
    a local minimum; and each has at least the prominence asked for, measured
    on the window for a peak and on the negated window for a trough. *)
Theorem extrema_are_local_extrema
        (series : list Q) (order : Z) (prominence : Q) (troughs peaks : list nat) :
  detect_local_extrema series order prominence = Ok (troughs, peaks) ->
  Forall (fun m => FindPeaks.at_ series (m - 1) <= FindPeaks.at_ series m
                   /\ FindPeaks.at_ series (m + 1) <= FindPeaks.at_ series m
                   /\ prominence <= FindPeaks.peak_prominence series m) peaks
  /\ Forall (fun m => FindPeaks.at_ series m <= FindPeaks.at_ series (m - 1)
                      /\ FindPeaks.at_ series m <= FindPeaks.at_ series (m + 1)
                      /\ prominence <= FindPeaks.peak_prominence (map Qopp series) m)
            troughs.
Proof.
  intro H. destruct (detect_local_extrema_spec _ _ _ _ _ H)
    as [[_ Hpp] [_ Htp]].
  split.
  - eapply Forall_impl; [|exact Hpp]. intros m [Hpk Hprom].
    destruct (plateau_peak_interior _ _ Hpk) as [_ [_ [H1 H2]]]. auto.
  - eapply Forall_impl; [|exact Htp]. intros m [Hpk Hprom].
    destruct (plateau_peak_interior _ _ Hpk) as [_ [_ [H1 H2]]].
    rewrite !at_opp in H1, H2. repeat split; [lra | lra | exact Hprom].
Qed.

(** ** The distance selection *)

Lemma nth_set_false (k i : nat) (keep : list bool) :
  nth i (FindPeaks.set_false k keep) false = true
  <-> nth i keep false = true /\ i <> k.
Proof.
  revert k i. induction keep as [|b r IH]; intros k i.
  - destruct k, i; simpl; (split; [discriminate | intros [H _]; discriminate]).
  - destruct k as [|k], i as [|i]; simpl.
    + split; [discriminate | intros [_ H]; now elim H].
    + split; [intro H; split; [exact H | discriminate] | intros [H _]; exact H].
    + split; [intro H; split; [exact H | discriminate] | intros [H _]; exact H].
    + rewrite IH. split; intros [H1 H2]; split; auto.
Qed.

Lemma increasing_from_lower (lo : nat) (l : list nat) (b : nat) :
  increasing_from lo l -> (b < length l)%nat -> (lo <= nth b l 0)%nat.
Proof.
  revert lo b. induction l as [|m r IH]; intros lo b H Hb; simpl in Hb; [lia|].
  destruct H as [H1 H2]. destruct b as [|b]; simpl; [exact H1|].
  specialize (IH (S m) b H2 ltac:(lia)). lia.
Qed.

Lemma increasing_from_nth (lo : nat) (l : list nat) (a b : nat) :
  increasing_from lo l -> (a < b < length l)%nat -> (nth a l 0 < nth b l 0)%nat.
Proof.
  revert lo a b. induction l as [|m r IH]; intros lo a b H Hab; simpl in Hab; [lia|].
  destruct H as [H1 H2]. destruct b as [|b]; [lia|]. destruct a as [|a]; simpl.
  - pose proof (increasing_from_lower (S m) r b H2 ltac:(lia)). lia.
  - apply (IH (S m)); [exact H2 | lia].
Qed.

Section DistanceSelection.

Variable peaks : list nat.
Variable distance : Z.
Hypothesis peaks_increasing : increasing_from 1 peaks.

Local Abbreviation pk := (FindPeaks.peak_at peaks).
Local Abbreviation select_turn := (select_turn peaks distance).
Local Abbreviation separated := (separated peaks distance).

Lemma peak_at_mono (a b : nat) : (a <= b < length peaks)%nat -> (pk a <= pk b)%Z.
Proof.
  intro H. unfold FindPeaks.peak_at.
  destruct (Nat.eq_dec a b) as [->|Hne]; [lia|].
  pose proof (increasing_from_nth 1 peaks a b peaks_increasing ltac:(lia)). lia.
Qed.

Lemma peak_at_strict (a b : nat) : (a < b < length peaks)%nat -> (pk a < pk b)%Z.
Proof.
  intro H. unfold FindPeaks.peak_at.
  pose proof (increasing_from_nth 1 peaks a b peaks_increasing H). lia.
Qed.

Lemma flag_earlier_spec (pj : Z) (k1 : nat) (keep : list bool) (i : nat) :
  (k1 <= length peaks)%nat ->
  (nth i (FindPeaks.flag_earlier peaks pj distance k1 keep) false = true
   <-> nth i keep false = true /\ ~ ((i < k1)%nat /\ (pj - pk i < distance)%Z)).
Proof.
  revert keep. induction k1 as [|k IH]; intros keep Hk; simpl.
  - split; [intro H; split; [exact H | lia] | tauto].
  - destruct (pj - FindPeaks.peak_at peaks k <? distance)%Z eqn:E.
    + apply Z.ltb_lt in E. rewrite IH by lia. rewrite nth_set_false.
       split.
      * intros [[H1 H2] H3]. split; [exact H1|]. intros [H4 H5].
        apply H3. split; [lia | exact H5].
      * intros [H1 H2]. split; [split; [exact H1|]|].
        -- intro Hik. subst i. apply H2. split; [lia | exact E].
        -- intros [H4 H5]. apply H2. split; [lia | exact H5].
    + apply Z.ltb_ge in E.  split; [|tauto].
      intro H. split; [exact H|]. intros [H4 H5].
      pose proof (peak_at_mono i k ltac:(lia)). lia.
Qed.

Lemma flag_later_spec (fuel : nat) (pj : Z) (k : nat) (keep : list bool) (i : nat) :
  (length peaks <= k + fuel)%nat ->
  (nth i (FindPeaks.flag_later fuel peaks pj distance k keep) false = true
   <-> nth i keep false = true
       /\ ~ ((k <= i < length peaks)%nat /\ (pk i - pj < distance)%Z)).
Proof.
  revert k keep. induction fuel as [|fuel IH]; intros k keep Hk; simpl.
  - split; [intro H; split; [exact H | lia] | tauto].
  - destruct (k <? length peaks)%nat eqn:Ek; simpl.
    + apply Nat.ltb_lt in Ek.
      destruct (FindPeaks.peak_at peaks k - pj <? distance)%Z eqn:E.
      * apply Z.ltb_lt in E.  rewrite IH by lia. rewrite nth_set_false.
        split.
        -- intros [[H1 H2] H3]. split; [exact H1|]. intros [H4 H5].
           apply H3. split; [lia | exact H5].
        -- intros [H1 H2]. split; [split; [exact H1|]|].
           ++ intro Hik. subst i. apply H2. split; [lia | exact E].
           ++ intros [H4 H5]. apply H2. split; [lia | exact H5].
      * apply Z.ltb_ge in E.  split; [|tauto].
        intro H. split; [exact H|]. intros [H4 H5].
        pose proof (peak_at_mono k i ltac:(lia)). lia.
    + apply Nat.ltb_ge in Ek. split; [|tauto].
      intro H. split; [exact H | lia].
Qed.

Lemma select_turn_spec (keep : list bool) (j i : nat) :
  (j < length peaks)%nat -> nth j keep false = true ->
  (nth i (select_turn keep j) false = true
   <-> nth i keep false = true
       /\ (i = j \/ (length peaks <= i)%nat \/ (distance <= Z.abs (pk i - pk j))%Z)).
Proof.
  intros Hj Hkeep. unfold select_turn. rewrite Hkeep. cbv zeta.
  rewrite flag_later_spec by lia. rewrite flag_earlier_spec by lia. 
  split.
  - intros [[H1 H2] H3]. split; [exact H1|].
    destruct (Nat.lt_trichotomy i j) as [Hlt | [Heq | Hgt]]; [|auto|].
    + right; right. pose proof (peak_at_mono i j ltac:(lia)).
      assert (~ (pk j - pk i < distance)%Z) by (intro; apply H2; auto). lia.
    + destruct (Nat.lt_ge_cases i (length peaks)) as [Hin|Hout]; [|auto].
      right; right. pose proof (peak_at_mono j i ltac:(lia)).
      assert (~ (pk i - pk j < distance)%Z) by (intro; apply H3; split; [lia|auto]). lia.
  - intros [H1 H2]. split; [split; [exact H1|]|].
    + intros [H4 H5]. pose proof (peak_at_mono i j ltac:(lia)).
      destruct H2 as [H2 | [H2 | H2]]; lia.
    + intros [H4 H5]. pose proof (peak_at_mono j i ltac:(lia)).
      destruct H2 as [H2 | [H2 | H2]]; lia.
Qed.

Lemma select_turn_decreasing (keep : list bool) (j i : nat) :
  (j < length peaks)%nat ->
  nth i (select_turn keep j) false = true -> nth i keep false = true.
Proof.
  intros Hj H. destruct (nth j keep false) eqn:E.
  - apply (select_turn_spec keep j i Hj E) in H. tauto.
  - unfold select_turn in H. now rewrite E in H.
Qed.

Lemma select_fold_separated (js done : list nat) (keep : list bool) :
  (forall j, In j js -> (j < length peaks)%nat) ->
  separated done keep ->
  separated (rev js ++ done) (fold_left select_turn js keep)
  /\ (forall i, nth i (fold_left select_turn js keep) false = true ->
                nth i keep false = true).
Proof.
  revert done keep. induction js as [|j js IH]; intros done keep Hjs Hsep;
    cbn [fold_left rev].
  - split; [exact Hsep | auto].
  - assert (Hj : (j < length peaks)%nat) by (apply Hjs; left; reflexivity).
    assert (Hsep1 : separated (j :: done) (select_turn keep j)).
    { intros a b Ha Hka Hkb Hne Hb. destruct Ha as [<-|Ha].
      - destruct (nth j keep false) eqn:E.
        + apply (select_turn_spec keep j b Hj E) in Hkb.
          destruct Hkb as [_ [H|[H|H]]]; [contradiction | lia | exact H].
        + unfold select_turn in Hka. rewrite E in Hka. congruence.
      - apply (Hsep a b Ha); try assumption;
          apply (select_turn_decreasing keep j); assumption. }
    destruct (IH (j :: done) (select_turn keep j)) as [H1 H2];
      [intros j' Hj'; apply Hjs; right; exact Hj' | exact Hsep1 |].
    split.
    + rewrite <- app_assoc. exact H1.
    + intros i Hi. eapply select_turn_decreasing; [exact Hj|]. apply H2, Hi.
Qed.

End DistanceSelection.

Lemma insert_by_In (prio : nat -> Q) (j x : nat) (l : list nat) :
  In x (FindPeaks.insert_by prio j l) <-> j = x \/ In x l.
Proof.
  induction l as [|k l IH]; simpl; [tauto|].
  destruct (Qltb (prio j) (prio k)); simpl; [tauto|]. rewrite IH. tauto.
Qed.

Lemma argsort_fold_In (prio : nat -> Q) (js acc : list nat) (x : nat) :
  In x (fold_left (fun acc j => FindPeaks.insert_by prio j acc) js acc)
  <-> In x js \/ In x acc.
Proof.
  revert acc. induction js as [|j js IH]; intro acc; simpl; [tauto|].
  rewrite IH, insert_by_In. tauto.
Qed.

(** The sort visits every position once listed. *)
Lemma argsort_In (priority : list Q) (x : nat) :
  In x (FindPeaks.argsort priority) <-> (x < length priority)%nat.
Proof.
  unfold FindPeaks.argsort. rewrite argsort_fold_In, in_seq. simpl. split.
  - intros [H|[]]. lia.
  - intro H. left. lia.
Qed.

Lemma mask_In (l : list nat) (keep : list bool) (m : nat) :
  In m (FindPeaks.mask l keep) ->
  exists k, (k < length l)%nat /\ nth k l 0%nat = m /\ nth k keep false = true.
Proof.
  revert keep. induction l as [|a l IH]; intros [|b keep] H; simpl in H;
    try contradiction.
  destruct b.
  - destruct H as [<-|H].
    + exists 0%nat. simpl. repeat split. lia.
    + destruct (IH _ H) as [k [Hk [Hm Hb]]]. exists (S k). simpl.
      repeat split; auto. lia.
  - destruct (IH _ H) as [k [Hk [Hm Hb]]]. exists (S k). simpl.
    repeat split; auto. lia.
Qed.

Lemma find_peaks_distance (x : list Q) (distance : Z) (prom : Q) (l : list nat) :
  FindPeaks.find_peaks x distance prom = Ok l ->
  forall m m', In m l -> In m' l -> m <> m' ->
               (distance <= Z.abs (Z.of_nat m' - Z.of_nat m))%Z.
Proof.
  unfold FindPeaks.find_peaks. destruct (distance <? 1)%Z; [discriminate|].
  intro H. inversion H; subst; clear H. intros m m' Hm Hm' Hne.
  apply filter_In in Hm. apply filter_In in Hm'.
  destruct Hm as [Hm _]. destruct Hm' as [Hm' _].
  set (peaks := FindPeaks.local_maxima_1d x) in *.
  assert (Hinc : increasing_from 1 peaks).
  { unfold peaks, FindPeaks.local_maxima_1d. destruct x as [|a x]; [exact I|].
    apply local_maxima_from_spec; [simpl; lia | lia]. }
  set (priority := map (FindPeaks.at_ x) peaks) in *.
  destruct (select_fold_separated peaks distance Hinc
              (rev (FindPeaks.argsort priority)) []
              (repeat true (length peaks))) as [Hsep _].
  { intros j Hj. apply in_rev in Hj. apply argsort_In in Hj.
    unfold priority in Hj. now rewrite length_map in Hj. }
  { intros a b []. }
  rewrite rev_involutive, app_nil_r in Hsep.
  change (fold_left (select_turn peaks distance) (rev (FindPeaks.argsort priority))
                    (repeat true (length peaks)))
    with (FindPeaks.select_by_peak_distance peaks priority distance) in Hsep.
  destruct (mask_In _ _ _ Hm) as [k [Hk [Ek Kk]]].
  destruct (mask_In _ _ _ Hm') as [k' [Hk' [Ek' Kk']]].
  assert (Hkk : k' <> k) by (intro; subst; congruence).
  assert (Hin : In k (FindPeaks.argsort priority)).
  { apply argsort_In. unfold priority. now rewrite length_map. }
  pose proof (Hsep k k' Hin Kk Kk' Hkk Hk') as D.
  unfold FindPeaks.peak_at in D. rewrite Ek, Ek' in D. exact D.
Qed.

(** X17: [order] is the least spacing of the extrema returned: any two
    different peaks of a window are at least [order] samples apart, and so
    are any two different troughs. *)
Theorem extrema_at_least_order_apart
        (series : list Q) (order : Z) (prominence : Q) (troughs peaks : list nat) :
  detect_local_extrema series order prominence = Ok (troughs, peaks) ->
  (forall m m', In m peaks -> In m' peaks -> m <> m' ->
                (order <= Z.abs (Z.of_nat m' - Z.of_nat m))%Z)
  /\ (forall m m', In m troughs -> In m' troughs -> m <> m' ->
                   (order <= Z.abs (Z.of_nat m' - Z.of_nat m))%Z).
Proof.
  unfold detect_local_extrema. intro H.
  apply bind_ok in H. destruct H as [pk [Hp H]].
  apply bind_ok in H. destruct H as [tr [Ht H]].
  inversion H; subst; clear H.
  split; [exact (find_peaks_distance _ _ _ _ Hp) | exact (find_peaks_distance _ _ _ _ Ht)].
Qed.

(** * Further properties of the tracker *)

Section TrackerFacts.

Variable rng : Type.
Variable fit : rng -> nat -> list Q -> list Q -> rng * result RANSACModel.

Lemma candidate_info_shape (p : Params) (g g' : rng) (dates : list Timestamp)
      (prices : list Q) (idx : list nat) (c : trend_info) :
  candidate_info rng fit p g dates prices idx = Ok (c, g') ->
  used_points c = idx /\ ((model c = None /\ slope c = 0) \/ fitted c).
Proof.
  unfold candidate_info, trendline_from_extrema.
  destruct (len_ge idx (min_points_for_trend p)).
  - destruct (length idx <? 2)%nat eqn:E.
    + intro H. inversion H; subst. simpl. auto.
    + apply Nat.ltb_ge in E. intro H.
      apply bind_ok in H. destruct H as [[[[m b] mdl] g1] [Hf H]].
      inversion H; subst; clear H. simpl. split; [reflexivity|]. right.
      unfold fit_trendline_ransac in Hf.
      destruct (length (map (fun i => time_x (iloc epoch dates i)) idx) <? 2)%nat;
        [discriminate|].
      destruct (fit g _ _ _) as [g2 r]. destruct r as [m0|e]; [|discriminate].
      simpl in Hf. inversion Hf; subst.
      exists mdl. simpl. auto.
  - intro H. inversion H; subst. simpl. auto.
Qed.

Lemma candidates_shape (p : Params) (df : DataFrame) (i : nat) (g g' : rng)
      (sup res : trend_info) :
  candidates rng fit p df i g = Ok (sup, res, g') ->
  ((model sup = None /\ slope sup = 0) \/ fitted sup)
  /\ ((model res = None /\ slope res = 0) \/ fitted res)
  /\ Forall (fun j => (j <= i)%nat) (used_points sup)
  /\ Forall (fun j => (j <= i)%nat) (used_points res).
Proof.
  unfold candidates. intro H.
  set (start_idx := Z.to_nat (Z.max 0 (Z.of_nat i - rebalance_bars p * 6))) in *.
  apply bind_ok in H. destruct H as [[troughs peaks] [Hd H]].
  apply bind_ok in H. destruct H as [[s1 g1] [Hs H]].
  apply bind_ok in H. destruct H as [[r1 g2] [Hr H]].
  inversion H; subst; clear H.
  destruct (candidate_info_shape _ _ _ _ _ _ _ Hs) as [Us Ss].
  destruct (candidate_info_shape _ _ _ _ _ _ _ Hr) as [Ur Sr].
  apply detect_local_extrema_bound in Hd. destruct Hd as [Ht Hp].
  pose proof (window_slice_length (map Close df) start_idx i) as Hlen.
  split; [exact Ss|]. split; [exact Sr|].
  rewrite Us, Ur. split; rewrite Forall_map;
    (eapply Forall_impl; [|eassumption]); simpl; intros; lia.
Qed.

Lemma update_trend_matches (p : Params) (d : Timestamp) (sup res : trend_info)
      (t : tracker) :
  ((model sup = None /\ slope sup = 0) \/ fitted sup) ->
  ((model res = None /\ slope res = 0) \/ fitted res) ->
  last_trend t = active_trend t ->
  info_matches p (active_trend t) (active_trend_info t) ->
  info_matches p (active_trend (update_trend p d sup res t))
               (active_trend_info (update_trend p d sup res t)).
Proof.
  intros Hs Hr Hl Hm. unfold update_trend, uptrend_qualifies, downtrend_qualifies.
  destruct (Qgtb (slope sup) 0 && len_ge (used_points sup) (min_points_for_trend p))
           eqn:Eu;
    destruct (Qltb (slope res) 0 && len_ge (used_points res) (min_points_for_trend p))
             eqn:Ed; simpl.
  - rewrite Hl. destruct (active_trend t); [exact Hm | reflexivity].
  - apply andb_prop in Eu. destruct Eu as [E1 E2].
    apply Qltb_lt in E1. apply Z.leb_le in E2.
    destruct Hs as [[_ H0] | Hf]; [rewrite H0 in E1; exfalso; exact (Qlt_irrefl 0 E1)|].
    repeat split; assumption.
  - apply andb_prop in Ed. destruct Ed as [E1 E2].
    apply Qltb_lt in E1. apply Z.leb_le in E2.
    destruct Hr as [[_ H0] | Hf]; [rewrite H0 in E1; exfalso; exact (Qlt_irrefl 0 E1)|].
    repeat split; assumption.
  - rewrite Hl. destruct (active_trend t); [exact Hm | reflexivity].
Qed.

Lemma run_bars_info_matches (p : Params) (df : DataFrame) (g : rng) (k : nat) (s : sim rng) :
  run_bars rng fit p df g k = Ok s ->
  info_matches p (active_trend (trk rng s)) (active_trend_info (trk rng s))
  /\ Forall (fun j => (j < k)%nat) (used_points (active_trend_info (trk rng s))).
Proof.
  revert s. induction k as [|k IH]; intros s Hrun.
  - inversion Hrun; subst. simpl. split; [reflexivity | constructor].
  - apply run_bars_succ in Hrun. destruct Hrun as [s0 [H0 Hstep]].
    destruct (IH _ H0) as [Hm Hu].
    destruct (run_bars_tracker_ok _ _ _ _ _ _ _ H0) as [Hl _].
    destruct (step_inv _ _ _ _ _ _ _ Hstep) as [sup [res [g' [Hc [Ht _]]]]].
    destruct (candidates_shape _ _ _ _ _ _ _ Hc) as [Ss [Sr [Fs Fr]]].
    rewrite Ht. split; [now apply update_trend_matches|].
    unfold update_trend.
    destruct (uptrend_qualifies p sup && negb (downtrend_qualifies p res)).
    { simpl. eapply Forall_impl; [|exact Fs]. simpl. intros; lia. }
    destruct (downtrend_qualifies p res && negb (uptrend_qualifies p sup)).
    { simpl. eapply Forall_impl; [|exact Fr]. simpl. intros; lia. }
    simpl. destruct (last_trend (trk rng s0)).
    + eapply Forall_impl; [|exact Hu]. simpl. intros; lia.
    + constructor.
Qed.

(** X18: the active trend info always fits the active trend.  After any
    number of bars: with no trend the info is the empty one; with an uptrend
    it holds a fitted model whose slope is strictly positive, with a downtrend
    one whose slope is strictly negative; a fitted info repeats its model's
    slope and intercept and rests on at least two basis points, at least
    [min_points_for_trend] of them, all of them bars already run.  So the
    trendline price is defined at every bar that has an active trend. *)
Theorem active_info_matches_trend
        (p : Params) (df : DataFrame) (g : rng) (k : nat) (s : sim rng) :
  run_bars rng fit p df g k = Ok s ->
  info_matches p (active_trend (trk rng s)) (active_trend_info (trk rng s))
  /\ Forall (fun j => (j < k)%nat) (used_points (active_trend_info (trk rng s)))
  /\ (active_trend (trk rng s) <> None ->
      forall d, trendline_price_at (active_trend_info (trk rng s)) d <> None).
Proof.
  intro Hrun.
  destruct (run_bars_info_matches p df g k s Hrun) as [Hm Hu].
  split; [exact Hm|]. split; [exact Hu|].
  intros Hne d. unfold info_matches in Hm.
  destruct (active_trend (trk rng s)) as [t|]; [|congruence].
  destruct Hm as [[m [Hmod _]] _].
  unfold trendline_price_at, line_value_at. rewrite Hmod. discriminate.
Qed.

(** A ledger starts with an entry, and is empty while no trend has been
    established. *)
Lemma run_bars_first_row (p : Params) (df : DataFrame) (g : rng) (k : nat) (s : sim rng) :
  run_bars rng fit p df g k = Ok s ->
  (trades (acct rng s) = [] -> position (acct rng s) = 0%Z)
  /\ (forall t ts, trades (acct rng s) = t :: ts -> is_entry t = true)
  /\ (trades (acct rng s) <> [] -> active_trend (trk rng s) <> None).
Proof.
  revert s. induction k as [|k IH]; intros s Hrun.
  - inversion Hrun; subst. simpl. split; [auto|]. split; [discriminate | congruence].
  - apply run_bars_succ in Hrun. destruct Hrun as [s0 [H0 Hstep]].
    destruct (IH _ H0) as [Hflat [Hfirst Htrend]].
    destruct (run_bars_tracker_ok _ _ _ _ _ _ _ H0) as [Hl _].
    destruct (step_inv _ _ _ _ _ _ _ Hstep) as [sup [res [g' [_ [Ht [_ Ha]]]]]].
    assert (Hkeep : active_trend (trk rng s0) <> None -> active_trend (trk rng s) <> None).
    { intro Hne. rewrite Ht. apply update_trend_keeps_some. congruence. }
    rewrite Ha. unfold trade_bar. simpl.
    destruct (trade_logic_cases (touch_tolerance p) (active_trend (trk rng s))
                (trendline_price_at (active_trend_info (trk rng s)) (date_at df k))
                (date_at df k) (close_at df k) (acct rng s0))
      as [E | [[P [U [_ E]]] | [[P [U [_ E]]] | [[P [_ E]] | [P [_ E]]]]]];
      rewrite E; simpl.
    + split; [exact Hflat|]. split; [exact Hfirst | auto].
    + split; [intro Hn; destruct (trades (acct rng s0)); discriminate|]. split.
      * intros t ts Hts. destruct (trades (acct rng s0)) as [|t0 ts0] eqn:E0.
        -- inversion Hts; subst. reflexivity.
        -- inversion Hts; subst. exact (Hfirst t ts0 eq_refl).
      * intros _ Hn. rewrite Hn in U. discriminate.
    + split; [intro Hn; destruct (trades (acct rng s0)); discriminate|]. split.
      * intros t ts Hts. destruct (trades (acct rng s0)) as [|t0 ts0] eqn:E0.
        -- inversion Hts; subst. reflexivity.
        -- inversion Hts; subst. exact (Hfirst t ts0 eq_refl).
      * intros _ Hn. rewrite Hn in U. discriminate.
    + split; [reflexivity|]. split.
      * intros t ts Hts. destruct (trades (acct rng s0)) as [|t0 ts0] eqn:E0.
        -- specialize (Hflat eq_refl). lia.
        -- inversion Hts; subst. exact (Hfirst t ts0 eq_refl).
      * intros _. apply Hkeep, Htrend.
        intro Hn. specialize (Hflat Hn). lia.
    + split; [reflexivity|]. split.
      * intros t ts Hts. destruct (trades (acct rng s0)) as [|t0 ts0] eqn:E0.
        -- specialize (Hflat eq_refl). lia.
        -- inversion Hts; subst. exact (Hfirst t ts0 eq_refl).
      * intros _. apply Hkeep, Htrend.
        intro Hn. specialize (Hflat Hn). lia.
Qed.

End TrackerFacts.

(** * What a returning backtest looks like *)

Section BacktestFacts.

Variable rng : Type.
Variable fit : rng -> nat -> list Q -> list Q -> rng * result RANSACModel.

Lemma run_bars_prefix_ok (p : Params) (df : DataFrame) (g : rng) (k j : nat) (s : sim rng) :
  run_bars rng fit p df g k = Ok s -> (j <= k)%nat ->
  exists s', run_bars rng fit p df g j = Ok s'.
Proof.
  revert s. induction k as [|k IH]; intros s H Hj.
  - replace j with 0%nat by lia. eauto.
  - destruct (Nat.eq_dec j (S k)) as [->|Hne]; [eauto|].
    apply run_bars_succ in H. destruct H as [s0 [H0 _]].
    apply (IH s0 H0). lia.
Qed.

(** X19: what a caller can rely on when [backtest_trendline_strategy]
    returns: the frame has at least three bars and the order is at least 1;
    the equity series has one value per bar and starts at the initial 100000;
    the ledger is not empty and its first row is an entry, a buy or a short
    sale; and the returned trend info is a fitted line. *)
Theorem backtest_returns_shape
        (g : rng) (df : DataFrame) (p : Params) (out : backtest_out rng) :
  backtest_trendline_strategy rng fit g df p = Ok out ->
  (3 <= length df)%nat /\ (1 <= order p)%Z
  /\ length (out_equity rng out) = length df
  /\ nth 0 (out_equity rng out) 0 = 100000
  /\ (exists t ts, out_trades rng out = t :: ts /\ is_entry t = true)
  /\ fitted (out_info rng out).
Proof.
  intro H. pose proof H as Hback.
  unfold backtest_trendline_strategy in H.
  apply bind_ok in H. destruct H as [s [Hrun H]].
  destruct (trades (acct rng s)) as [|t ts] eqn:Et; [discriminate|].
  inversion H; subst; clear H. simpl.
  assert (Hord : (1 <= order p)%Z).
  { destruct (Z.lt_ge_cases (order p) 1) as [Hlt|Hge]; [|exact Hge]. exfalso.
    destruct df as [|b df].
    - inversion Hrun; subst. discriminate.
    - destruct (run_bars_prefix_ok p (b :: df) g _ 1 s Hrun ltac:(simpl; lia))
        as [s1 H1].
      apply run_bars_succ in H1. destruct H1 as [s0 [_ Hstep]].
      unfold step, candidates, detect_local_extrema, FindPeaks.find_peaks in Hstep.
      destruct (order p <? 1)%Z eqn:E; [discriminate|].
      apply Z.ltb_ge in E. lia. }
  assert (Hlen : (3 <= length df)%nat).
  { destruct (Nat.lt_ge_cases (length df) 3) as [Hlt|Hge]; [|exact Hge]. exfalso.
    rewrite (backtest_without_extrema rng fit p df g
               (short_frame_no_extrema p df Hlt Hord)) in Hback.
    discriminate. }
  split; [exact Hlen|]. split; [exact Hord|].
  destruct (run_bars_equity_length _ _ _ _ _ _ _ Hrun) as [Heq _].
  split; [exact Heq|]. split; [|split].
  - destruct (run_bars_prefix_ok p df g _ 1 s Hrun ltac:(lia)) as [s1 H1].
    assert (Hno : detect_local_extrema (window_at p df 0) (order p) (prominence p)
                  = Ok ([], [])).
    { unfold detect_local_extrema.
      assert (Hw : (length (window_at p df 0) <= 1)%nat).
      { unfold window_at. pose proof (window_slice_length (map Close df)
          (Z.to_nat (Z.max 0 (Z.of_nat 0 - rebalance_bars p * 6))) 0). lia. }
      rewrite find_peaks_short by (assumption || lia). cbn [bind].
      rewrite find_peaks_short; [reflexivity | rewrite length_map; lia | assumption]. }
    pose proof (step_no_extrema rng fit p df 0 g Hno) as Hs1.
    change (run_bars rng fit p df g 1)
      with (step rng fit p df 0%nat (initial_sim rng g)) in H1.
    change (initial_sim rng g)
      with {| trk := initial_tracker; acct := untouched_account 0; gen := g |} in H1.
    rewrite Hs1 in H1. inversion H1; subst s1; clear H1.
    assert (Hpre : forall k s', (1 <= k)%nat -> run_bars rng fit p df g k = Ok s' ->
                                nth 0 (equity (acct rng s')) 0 = 100000).
    { induction k as [|k IH]; intros s' Hk Hr; [lia|].
      destruct (Nat.eq_dec k 0) as [->|Hk0].
      - change (run_bars rng fit p df g 1)
          with (step rng fit p df 0%nat
                     {| trk := initial_tracker; acct := untouched_account 0; gen := g |})
          in Hr.
        rewrite Hs1 in Hr. inversion Hr; subst. reflexivity.
      - apply run_bars_succ in Hr. destruct Hr as [s0 [H0 Hstep]].
        pose proof (IH s0 ltac:(lia) H0) as Hfirst.
        destruct (run_bars_equity_length _ _ _ _ _ _ _ H0) as [Hl0 _].
        destruct (step_inv _ _ _ _ _ _ _ Hstep) as [sup [res [g' [_ [_ [_ Ha]]]]]].
        rewrite Ha. unfold trade_bar. simpl.
        assert (Heq0 : equity (trade_logic (touch_tolerance p) (active_trend (trk rng s'))
                         (trendline_price_at (active_trend_info (trk rng s')) (date_at df k))
                         (date_at df k) (close_at df k) (acct rng s0))
                       = equity (acct rng s0)).
        { destruct (trade_logic_cases (touch_tolerance p) (active_trend (trk rng s'))
                      (trendline_price_at (active_trend_info (trk rng s')) (date_at df k))
                      (date_at df k) (close_at df k) (acct rng s0))
            as [E | [[_ [_ [_ E]]] | [[_ [_ [_ E]]] | [[_ [_ E]] | [_ [_ E]]]]]];
            rewrite E; reflexivity. }
        rewrite Heq0, app_nth1 by lia. exact Hfirst. }
    apply (Hpre (length df) s); [lia | exact Hrun].
  - destruct (run_bars_first_row rng fit p df g _ s Hrun) as [_ [Hfirst _]].
    exists t, ts. split; [reflexivity | exact (Hfirst t ts Et)].
  - destruct (run_bars_first_row rng fit p df g _ s Hrun) as [_ [_ Htrend]].
    destruct (run_bars_info_matches rng fit p df g _ s Hrun) as [Hm _].
    assert (Hne : active_trend (trk rng s) <> None)
      by (apply Htrend; rewrite Et; discriminate).
    unfold info_matches in Hm.
    destruct (active_trend (trk rng s)); [exact (proj1 Hm) | congruence].
Qed.

End BacktestFacts.

(** * Properties of the weekly bot's target weights *)

Module SharpeBotFacts.

Import SharpeBot.

Lemma fold_left_Qplus (l : list Q) (a : Q) : fold_left Qplus l a == a + Qsum l.
Proof.
  revert a. induction l as [|v l IH]; intro a; simpl; [ring|].
  rewrite IH. ring.
Qed.

Lemma sum_values_Qsum (w : weights) : sum_values w == Qsum (map snd w).
Proof. unfold sum_values. rewrite fold_left_Qplus. ring. Qed.

Lemma insert_desc_In (x y : String.string * Q) (l : weights) :
  In y (insert_desc x l) <-> x = y \/ In y l.
Proof.
  induction l as [|z l IH]; simpl; [tauto|].
  destruct (Qltb (snd x) (snd z)); simpl; [|tauto]. rewrite IH. tauto.
Qed.

Lemma sorted_desc_In (y : String.string * Q) (w : weights) :
  In y (sorted_desc w) <-> In y w.
Proof.
  induction w as [|x w IH]; simpl; [tauto|].
  rewrite insert_desc_In, IH. tauto.
Qed.

Lemma insert_desc_sorted (x : String.string * Q) (l : weights) :
  StronglySorted heavier l -> StronglySorted heavier (insert_desc x l).
Proof.
  intro H. induction H as [|z l Hl IH Hz]; simpl.
  - constructor; constructor.
  - destruct (Qltb (snd x) (snd z)) eqn:E.
    + apply Qltb_lt in E. constructor; [exact IH|].
      apply Forall_forall. intros y Hy. apply insert_desc_In in Hy.
      destruct Hy as [<-|Hy]; [unfold heavier; lra|].
      rewrite Forall_forall in Hz. exact (Hz y Hy).
    + apply Qltb_false in E. constructor; [constructor; assumption|].
      constructor; [exact E|].
      eapply Forall_impl; [|exact Hz]. unfold heavier. intros; lra.
Qed.

Lemma sorted_desc_sorted (w : weights) : StronglySorted heavier (sorted_desc w).
Proof.
  induction w as [|x w IH]; simpl; [constructor | now apply insert_desc_sorted].
Qed.

Lemma filter_sorted {A : Type} (R : A -> A -> Prop) (f : A -> bool) (l : list A) :
  StronglySorted R l -> StronglySorted R (filter f l).
Proof.
  intro H. induction H as [|a l Hl IH Ha]; simpl; [constructor|].
  destruct (f a); [|exact IH].
  constructor; [exact IH|]. now apply filter_Forall.
Qed.

Lemma Qsum_nonneg (l : list Q) : Forall (fun v => 0 <= v) l -> 0 <= Qsum l.
Proof.
  intro H. induction H as [|v l Hv Hl IH]; simpl; lra.
Qed.

Lemma Qsum_bounds_member (l : list Q) (v : Q) :
  Forall (fun v => 0 <= v) l -> In v l -> v <= Qsum l.
Proof.
  intro H. induction H as [|a l Ha Hl IH]; simpl; [contradiction|].
  pose proof (Qsum_nonneg l Hl).
  intros [<-|Hin]; [lra | specialize (IH Hin); lra].
Qed.

Lemma kept_In (clean_weights : weights) (kv : String.string * Q) :
  In kv (kept clean_weights) <-> In kv clean_weights /\ ~ snd kv == 0.
Proof.
  unfold kept. rewrite filter_In, sorted_desc_In, negb_true_iff.
  split; intros [H1 H2]; split; auto.
  - intro H. apply Qeq_bool_iff in H. congruence.
  - destruct (Qeq_bool (snd kv) 0) eqn:E; [|reflexivity].
    apply Qeq_bool_iff in E. contradiction.
Qed.

Lemma makeOneIteration_inv (e1 e2 : bool) (w w' : weights) :
  makeOneIteration e1 e2 w = Rebalanced w' ->
  e1 = false /\ e2 = false /\ kept w <> []
  /\ ~ sum_values (kept w) == 0
  /\ w' = map (fun kv => (fst kv, snd kv / sum_values (kept w))) (kept w).
Proof.
  unfold makeOneIteration. fold (kept w).
  destruct e1; [discriminate|]. destruct e2; [discriminate|].
  destruct (kept w) as [|kv r] eqn:E; [discriminate|].
  destruct (Qeq_bool (sum_values (kv :: r)) 0) eqn:Et; [discriminate|].
  intro H. inversion H; subst. repeat split; try discriminate.
  intro H0. apply Qeq_bool_iff in H0. congruence.
Qed.

(** X20: with the non-negative weights the optimizer's bounds give,
    whenever [rebalancePortfolio] is called the data frames were not empty
    and the targets name exactly the symbols the optimizer gave a non-zero
    weight, once each symbol the sorted and filtered weights list and in
    their order. *)
Theorem targets_are_the_non_zero_symbols (data_long_empty df_empty : bool)
        (clean_weights normalized_weights : weights) :
  Forall (fun kv => 0 <= snd kv) clean_weights ->
  makeOneIteration data_long_empty df_empty clean_weights
  = Rebalanced normalized_weights ->
  data_long_empty = false /\ df_empty = false
  /\ normalized_weights <> []
  /\ map fst normalized_weights = map fst (kept clean_weights)
  /\ (forall symbol,
         In symbol (map fst normalized_weights)
         <-> exists v, In (symbol, v) clean_weights /\ ~ v == 0).
Proof.
  intros _ H. destruct (makeOneIteration_inv _ _ _ _ H) as [E1 [E2 [Hne [Ht ->]]]].
  split; [exact E1|]. split; [exact E2|]. split; [|split].
  - destruct (kept clean_weights); [congruence | discriminate].
  - rewrite map_map. reflexivity.
  - intro symbol. rewrite map_map. simpl. rewrite in_map_iff. split.
    + intros [[k v] [<- Hin]]. apply kept_In in Hin. exists v. exact Hin.
    + intros [v [Hin Hnz]]. exists (symbol, v). split; [reflexivity|].
      apply kept_In. auto.
Qed.

Lemma scaled_sorted (t : Q) (l : weights) :
  0 < t -> StronglySorted heavier l ->
  StronglySorted heavier (map (fun kv => (fst kv, snd kv / t)) l).
Proof.
  intros Hpos Hs. induction Hs as [|kv r Hr IH Hkv]; simpl; constructor.
  - exact IH.
  - rewrite Forall_map. eapply Forall_impl; [|exact Hkv].
    unfold heavier. simpl. intros kv0 Hle.
    apply Qle_shift_div_l; [exact Hpos|].
    setoid_replace (snd kv0 / t * t) with (snd kv0) by (field; lra). exact Hle.
Qed.

Lemma kept_sum_positive (w : weights) :
  Forall (fun kv => 0 <= snd kv) w -> kept w <> [] -> 0 < sum_values (kept w).
Proof.
  intros Hnn Hne. rewrite sum_values_Qsum.
  assert (Hk : Forall (fun kv => 0 < snd kv) (kept w)).
  { apply Forall_forall. intros kv Hkv. apply kept_In in Hkv.
    destruct Hkv as [Hin Hnz]. rewrite Forall_forall in Hnn. specialize (Hnn kv Hin).
    destruct (Qlt_le_dec 0 (snd kv)) as [Hp|Hn]; [exact Hp|].
    exfalso. apply Hnz. apply Qle_antisym; assumption. }
  destruct (kept w) as [|kv r]; [congruence|].
  inversion Hk; subst. simpl.
  assert (0 <= Qsum (map snd r)).
  { apply Qsum_nonneg. rewrite Forall_map. eapply Forall_impl; [|eassumption].
    simpl. intros; lra. }
  lra.
Qed.

(** X21: with the non-negative weights the optimizer's bounds give, the
    bot skips the rebalancing of non-empty data only when every weight is
    zero; otherwise every target weight is strictly positive and at most one,
    and the targets are listed from the heaviest to the lightest. *)
Theorem non_negative_weights_give_ordered_targets (clean_weights : weights) :
  Forall (fun kv => 0 <= snd kv) clean_weights ->
  (makeOneIteration false false clean_weights = Skipped
   <-> Forall (fun kv => snd kv == 0) clean_weights)
  /\ (forall normalized_weights,
         makeOneIteration false false clean_weights = Rebalanced normalized_weights ->
         Forall (fun kv => 0 < snd kv /\ snd kv <= 1) normalized_weights
         /\ StronglySorted heavier normalized_weights).
Proof.
  intro Hnn. split.
  - unfold makeOneIteration. fold (kept clean_weights). split.
    + intro H. destruct (kept clean_weights) as [|kv r] eqn:E.
      * apply Forall_forall. intros kv Hkv.
        destruct (Qeq_dec (snd kv) 0) as [Hz|Hnz]; [exact Hz|].
        assert (Hin : In kv (kept clean_weights)) by (apply kept_In; auto).
        rewrite E in Hin. contradiction.
      * exfalso.
        assert (Hpos : 0 < sum_values (kept clean_weights))
          by (apply kept_sum_positive; [exact Hnn | rewrite E; discriminate]).
        rewrite E in Hpos.
        destruct (Qeq_bool (sum_values (kv :: r)) 0) eqn:Et; [|discriminate].
        apply Qeq_bool_iff in Et. lra.
    + intro Hz. destruct (kept clean_weights) as [|kv r] eqn:E; [reflexivity|].
      exfalso. assert (Hin : In kv (kept clean_weights)) by (rewrite E; left; reflexivity).
      apply kept_In in Hin. destruct Hin as [Hin Hnz].
      rewrite Forall_forall in Hz. exact (Hnz (Hz kv Hin)).
  - intros w' H. destruct (makeOneIteration_inv _ _ _ _ H) as [_ [_ [Hne [_ ->]]]].
    pose proof (kept_sum_positive clean_weights Hnn Hne) as Hpos.
    set (t := sum_values (kept clean_weights)) in *.
    assert (Hk : forall kv, In kv (kept clean_weights) -> 0 < snd kv /\ snd kv <= t).
    { intros kv Hkv. pose proof Hkv as Hkv'. apply kept_In in Hkv.
      destruct Hkv as [Hin Hnz]. rewrite Forall_forall in Hnn.
      pose proof (Hnn kv Hin) as Hge.
      split.
      - destruct (Qlt_le_dec 0 (snd kv)) as [Hp|Hn]; [exact Hp|].
        exfalso. apply Hnz. apply Qle_antisym; assumption.
      - unfold t. rewrite sum_values_Qsum. apply Qsum_bounds_member.
        + rewrite Forall_map. apply Forall_forall. intros kv0 H0.
          apply kept_In in H0. exact (Hnn kv0 (proj1 H0)).
        + apply in_map. exact Hkv'. }
    split.
    + rewrite Forall_map. apply Forall_forall. intros kv Hkv. simpl.
      destruct (Hk kv Hkv) as [H1 H2]. split.
      * now apply Qdiv_pos.
      * apply Qle_shift_div_r; [exact Hpos | lra].
    + apply scaled_sorted; [exact Hpos|].
      apply filter_sorted, sorted_desc_sorted.
Qed.

End SharpeBotFacts.

(** * Properties of the portfolio worth *)

Module PortfolioWorthFacts.

Import PortfolioWorth.
Import String.StringSyntax.
Local Delimit Scope string_scope with string.

Section Service.

Variable date : Type.
Variable historic_close : String.string -> date -> option Q.
Variable get_latest_prices_batch : list String.string -> String.string -> option Q.

Abbreviation worth := (calculate_portfolio_worth date historic_close get_latest_prices_batch).

Lemma holdings_positive (p : portfolio) :
  Forall (fun kv => 0 < snd kv /\ fst kv <> "USD"%string) (holdings p).
Proof.
  apply Forall_forall. intros kv H. unfold holdings in H.
  apply filter_In in H. destruct H as [_ H].
  apply andb_prop in H. destruct H as [H1 H2].
  split; [now apply Qltb_lt|].
  intro E. rewrite E in H1. rewrite String.eqb_refl in H1. discriminate.
Qed.

Lemma add_holdings_at_least (price_of : String.string -> option Q) (hs : portfolio)
      (cash : Q) :
  Forall (fun kv => 0 < snd kv /\ fst kv <> "USD"%string) hs ->
  (forall symbol price, price_of symbol = Some price -> 0 <= price) ->
  cash <= add_holdings price_of hs cash.
Proof.
  intros Hhs Hprice. unfold add_holdings. revert cash.
  induction Hhs as [|kv hs [Hq _] Hrest IH]; intro cash; simpl; [apply Qle_refl|].
  destruct (price_of (fst kv)) as [price|] eqn:E; [|apply IH].
  specialize (Hprice _ _ E).
  apply Qle_trans with (cash + snd kv * price); [|apply IH].
  assert (0 <= snd kv * price) by (apply Qmult_nonneg; lra). lra.
Qed.

Lemma add_holdings_unpriced (price_of : String.string -> option Q) (hs : portfolio)
      (cash : Q) :
  (forall kv, In kv hs -> price_of (fst kv) = None) ->
  add_holdings price_of hs cash = cash.
Proof.
  unfold add_holdings. revert cash. induction hs as [|kv hs IH]; intros cash H; simpl;
    [reflexivity|].
  rewrite (H kv (or_introl eq_refl)). apply IH. intros kv' Hin. apply H. now right.
Qed.

(** X22: when no price the data service returns is negative, the worth of
    a portfolio is at least its cash, at a given date as well as at the latest
    prices; and a portfolio none of whose holdings can be priced is worth
    exactly its cash. *)
Theorem worth_at_least_cash (p : portfolio) (d : option date) :
  (forall symbol dt price, historic_close symbol dt = Some price -> 0 <= price) ->
  (forall symbols symbol price,
      get_latest_prices_batch symbols symbol = Some price -> 0 <= price) ->
  get p "USD"%string 0 <= worth p d
  /\ ((forall kv, In kv (holdings p) ->
                  match d with
                  | Some dt => historic_close (fst kv) dt
                  | None => get_latest_prices_batch (map fst (holdings p)) (fst kv)
                  end = None) ->
      worth p d = get p "USD"%string 0).
Proof.
  intros Hh Hl. unfold calculate_portfolio_worth.
  pose proof (holdings_positive p) as Hpos.
  destruct (holdings p) as [|kv hs] eqn:E.
  - split; [apply Qle_refl | reflexivity].
  - destruct d as [dt|]; split.
    + apply add_holdings_at_least; [exact Hpos|]. intros s pr. apply Hh.
    + intro Hnone. apply add_holdings_unpriced. exact Hnone.
    + apply add_holdings_at_least; [exact Hpos|]. intros s pr. apply Hl.
    + intro Hnone. apply add_holdings_unpriced. exact Hnone.
Qed.

Lemma get_skip (pre post : portfolio) (k key : String.string) (q default : Q) :
  k <> key ->
  get (pre ++ (k, q) :: post) key default = get (pre ++ post) key default.
Proof.
  intro Hne. induction pre as [|[k0 v0] pre IH]; simpl.
  - destruct (String.eqb k key) eqn:E; [|reflexivity].
    apply String.eqb_eq in E. contradiction.
  - destruct (String.eqb k0 key); [reflexivity | exact IH].
Qed.

(** X23: only positive holdings count: an entry of the portfolio other
    than the cash whose quantity is zero or negative, such as a short
    position, changes nothing to the worth, whatever the prices are. *)
Theorem non_positive_holdings_are_ignored
        (pre post : portfolio) (symbol : String.string) (quantity : Q)
        (d : option date) :
  symbol <> "USD"%string -> quantity <= 0 ->
  worth (pre ++ (symbol, quantity) :: post) d = worth (pre ++ post) d.
Proof.
  intros Hne Hq. unfold calculate_portfolio_worth.
  rewrite (get_skip pre post symbol "USD"%string quantity 0 Hne).
  assert (E : holdings (pre ++ (symbol, quantity) :: post) = holdings (pre ++ post)).
  { unfold holdings. rewrite !filter_app. simpl.
    assert (G : Qgtb quantity 0 = false) by (apply Qltb_false; exact Hq).
    rewrite G, andb_false_r. reflexivity. }
  rewrite E. reflexivity.
Qed.

End Service.

End PortfolioWorthFacts.

(** * The further scenarios *)

Import Inputs.
Import String.StringSyntax.
Local Delimit Scope string_scope with string.

(** The first three bars of the tight run over [support_frame]. *)
Lemma untouched_until_first_trend_witness :
  acct _ (state_after tight_params support_frame 3) = untouched_account 3
  /\ trend_switches (trk _ (state_after tight_params support_frame 3)) = []
  /\ active_trend_info (trk _ (state_after tight_params support_frame 3)) = no_model [].
Proof.
  apply (untouched_until_first_trend TwoPoint.rng TwoPoint.RANSACRegressor_fit
           tight_params support_frame tt 3).
  - vm_compute. reflexivity.
  - vm_compute. reflexivity.
Defined.

(** The ledger of the run over [spike_frame]: short, cover, short. *)
Lemma ledger_replays_to_position_witness :
  replay (trades (acct _ (state_after spike_params spike_frame 8)))
  = Some (position (acct _ (state_after spike_params spike_frame 8)))
  /\ Forall row_shape_ok (trades (acct _ (state_after spike_params spike_frame 8))).
Proof.
  apply (ledger_replays_to_position TwoPoint.rng TwoPoint.RANSACRegressor_fit
           spike_params spike_frame tt 8).
  vm_compute. reflexivity.
Defined.

(** The funds after the cover of bar 6 of the run over [cover_frame]. *)
Lemma funds_are_initial_cash_plus_realized_pnl_witness :
  cash (acct _ (state_after spike_params cover_frame 8))
  + position_size (acct _ (state_after spike_params cover_frame 8))
  == 100000 + Qsum (pnl_values (trades (acct _ (state_after spike_params cover_frame 8)))).
Proof.
  apply (funds_are_initial_cash_plus_realized_pnl
           TwoPoint.rng TwoPoint.RANSACRegressor_fit spike_params cover_frame tt 8).
  vm_compute. reflexivity.
Defined.

(** The switch log of the run over [cover_frame]. *)
Lemma switch_log_tracks_active_trend_witness :
  alternates None (map snd (trend_switches (trk _ (state_after spike_params cover_frame 8))))
  = true
  /\ last (map snd (trend_switches (trk _ (state_after spike_params cover_frame 8)))) None
     = active_trend (trk _ (state_after spike_params cover_frame 8))
  /\ Forall (fun e => exists i, (i < 8)%nat /\ fst e = date_at cover_frame i)
            (trend_switches (trk _ (state_after spike_params cover_frame 8)))
  /\ (length (trend_switches (trk _ (state_after spike_params cover_frame 8))) <= 8)%nat.
Proof.
  apply (switch_log_tracks_active_trend TwoPoint.rng TwoPoint.RANSACRegressor_fit
           spike_params cover_frame tt 8).
  vm_compute. reflexivity.
Defined.

Lemma short_frame_raises_witness :
  run_bars _ TwoPoint.RANSACRegressor_fit tight_params short_frame tt (length short_frame)
  = Ok {| trk := initial_tracker; acct := untouched_account (length short_frame);
          gen := tt |}
  /\ backtest short_frame tight_params = Raise KeyError.
Proof.
  apply (short_frame_raises TwoPoint.rng TwoPoint.RANSACRegressor_fit
           tight_params short_frame tt).
  - vm_compute. lia.
  - vm_compute. discriminate.
Defined.

Lemma order_below_one_raises_witness :
  backtest support_frame order_zero_params = Raise ValueError.
Proof.
  apply (order_below_one_raises TwoPoint.rng TwoPoint.RANSACRegressor_fit
           order_zero_params support_frame tt).
  vm_compute. reflexivity.
Defined.

Lemma rising_frame_never_falls : never_falls rising_frame.
Proof.
  intros i j [Hij Hj]. vm_compute in Hj.
  do 6 (destruct j as [|j];
        [ do 6 (destruct i as [|i];
                [ first [ exfalso; lia | vm_compute; discriminate ] | ]);
          exfalso; lia | ]).
  exfalso; lia.
Defined.

Lemma monotone_closes_never_trade_witness :
  run_bars _ TwoPoint.RANSACRegressor_fit tight_params rising_frame tt (length rising_frame)
  = Ok {| trk := initial_tracker; acct := untouched_account (length rising_frame);
          gen := tt |}
  /\ backtest rising_frame tight_params = Raise KeyError.
Proof.
  apply (monotone_closes_never_trade TwoPoint.rng TwoPoint.RANSACRegressor_fit
           tight_params rising_frame tt).
  - left. exact rising_frame_never_falls.
  - vm_compute. discriminate.
Defined.

(** Bar 4 of the loose run over [support_frame] opens a long. *)
Lemma entry_is_costless_witness :
  mark_to_market
    (trade_logic (1 # 2) (Some uptrend) (Some (19 # 2)) (date_at support_frame 4) 13
                 (acct _ (state_after loose_params support_frame 4))) 13
  == cash (acct _ (state_after loose_params support_frame 4)).
Proof.
  apply (entry_is_costless
           (1 # 2) (Some uptrend) (Some (19 # 2)) (date_at support_frame 4) 13
           (acct _ (state_after loose_params support_frame 4))).
  - vm_compute. reflexivity.
  - vm_compute. discriminate.
Defined.

(** Bar 6 of the run over [cover_frame] covers the short of bar 5 above its
    entry price. *)
Lemma exit_cash_against_notional_witness :
  position (acct _ (state_after spike_params cover_frame 6)) = (-1)%Z
  /\ cash (trade_logic (1 # 100) (Some downtrend) (Some (15 # 2))
                       (date_at cover_frame 6) 12
                       (acct _ (state_after spike_params cover_frame 6)))
     <= position_size (acct _ (state_after spike_params cover_frame 6)).
Proof.
  destruct (exit_cash_against_notional
              (1 # 100) (Some downtrend) (Some (15 # 2)) (date_at cover_frame 6) 12
              (acct _ (state_after spike_params cover_frame 6)))
    as [[P _] | [P [_ H]]].
  - vm_compute. discriminate.
  - vm_compute. reflexivity.
  - vm_compute. discriminate.
  - vm_compute. reflexivity.
  - vm_compute in P. discriminate P.
  - split; [exact P|]. apply H. vm_compute. discriminate.
Defined.

Lemma negative_line_never_touched_witness :
  is_touching_line 1 (Some (-1)) (1 # 100) = false.
Proof.
  apply (proj2 (negative_line_never_touched 1 (-1) (1 # 100))).
  - vm_compute. reflexivity.
  - vm_compute. reflexivity.
Defined.

(** In [some_results] the second result has the best equity, tied by the
    third. *)
Lemma first_best_result_wins_witness :
  best_equity_params (rank some_results) = Some loose_params
  /\ best_equity (rank some_results) = Some 120000.
Proof.
  apply (proj1 (first_best_result_wins
                  [(tight_params, NegInf, 90000)] [(spike_params, Fin 7, 120000)]
                  loose_params (Fin (-5)) 120000)).
  - constructor; [vm_compute; reflexivity | constructor].
  - constructor; [vm_compute; discriminate | constructor].
Defined.

Lemma worker_result_witness :
  exists out,
    backtest support_frame loose_params = Ok out
    /\ combo_of loose_result = loose_params
    /\ last (out_equity _ out) 0 = equity_of loose_result
    /\ (median_of loose_result = NegInf <-> no_realized_trade (out_trades _ out))
    /\ (forall v lo hi,
           median_of loose_result = Fin v ->
           (forall x, In x (pnl_values (out_trades _ out)) -> lo <= x <= hi) ->
           lo <= v <= hi).
Proof.
  apply (worker_result TwoPoint.rng TwoPoint.RANSACRegressor_fit tt loose_params
           (combo_of loose_result) support_frame
           (median_of loose_result) (equity_of loose_result)).
  vm_compute. reflexivity.
Defined.

(** The extrema of [zigzag] for order 3. *)
Lemma extrema_sorted_interior_disjoint_witness :
  StronglySorted lt [2; 6]%nat /\ StronglySorted lt [3; 7]%nat
  /\ Forall (fun m => (1 <= m)%nat /\ (m + 1 < length zigzag)%nat) [2; 6]%nat
  /\ Forall (fun m => (1 <= m)%nat /\ (m + 1 < length zigzag)%nat) [3; 7]%nat
  /\ (forall m, In m [2; 6]%nat -> In m [3; 7]%nat -> False).
Proof.
  apply (extrema_sorted_interior_disjoint zigzag 3 0).
  vm_compute. reflexivity.
Defined.

Lemma extrema_are_local_extrema_witness :
  Forall (fun m => FindPeaks.at_ zigzag (m - 1) <= FindPeaks.at_ zigzag m
                   /\ FindPeaks.at_ zigzag (m + 1) <= FindPeaks.at_ zigzag m
                   /\ 3 <= FindPeaks.peak_prominence zigzag m) [1; 3; 5; 7]%nat
  /\ Forall (fun m => FindPeaks.at_ zigzag m <= FindPeaks.at_ zigzag (m - 1)
                      /\ FindPeaks.at_ zigzag m <= FindPeaks.at_ zigzag (m + 1)
                      /\ 3 <= FindPeaks.peak_prominence (map Qopp zigzag) m)
            [2; 4; 6]%nat.
Proof.
  apply (extrema_are_local_extrema zigzag 1 3).
  vm_compute. reflexivity.
Defined.

Lemma extrema_at_least_order_apart_witness :
  (forall m m', In m [3; 7]%nat -> In m' [3; 7]%nat -> m <> m' ->
                (3 <= Z.abs (Z.of_nat m' - Z.of_nat m))%Z)
  /\ (forall m m', In m [2; 6]%nat -> In m' [2; 6]%nat -> m <> m' ->
                   (3 <= Z.abs (Z.of_nat m' - Z.of_nat m))%Z).
Proof.
  apply (extrema_at_least_order_apart zigzag 3 0).
  vm_compute. reflexivity.
Defined.

(** The tracker after the run over [cover_frame]: a downtrend on the
    resistance through the peaks of bars 3 and 6. *)
Lemma active_info_matches_trend_witness :
  info_matches spike_params
               (active_trend (trk _ (state_after spike_params cover_frame 8)))
               (active_trend_info (trk _ (state_after spike_params cover_frame 8)))
  /\ Forall (fun j => (j < 8)%nat)
            (used_points (active_trend_info (trk _ (state_after spike_params cover_frame 8))))
  /\ (active_trend (trk _ (state_after spike_params cover_frame 8)) <> None ->
      forall d,
        trendline_price_at
          (active_trend_info (trk _ (state_after spike_params cover_frame 8))) d
        <> None).
Proof.
  apply (active_info_matches_trend TwoPoint.rng TwoPoint.RANSACRegressor_fit
           spike_params cover_frame tt 8).
  vm_compute. reflexivity.
Defined.

Lemma backtest_returns_shape_witness :
  (3 <= length support_frame)%nat /\ (1 <= order loose_params)%Z
  /\ length (out_equity _ (out_of support_frame loose_params)) = length support_frame
  /\ nth 0 (out_equity _ (out_of support_frame loose_params)) 0 = 100000
  /\ (exists t ts, out_trades _ (out_of support_frame loose_params) = t :: ts
                   /\ is_entry t = true)
  /\ fitted (out_info _ (out_of support_frame loose_params)).
Proof.
  apply (backtest_returns_shape TwoPoint.rng TwoPoint.RANSACRegressor_fit
           tt support_frame loose_params).
  vm_compute. reflexivity.
Defined.

(** The targets computed from [some_weights]: AAPL and MSFT at 2/5 each,
    GLD at 1/5, TSLA dropped. *)
Example some_targets_value :
  map (fun kv => (fst kv, Qred (snd kv))) some_targets
  = [("AAPL"%string, 2 # 5); ("MSFT"%string, 2 # 5); ("GLD"%string, 1 # 5)].
Proof. vm_compute. reflexivity. Qed.

Lemma some_weights_non_negative : Forall (fun kv => 0 <= snd kv) some_weights.
Proof. repeat (constructor; [vm_compute; discriminate|]). constructor. Defined.

Lemma targets_are_the_non_zero_symbols_witness :
  false = false /\ false = false
  /\ some_targets <> []
  /\ map fst some_targets = map fst (SharpeBot.kept some_weights)
  /\ (forall symbol,
         In symbol (map fst some_targets)
         <-> exists v, In (symbol, v) some_weights /\ ~ v == 0).
Proof.
  apply (SharpeBotFacts.targets_are_the_non_zero_symbols
           false false some_weights some_targets).
  - exact some_weights_non_negative.
  - vm_compute. reflexivity.
Defined.

Lemma non_negative_weights_give_ordered_targets_witness :
  (SharpeBot.makeOneIteration false false some_weights = SharpeBot.Skipped
   <-> Forall (fun kv => snd kv == 0) some_weights)
  /\ (forall normalized_weights,
         SharpeBot.makeOneIteration false false some_weights
         = SharpeBot.Rebalanced normalized_weights ->
         Forall (fun kv => 0 < snd kv /\ snd kv <= 1) normalized_weights
         /\ StronglySorted SharpeBot.heavier normalized_weights).
Proof.
  apply (SharpeBotFacts.non_negative_weights_give_ordered_targets some_weights).
  exact some_weights_non_negative.
Defined.

Lemma some_prices_non_negative (symbol : String.string) (price : Q) :
  some_prices symbol = Some price -> 0 <= price.
Proof.
  unfold some_prices.
  destruct (String.eqb symbol "AAPL"%string); [intro H; inversion H; subst; discriminate|].
  destruct (String.eqb symbol "TSLA"%string); [intro H; inversion H; subst; discriminate|].
  discriminate.
Defined.

(** [some_portfolio] at a date: 1000 of cash and two shares priced 150; the
    short position and the unpriced holding add nothing. *)
Example some_portfolio_worth :
  PortfolioWorth.calculate_portfolio_worth unit historic latest some_portfolio (Some tt)
  == 1300.
Proof. vm_compute. reflexivity. Qed.

Lemma worth_at_least_cash_witness :
  PortfolioWorth.get some_portfolio "USD"%string 0
  <= PortfolioWorth.calculate_portfolio_worth unit historic latest some_portfolio (Some tt)
  /\ ((forall kv, In kv (PortfolioWorth.holdings some_portfolio) ->
                  historic (fst kv) tt = None) ->
      PortfolioWorth.calculate_portfolio_worth unit historic latest some_portfolio (Some tt)
      = PortfolioWorth.get some_portfolio "USD"%string 0).
Proof.
  apply (PortfolioWorthFacts.worth_at_least_cash unit historic latest
           some_portfolio (Some tt)).
  - intros symbol dt price. apply some_prices_non_negative.
  - intros symbols symbol price. apply some_prices_non_negative.
Defined.

Lemma non_positive_holdings_are_ignored_witness :
  PortfolioWorth.calculate_portfolio_worth unit historic latest some_portfolio None
  = PortfolioWorth.calculate_portfolio_worth unit historic latest
      [("USD"%string, 1000); ("AAPL"%string, 2); ("GLD"%string, 5)] None.
Proof.
  apply (PortfolioWorthFacts.non_positive_holdings_are_ignored unit historic latest
           [("USD"%string, 1000); ("AAPL"%string, 2)] [("GLD"%string, 5)]
           "TSLA"%string (-3) None).
  - discriminate.
  - vm_compute. discriminate.
Defined.
